(** * OpenClaw Voice: the conversation orchestrator, the gateway client and
    the message store

    A shallow embedding of [src/stores/appStore.ts], [src/services/gateway.ts],
    [src/services/tts.ts] and [src/services/conversation.ts].

    The TypeScript modules keep their state in module-level [let] variables and
    react to events (user calls, timers, socket frames, adapter callbacks).
    Each module is embedded as a record holding those variables together with
    the part of the JavaScript environment the code talks to (armed timers,
    promises that are still awaited, a log of the calls made to collaborators
    and to the registered handlers).  Every source function becomes a state
    transformer; an [async] function is cut at each [await] into the part that
    runs synchronously and the parts that run when the awaited promise
    settles.  Event handlers run one at a time, as on the JavaScript event
    loop; [step] takes one event, [run] a sequence of them.

    The transcription engine, the speech engine and the network are outside:
    what they do arrives as events (a partial transcript, a promise settling,
    a socket frame), and every outcome they can have is an event the
    embedding accepts. *)

From Stdlib Require Import ZArith Ascii String List Lia.
From stdpp Require Import base tactics option list strings gmap pretty.

Local Open Scope string_scope.
Local Open Scope list_scope.

(** ** JavaScript strings: [String.prototype.trim] *)

Module JsString.

(** White space in the sense of ECMAScript's [trim], for the code units a
    Rocq [ascii] can hold: TAB, LF, VT, FF, CR, SPACE and NBSP. *)
Definition is_whitespace (a : ascii) : bool :=
  let n := nat_of_ascii a in
  ((9 <=? n)%nat && (n <=? 13)%nat) || (n =? 32)%nat || (n =? 160)%nat.

Fixpoint trimStart (s : string) : string :=
  match s with
  | EmptyString => EmptyString
  | String a s' => if is_whitespace a then trimStart s' else s
  end.

(** [trimEnd] drops the trailing white space: a character stays when it is
    not white space or when something stays after it. *)
Fixpoint trimEnd (s : string) : string :=
  match s with
  | EmptyString => EmptyString
  | String a s' =>
      match trimEnd s' with
      | EmptyString => if is_whitespace a then EmptyString else String a EmptyString
      | t => String a t
      end
  end.

Definition trim (s : string) : string := trimEnd (trimStart s).

(** [s] is empty or consists of white space only. *)
Fixpoint whitespace_only (s : string) : bool :=
  match s with
  | EmptyString => true
  | String a s' => is_whitespace a && whitespace_only s'
  end.

(** JavaScript truthiness of a string: [if (str)] holds for non-empty ones. *)
Definition truthy (s : string) : bool :=
  match s with EmptyString => false | String _ _ => true end.

End JsString.

(** ** Shared types ([src/types/index.ts]) *)

Inductive ConnectionState := disconnected | connecting | connected | error.

Inductive ConversationPhase := idle | listening | processing | speaking.

Inductive Role := user | assistant.

Record ChatMessage := mkChatMessage {
  role : Role;
  text : string;
  timestamp : Z
}.

Record GatewayConfig := mkGatewayConfig {
  url : string;
  token : string
}.

Global Instance ConversationPhase_eq_dec : EqDecision ConversationPhase.
Proof. solve_decision. Defined.

Global Instance ConnectionState_eq_dec : EqDecision ConnectionState.
Proof. solve_decision. Defined.

Global Instance Role_eq_dec : EqDecision Role.
Proof. solve_decision. Defined.

(** ** The message store ([src/stores/appStore.ts]) *)

Module AppStore.

(** [Array.prototype.slice(-n)]: the last [n] elements, the whole array when
    it has at most [n]. *)
Definition slice_last {A} (n : nat) (l : list A) : list A :=
  drop (length l - n) l.

(** [addMessage]: [messages: [...state.messages.slice(-50), message]]. *)
Definition addMessage (message : ChatMessage) (messages : list ChatMessage)
  : list ChatMessage :=
  slice_last 50 messages ++ [message].

(** [clearMessages]. *)
Definition clearMessages (messages : list ChatMessage) : list ChatMessage := [].

(** The history after a sequence of [addMessage] calls, oldest call first. *)
Definition addMessages (new : list ChatMessage) (messages : list ChatMessage)
  : list ChatMessage :=
  fold_left (fun acc m => addMessage m acc) new messages.

(** The [n]-th test message. *)
Definition msg (n : nat) : ChatMessage :=
  mkChatMessage user (pretty n) (Z.of_nat n).

End AppStore.

(** ** The gateway client ([src/services/gateway.ts]) *)

Module Gateway.

(** *** Frames and payloads *)

#[local] Set Warnings "-register-all".

(** A value produced by [JSON.parse].  Payloads are read as [any], so the
    code looks fields up on whatever arrived.  Numbers carry their value as
    an integer: the code only tests them for zero and uses one as a delay. *)
Inductive json :=
| JNull
| JBool (b : bool)
| JNum (n : Z)
| JStr (s : string)
| JArr (items : list json)
| JObj (fields : list (string * json)).

Fixpoint assoc (k : string) (fields : list (string * json)) : option json :=
  match fields with
  | [] => None
  | (k', v) :: rest => if String.eqb k k' then Some v else assoc k rest
  end.

(** [v?.k]: [undefined] (here [None]) unless [v] is an object with that
    property. *)
Definition get (k : string) (v : option json) : option json :=
  match v with
  | Some (JObj fields) => assoc k fields
  | _ => None
  end.

(** JavaScript truthiness, as tested by [if (payload?.text)]. *)
Definition truthy (v : option json) : bool :=
  match v with
  | None => false
  | Some JNull => false
  | Some (JBool b) => b
  | Some (JNum n) => negb (Z.eqb n 0)
  | Some (JStr s) => JsString.truthy s
  | Some (JArr _) => true
  | Some (JObj _) => true
  end.

(** [v === 'str']. *)
Definition is_str (str : string) (v : option json) : bool :=
  match v with
  | Some (JStr s) => String.eqb s str
  | _ => false
  end.

(** [GatewayRequest]: [{type: 'req', id, method, params}]. *)
Record GatewayRequest := mkRequest {
  req_id : string;
  req_method : string;
  req_params : json
}.

(** [GatewayResponse]: [{type: 'res', id, ok, payload?, error?}];
    [res_error] holds [error.message]. *)
Record GatewayResponse := mkResponse {
  res_id : string;
  res_ok : bool;
  res_payload : option json;
  res_error : option string
}.

(** [GatewayEvent]: [{type: 'event', event, payload, seq?}]. *)
Record GatewayEvent := mkEvent {
  event : string;
  payload : option json
}.

Inductive GatewayFrame :=
| Res (r : GatewayResponse)
| Event (e : GatewayEvent).

(** What [JSON.parse(raw)] gives [handleFrame]: an exception, a frame of one
    of the two kinds, or another value, whose [type] is neither ['res'] nor
    ['event'] (or cannot be read: the message handler of the socket then
    ends with the module's variables untouched all the same). *)
Inductive incoming :=
| InvalidJson
| Frame (f : GatewayFrame)
| OtherType.

(** *** The environment: sockets, timers, promises, handlers *)

Inductive ReadyState := CONNECTING | OPEN | CLOSING | CLOSED.

Definition socket := nat.
Definition promise := nat.
Definition timer_id := nat.
Definition handler := nat.

(** How a promise returned by [send] settles. *)
Inductive settlement :=
| Resolved (payload : option json)
| Rejected (message : string).

(** The code that waits for a promise of [send]. *)
Inductive continuation :=
| DoConnect_connect      (* doConnect, awaiting the connect request *)
| DoConnect_subscribe    (* doConnect, awaiting chat.subscribe *)
| Tick_catch             (* the keepalive's .catch(() => {}) *)
| SendMessage_caller.    (* sendMessage, awaited by its caller *)

(** The closures handed to [setTimeout] and [setInterval]. *)
Inductive callback :=
| RequestTimeout (id : string) (method : string) (p : promise)
| Reconnect
| Tick.

Record timer := mkTimer {
  tid : timer_id;
  cb : callback;
  delay : Z;
  repeating : bool
}.

(** Calls that leave the module: handler invocations, socket operations and
    the settling of a promise. *)
Inductive effect :=
| OnMessage (h : handler) (text messageId : option json)
| OnStateChange (h : handler) (st : ConnectionState)
| WsNew (sock : socket) (url : string)
| WsSend (sock : socket) (frame : GatewayRequest)
| WsClose (sock : socket)
| Settle (p : promise) (o : settlement).

(** The module-level variables, then the environment. *)
Record state := mkState {
  _ws : option (socket * ReadyState);
  _config : option GatewayConfig;
  _reqId : nat;
  _pendingRequests : gmap string promise;
  _onMessage : option handler;
  _onStateChange : option handler;
  _reconnectTimer : option timer_id;
  _tickTimer : option timer_id;
  _isConnected : bool;
  timers : list timer;
  nextTimer : timer_id;
  nextSocket : socket;
  nextPromise : promise;
  awaiting : list (promise * continuation);
  log : list effect
}.

Definition initial : state :=
  mkState None None 0 ∅ None None None None false [] 1 1 1 [] [].

Definition set_ws v s :=
  mkState v (_config s) (_reqId s) (_pendingRequests s) (_onMessage s)
    (_onStateChange s) (_reconnectTimer s) (_tickTimer s) (_isConnected s)
    (timers s) (nextTimer s) (nextSocket s) (nextPromise s) (awaiting s) (log s).
Definition set_config v s :=
  mkState (_ws s) v (_reqId s) (_pendingRequests s) (_onMessage s)
    (_onStateChange s) (_reconnectTimer s) (_tickTimer s) (_isConnected s)
    (timers s) (nextTimer s) (nextSocket s) (nextPromise s) (awaiting s) (log s).
Definition set_reqId v s :=
  mkState (_ws s) (_config s) v (_pendingRequests s) (_onMessage s)
    (_onStateChange s) (_reconnectTimer s) (_tickTimer s) (_isConnected s)
    (timers s) (nextTimer s) (nextSocket s) (nextPromise s) (awaiting s) (log s).
Definition set_pendingRequests v s :=
  mkState (_ws s) (_config s) (_reqId s) v (_onMessage s)
    (_onStateChange s) (_reconnectTimer s) (_tickTimer s) (_isConnected s)
    (timers s) (nextTimer s) (nextSocket s) (nextPromise s) (awaiting s) (log s).
Definition set_onMessage v s :=
  mkState (_ws s) (_config s) (_reqId s) (_pendingRequests s) v
    (_onStateChange s) (_reconnectTimer s) (_tickTimer s) (_isConnected s)
    (timers s) (nextTimer s) (nextSocket s) (nextPromise s) (awaiting s) (log s).
Definition set_onStateChange v s :=
  mkState (_ws s) (_config s) (_reqId s) (_pendingRequests s) (_onMessage s)
    v (_reconnectTimer s) (_tickTimer s) (_isConnected s)
    (timers s) (nextTimer s) (nextSocket s) (nextPromise s) (awaiting s) (log s).
Definition set_reconnectTimer v s :=
  mkState (_ws s) (_config s) (_reqId s) (_pendingRequests s) (_onMessage s)
    (_onStateChange s) v (_tickTimer s) (_isConnected s)
    (timers s) (nextTimer s) (nextSocket s) (nextPromise s) (awaiting s) (log s).
Definition set_tickTimer v s :=
  mkState (_ws s) (_config s) (_reqId s) (_pendingRequests s) (_onMessage s)
    (_onStateChange s) (_reconnectTimer s) v (_isConnected s)
    (timers s) (nextTimer s) (nextSocket s) (nextPromise s) (awaiting s) (log s).
Definition set_isConnected v s :=
  mkState (_ws s) (_config s) (_reqId s) (_pendingRequests s) (_onMessage s)
    (_onStateChange s) (_reconnectTimer s) (_tickTimer s) v
    (timers s) (nextTimer s) (nextSocket s) (nextPromise s) (awaiting s) (log s).
Definition set_timers v s :=
  mkState (_ws s) (_config s) (_reqId s) (_pendingRequests s) (_onMessage s)
    (_onStateChange s) (_reconnectTimer s) (_tickTimer s) (_isConnected s)
    v (nextTimer s) (nextSocket s) (nextPromise s) (awaiting s) (log s).
Definition set_nextTimer v s :=
  mkState (_ws s) (_config s) (_reqId s) (_pendingRequests s) (_onMessage s)
    (_onStateChange s) (_reconnectTimer s) (_tickTimer s) (_isConnected s)
    (timers s) v (nextSocket s) (nextPromise s) (awaiting s) (log s).
Definition set_nextSocket v s :=
  mkState (_ws s) (_config s) (_reqId s) (_pendingRequests s) (_onMessage s)
    (_onStateChange s) (_reconnectTimer s) (_tickTimer s) (_isConnected s)
    (timers s) (nextTimer s) v (nextPromise s) (awaiting s) (log s).
Definition set_nextPromise v s :=
  mkState (_ws s) (_config s) (_reqId s) (_pendingRequests s) (_onMessage s)
    (_onStateChange s) (_reconnectTimer s) (_tickTimer s) (_isConnected s)
    (timers s) (nextTimer s) (nextSocket s) v (awaiting s) (log s).
Definition set_awaiting v s :=
  mkState (_ws s) (_config s) (_reqId s) (_pendingRequests s) (_onMessage s)
    (_onStateChange s) (_reconnectTimer s) (_tickTimer s) (_isConnected s)
    (timers s) (nextTimer s) (nextSocket s) (nextPromise s) v (log s).
Definition set_log v s :=
  mkState (_ws s) (_config s) (_reqId s) (_pendingRequests s) (_onMessage s)
    (_onStateChange s) (_reconnectTimer s) (_tickTimer s) (_isConnected s)
    (timers s) (nextTimer s) (nextSocket s) (nextPromise s) (awaiting s) v.

Definition emit (e : effect) (s : state) : state := set_log (log s ++ [e]) s.

(** [setTimeout(cb, delay)] and [setInterval(cb, delay)]: a fresh timer is
    armed; its id is [nextTimer] of the state before the call. *)
Definition setTimeout (c : callback) (ms : Z) (s : state) : state :=
  set_nextTimer (S (nextTimer s))
    (set_timers (timers s ++ [mkTimer (nextTimer s) c ms false]) s).

Definition setInterval (c : callback) (ms : Z) (s : state) : state :=
  set_nextTimer (S (nextTimer s))
    (set_timers (timers s ++ [mkTimer (nextTimer s) c ms true]) s).

(** [clearTimeout(t)] and [clearInterval(t)]: nothing happens when [t] is no
    longer armed. *)
Definition clearTimeout (t : timer_id) (s : state) : state :=
  set_timers (filter (fun x => tid x ≠ t) (timers s)) s.

(** [resolve(v)] and [reject(new Error(msg))] of the promise [p]. *)
Definition resolve (p : promise) (v : option json) (s : state) : state :=
  emit (Settle p (Resolved v)) s.

Definition reject (p : promise) (msg : string) (s : state) : state :=
  emit (Settle p (Rejected msg)) s.

(** [_onStateChange?.(st)] and [_onMessage?.(text, messageId)]. *)
Definition notifyState (st : ConnectionState) (s : state) : state :=
  match _onStateChange s with
  | Some h => emit (OnStateChange h st) s
  | None => s
  end.

Definition notifyMessage (text messageId : option json) (s : state) : state :=
  match _onMessage s with
  | Some h => emit (OnMessage h text messageId) s
  | None => s
  end.

(** [_ws && _ws.readyState === WebSocket.OPEN]. *)
Definition ws_open (s : state) : bool :=
  match _ws s with
  | Some (_, OPEN) => true
  | _ => false
  end.

(** [_ws.send(JSON.stringify(frame))]. *)
Definition ws_send (frame : GatewayRequest) (s : state) : state :=
  match _ws s with
  | Some (sock, _) => emit (WsSend sock frame) s
  | None => s
  end.

(** [_ws.close(); _ws = null]. *)
Definition ws_close (s : state) : state :=
  match _ws s with
  | Some (sock, _) => set_ws None (emit (WsClose sock) s)
  | None => s
  end.

(** *** The functions of the module *)

(** [nextId]: [`rn-${++_reqId}`]. *)
Definition rn (k : nat) : string := "rn-" +:+ pretty k.

Definition nextId (s : state) : string * state :=
  (rn (S (_reqId s)), set_reqId (S (_reqId s)) s).

(** [send(frame)].  The promise it returns is [nextPromise] of the state
    before the call; [k] is the code awaiting it. *)
Definition send (frame : GatewayRequest) (k : continuation) (s : state) : state :=
  let p := nextPromise s in
  let s := set_awaiting (awaiting s ++ [(p, k)]) (set_nextPromise (S p) s) in
  if negb (ws_open s) then
    reject p "WebSocket not connected" s
  else
    let s := set_pendingRequests (<[req_id frame := p]> (_pendingRequests s)) s in
    let s := ws_send frame s in
    setTimeout (RequestTimeout (req_id frame) (req_method frame) p) 30000 s.

(** The closure [send] hands to [setTimeout]. *)
Definition requestTimeout (id method : string) (p : promise) (s : state) : state :=
  match _pendingRequests s !! id with
  | Some _ =>
      let s := set_pendingRequests (delete id (_pendingRequests s)) s in
      reject p ("Request " +:+ method +:+ " timed out") s
  | None => s
  end.

(** The parameters of the [connect] request. *)
Definition connectParams (cfg : GatewayConfig) (nonce : option json) : json :=
  JObj ([("minProtocol", JNum 3); ("maxProtocol", JNum 3);
         ("client", JObj [("id", JStr "openclaw-voice-android");
                          ("version", JStr "0.1.0");
                          ("platform", JStr "android");
                          ("mode", JStr "operator")]);
         ("role", JStr "operator");
         ("scopes", JArr [JStr "operator.read"; JStr "operator.write"]);
         ("caps", JArr []); ("commands", JArr []); ("permissions", JObj []);
         ("auth", JObj [("token", JStr (token cfg))]);
         ("locale", JStr "en-US");
         ("userAgent", JStr "openclaw-voice/0.1.0")]
        ++ match nonce with
           | Some n => if truthy nonce then [("device", JObj [("nonce", n)])] else []
           | None => []
           end).

(** [doConnect(nonce)], up to its first [await]. *)
Definition doConnect (nonce : option json) (s : state) : state :=
  match _config s with
  | None => s
  | Some cfg =>
      let '(id, s) := nextId s in
      send (mkRequest id "connect" (connectParams cfg nonce)) DoConnect_connect s
  end.

(** [(payload as any)?.policy?.tickIntervalMs || 15000]: the value handed
    to [setInterval], the policy's own when it is truthy, whatever its
    type. *)
Definition tickInterval (payload : option json) : json :=
  let v := get "tickIntervalMs" (get "policy" payload) in
  if truthy v then match v with Some x => x | None => JNum 15000 end
  else JNum 15000.

(** The delay the timer API makes of the value it is handed: a number is
    the delay.  What the platform's timer makes of a value that is not a
    number is not followed here: a zero delay stands for it in the armed
    timer, and no property below speaks of the delay in that case. *)
Definition delay_of (v : json) : Z :=
  match v with
  | JNum n => n
  | _ => 0
  end.

(** The interval callback of the keepalive. *)
Definition tick (s : state) : state :=
  if ws_open s then
    let '(id, s) := nextId s in
    send (mkRequest id "tick" (JObj [])) Tick_catch s
  else s.

(** [doConnect] after the connect request settled: the rest of the [try]
    block, or the [catch]. *)
Definition doConnect_connected (o : settlement) (s : state) : state :=
  match o with
  | Resolved payload =>
      let s := set_isConnected true s in
      let s := notifyState connected s in
      let s := match _tickTimer s with
               | Some t => clearTimeout t s
               | None => s
               end in
      let t := nextTimer s in
      let s := set_tickTimer (Some t)
                 (setInterval Tick (delay_of (tickInterval payload)) s) in
      let '(id, s) := nextId s in
      send (mkRequest id "chat.subscribe" (JObj [("session", JStr "main")]))
        DoConnect_subscribe s
  | Rejected _ => notifyState error s
  end.

(** [doConnect] after the subscribe request settled. *)
Definition doConnect_subscribed (o : settlement) (s : state) : state :=
  match o with
  | Resolved _ => s
  | Rejected _ => notifyState error s
  end.

(** [handleEvent(event)]. *)
Definition handleEvent (e : GatewayEvent) (s : state) : state :=
  let payload := payload e in
  if String.eqb (event e) "connect.challenge" then
    doConnect (get "nonce" payload) s
  else if String.eqb (event e) "chat" then
    let s := if is_str "assistant" (get "role" payload) && truthy (get "text" payload)
             then notifyMessage (get "text" payload) (get "messageId" payload) s
             else s in
    if is_str "message" (get "type" payload) && is_str "assistant" (get "role" payload)
    then notifyMessage (get "text" payload) (get "messageId" payload) s
    else s
  else if String.eqb (event e) "chat.reply" then
    if truthy (get "text" payload)
    then notifyMessage (get "text" payload) (get "messageId" payload) s
    else s
  else if String.eqb (event e) "chat.stream" then s
  else s.

(** [handleFrame(raw)], from the result of [JSON.parse(raw)] on. *)
Definition handleFrame (raw : incoming) (s : state) : state :=
  match raw with
  | InvalidJson => s
  | Frame (Res frame) =>
      match _pendingRequests s !! res_id frame with
      | Some pending =>
          let s := set_pendingRequests (delete (res_id frame) (_pendingRequests s)) s in
          if res_ok frame then resolve pending (res_payload frame) s
          else reject pending
                 (match res_error frame with
                  | Some m => if JsString.truthy m then m else "Unknown error"
                  | None => "Unknown error"
                  end) s
      | None => s
      end
  | Frame (Event frame) => handleEvent frame s
  | OtherType => s
  end.

(** [scheduleReconnect]. *)
Definition scheduleReconnect (s : state) : state :=
  match _reconnectTimer s with
  | Some _ => s
  | None =>
      let t := nextTimer s in
      set_reconnectTimer (Some t) (setTimeout Reconnect 5000 s)
  end.

(** [connect(config)]. *)
Definition connect (config : GatewayConfig) (s : state) : state :=
  let s := set_config (Some config) s in
  let s := set_isConnected false s in
  let s := notifyState connecting s in
  let s := ws_close s in
  let sock := nextSocket s in
  let s := set_nextSocket (S sock) (emit (WsNew sock (url config)) s) in
  set_ws (Some (sock, CONNECTING)) s.

(** The closure [scheduleReconnect] hands to [setTimeout]. *)
Definition reconnect (s : state) : state :=
  let s := set_reconnectTimer None s in
  match _isConnected s, _config s with
  | false, Some cfg => connect cfg s
  | _, _ => s
  end.

(** [ws.onclose]. *)
Definition onclose (s : state) : state :=
  let s := set_isConnected false s in
  let s := match _tickTimer s with
           | Some t => set_tickTimer None (clearTimeout t s)
           | None => s
           end in
  let s := notifyState disconnected s in
  scheduleReconnect s.

(** [ws.onerror]. *)
Definition onerror (s : state) : state := notifyState error s.

(** [disconnect]. *)
Definition disconnect (s : state) : state :=
  let s := set_config None s in
  let s := set_isConnected false s in
  let s := match _reconnectTimer s with
           | Some t => set_reconnectTimer None (clearTimeout t s)
           | None => s
           end in
  let s := match _tickTimer s with
           | Some t => set_tickTimer None (clearTimeout t s)
           | None => s
           end in
  let s := ws_close s in
  set_pendingRequests ∅ s.

(** [sendMessage(text)], up to its [await]. *)
Definition sendMessage (text : string) (s : state) : state :=
  let '(id, s) := nextId s in
  send (mkRequest id "chat.send" (JObj [("session", JStr "main"); ("text", JStr text)]))
    SendMessage_caller s.

Definition onMessage (h : handler) (s : state) : state := set_onMessage (Some h) s.
Definition onStateChange (h : handler) (s : state) : state := set_onStateChange (Some h) s.
Definition isConnected (s : state) : bool := _isConnected s.

(** *** Events *)

(** How a promise was settled, if it was: the first [Settle] counts, a
    promise ignores later ones. *)
Fixpoint settled (p : promise) (l : list effect) : option settlement :=
  match l with
  | [] => None
  | Settle q o :: rest => if Nat.eqb p q then Some o else settled p rest
  | _ :: rest => settled p rest
  end.

Definition run_continuation (k : continuation) (o : settlement) (s : state) : state :=
  match k with
  | DoConnect_connect => doConnect_connected o s
  | DoConnect_subscribe => doConnect_subscribed o s
  | Tick_catch => s
  | SendMessage_caller => s
  end.

Fixpoint find_awaiting (p : promise) (l : list (promise * continuation))
  : option continuation :=
  match l with
  | [] => None
  | (q, k) :: rest => if Nat.eqb p q then Some k else find_awaiting p rest
  end.

(** The code awaiting [p] resumes, once, after [p] has settled. *)
Definition continue (p : promise) (s : state) : state :=
  match settled p (log s), find_awaiting p (awaiting s) with
  | Some o, Some k =>
      run_continuation k o
        (set_awaiting (filter (fun x => fst x ≠ p) (awaiting s)) s)
  | _, _ => s
  end.

Definition run_callback (c : callback) (s : state) : state :=
  match c with
  | RequestTimeout id method p => requestTimeout id method p s
  | Reconnect => reconnect s
  | Tick => tick s
  end.

(** An armed timer fires: a one-shot timer is disarmed first. *)
Definition fire (t : timer_id) (s : state) : state :=
  match List.find (fun x => Nat.eqb (tid x) t) (timers s) with
  | Some x =>
      run_callback (cb x) (if repeating x then s else clearTimeout t s)
  | None => s
  end.

(** The socket [sock] changes its [readyState]; only the state of the
    current socket is ever read. *)
Definition set_readyState (sock : socket) (r : ReadyState) (s : state) : state :=
  match _ws s with
  | Some (sock', _) => if Nat.eqb sock sock' then set_ws (Some (sock, r)) s else s
  | None => s
  end.

(** What can happen to the client: calls of its public functions, events of
    a socket it created, a timer firing, awaiting code resuming. *)
Inductive input :=
| CallConnect (config : GatewayConfig)
| CallDisconnect
| CallSendMessage (text : string)
| CallOnMessage (h : handler)
| CallOnStateChange (h : handler)
| SocketOpen (sock : socket)
| SocketMessage (sock : socket) (raw : incoming)
| SocketError (sock : socket)
| SocketClose (sock : socket)
| TimerFires (t : timer_id)
| Continue (p : promise).

Definition step (i : input) (s : state) : state :=
  match i with
  | CallConnect config => connect config s
  | CallDisconnect => disconnect s
  | CallSendMessage text => sendMessage text s
  | CallOnMessage h => onMessage h s
  | CallOnStateChange h => onStateChange h s
  | SocketOpen sock => set_readyState sock OPEN s
  | SocketMessage _ raw => handleFrame raw s
  | SocketError _ => onerror s
  | SocketClose sock => onclose (set_readyState sock CLOSED s)
  | TimerFires t => fire t s
  | Continue p => continue p s
  end.

Definition run (l : list input) (s : state) : state :=
  fold_left (fun acc i => step i acc) l s.

(** How often the promise [p] was settled. *)
Definition settle_count (p : promise) (l : list effect) : nat :=
  length (List.filter (fun e => match e with
                           | Settle q _ => Nat.eqb p q
                           | _ => false
                           end) l).

(** The promises settled so far, one entry per call of [resolve] or
    [reject], and the request timeouts among the armed timers. *)
Definition settles (l : list effect) : list promise :=
  omap (fun e => match e with
                 | Settle p _ => Some p
                 | _ => None
                 end) l.

Definition request_timers (l : list timer) : list (string * promise) :=
  omap (fun x => match cb x with
                 | RequestTimeout id _ p => Some (id, p)
                 | _ => None
                 end) l.

(** How often the message handler was invoked. *)
Definition message_calls (l : list effect) : list (option json * option json) :=
  omap (fun e => match e with
                 | OnMessage _ text messageId => Some (text, messageId)
                 | _ => None
                 end) l.

(** The armed reconnection timers. *)
Definition is_reconnect (x : timer) : bool :=
  match cb x with Reconnect => true | _ => false end.

Definition reconnect_timers (s : state) : list timer :=
  List.filter is_reconnect (timers s).

(** *** Scenarios *)

Definition config0 : GatewayConfig := mkGatewayConfig "ws://gateway:18789" "secret".

(** Handlers registered, [connect(config0)] called, socket 1 open, the
    challenge answered and the connect request "rn-1" accepted: Connected,
    the keepalive (timer 2) running, the subscription "rn-2" pending. *)
Definition connected_session : state :=
  run [CallOnMessage 7; CallOnStateChange 8; CallConnect config0; SocketOpen 1;
       SocketMessage 1
         (Frame (Event (mkEvent "connect.challenge"
                          (Some (JObj [("nonce", JStr "n1")])))));
       SocketMessage 1 (Frame (Res (mkResponse "rn-1" true None None)));
       Continue 1] initial.

(** [sendMessage("hi")] called on top: the request "rn-3" is pending for
    promise 3, its timeout is timer 4. *)
Definition message_pending : state :=
  run [CallSendMessage "hi"] connected_session.

(** The response "rn-3" arrives, then the timeout of that request (timer 4)
    fires. *)
Definition reply_then_timeout : list input :=
  [CallOnMessage 7; CallOnStateChange 8; CallConnect config0; SocketOpen 1;
   SocketMessage 1
     (Frame (Event (mkEvent "connect.challenge"
                      (Some (JObj [("nonce", JStr "n1")])))));
   SocketMessage 1 (Frame (Res (mkResponse "rn-1" true None None)));
   Continue 1; CallSendMessage "hi";
   SocketMessage 1 (Frame (Res (mkResponse "rn-3" true None None)));
   TimerFires 4].

End Gateway.

(** ** Speech synthesis ([src/services/tts.ts]) *)

Module TTS.

(** Calls into [expo-speech]. *)
Inductive call :=
| SpeechSpeak (text : string)
| SpeechStop.

(** The module's only variable is [_isSpeaking]; each function maps its
    value before the call to its value after it and the calls made. *)

(** [speak(text)], the body of the promise it returns. *)
Definition speak (text : string) (_isSpeaking : bool) : bool * list call :=
  (true, (if _isSpeaking then [SpeechStop] else []) ++ [SpeechSpeak text]).

(** [stopSpeaking]. *)
Definition stopSpeaking (_isSpeaking : bool) : bool * list call :=
  if _isSpeaking then (false, [SpeechStop]) else (_isSpeaking, []).

(** The [onStart] callback given to [Speech.speak]. *)
Definition onStart (_isSpeaking : bool) : bool := true.

(** The [onDone], [onStopped] and [onError] callbacks: each clears the flag
    before settling the promise of [speak]. *)
Definition onFinished (_isSpeaking : bool) : bool := false.

End TTS.

(** ** The conversation orchestrator ([src/services/conversation.ts]) *)

Module Conversation.

Definition listener := nat.
Definition timer_id := nat.
Definition handler := nat.

(** What the caller of [beginListening] does once it returns. *)
Inductive after_begin :=
| Then_return             (* nothing more *)
| Then_armResponseTimer.  (* onSilenceDetected's catch block falls through
                             to the response timer *)

(** A suspended [await]. *)
Inductive task :=
| AwaitStartListening (k : after_begin)  (* beginListening: Whisper.startListening *)
| AwaitStop_stop                         (* stop: _activeListener.stop() *)
| AwaitStop_onSilenceDetected            (* onSilenceDetected: _activeListener.stop() *)
| AwaitSendMessage                       (* onSilenceDetected: Gateway.sendMessage *)
| AwaitSpeak.                            (* handleAssistantReply: TTS.speak *)

(** How an awaited promise settles. *)
Inductive outcome :=
| Started (l : listener)   (* Whisper.startListening resolved with a handle *)
| Stopped (text : string)  (* the handle's stop() resolved; [text] is result.text *)
| Done                     (* resolved without a value *)
| Failed.                  (* rejected *)

(** The closures handed to [setTimeout]. *)
Inductive callback :=
| Guard      (* beginListening, 10 s *)
| Silence    (* resetSilenceTimer, _silenceThresholdMs *)
| Response.  (* onSilenceDetected, 30 s *)

Record timer := mkTimer {
  tid : timer_id;
  cb : callback;
  delay : Z
}.

(** Calls that leave the module: the three handlers given to [init] and the
    collaborators. *)
Inductive effect :=
| OnPhaseChange (h : handler) (phase : ConversationPhase)
| OnTranscript (h : handler) (text : string) (isFinal : bool)
| OnNewMessage (h : handler) (message : ChatMessage)
| StartListening                      (* Whisper.startListening *)
| ListenerStop (l : listener)         (* the handle's stop() *)
| GatewaySendMessage (text : string)  (* Gateway.sendMessage *)
| Speech (c : TTS.call).

(** The module-level variables, [TTS._isSpeaking], then the environment:
    armed timers, suspended awaits, the clock read by [Date.now()] and the
    calls made so far. *)
Record state := mkState {
  _phase : ConversationPhase;
  _onPhaseChange : option handler;
  _onTranscript : option handler;
  _onNewMessage : option handler;
  _activeListener : option listener;
  _silenceTimer : option timer_id;
  _lastPartialText : string;
  _silenceThresholdMs : Z;
  _waitingForResponse : bool;
  isSpeaking : bool;
  timers : list timer;
  nextTimer : timer_id;
  awaiting : list task;
  now : Z;
  log : list effect
}.

Definition initial : state :=
  mkState idle None None None None None "" 1500 false false [] 1 [] 0 [].

Definition set_phase v s :=
  mkState v (_onPhaseChange s) (_onTranscript s) (_onNewMessage s)
    (_activeListener s) (_silenceTimer s) (_lastPartialText s)
    (_silenceThresholdMs s) (_waitingForResponse s) (isSpeaking s) (timers s)
    (nextTimer s) (awaiting s) (now s) (log s).
Definition set_onPhaseChange v s :=
  mkState (_phase s) v (_onTranscript s) (_onNewMessage s) (_activeListener s)
    (_silenceTimer s) (_lastPartialText s) (_silenceThresholdMs s)
    (_waitingForResponse s) (isSpeaking s) (timers s) (nextTimer s)
    (awaiting s) (now s) (log s).
Definition set_onTranscript v s :=
  mkState (_phase s) (_onPhaseChange s) v (_onNewMessage s)
    (_activeListener s) (_silenceTimer s) (_lastPartialText s)
    (_silenceThresholdMs s) (_waitingForResponse s) (isSpeaking s) (timers s)
    (nextTimer s) (awaiting s) (now s) (log s).
Definition set_onNewMessage v s :=
  mkState (_phase s) (_onPhaseChange s) (_onTranscript s) v
    (_activeListener s) (_silenceTimer s) (_lastPartialText s)
    (_silenceThresholdMs s) (_waitingForResponse s) (isSpeaking s) (timers s)
    (nextTimer s) (awaiting s) (now s) (log s).
Definition set_activeListener v s :=
  mkState (_phase s) (_onPhaseChange s) (_onTranscript s) (_onNewMessage s) v
    (_silenceTimer s) (_lastPartialText s) (_silenceThresholdMs s)
    (_waitingForResponse s) (isSpeaking s) (timers s) (nextTimer s)
    (awaiting s) (now s) (log s).
Definition set_silenceTimer v s :=
  mkState (_phase s) (_onPhaseChange s) (_onTranscript s) (_onNewMessage s)
    (_activeListener s) v (_lastPartialText s) (_silenceThresholdMs s)
    (_waitingForResponse s) (isSpeaking s) (timers s) (nextTimer s)
    (awaiting s) (now s) (log s).
Definition set_lastPartialText v s :=
  mkState (_phase s) (_onPhaseChange s) (_onTranscript s) (_onNewMessage s)
    (_activeListener s) (_silenceTimer s) v (_silenceThresholdMs s)
    (_waitingForResponse s) (isSpeaking s) (timers s) (nextTimer s)
    (awaiting s) (now s) (log s).
Definition set_silenceThresholdMs v s :=
  mkState (_phase s) (_onPhaseChange s) (_onTranscript s) (_onNewMessage s)
    (_activeListener s) (_silenceTimer s) (_lastPartialText s) v
    (_waitingForResponse s) (isSpeaking s) (timers s) (nextTimer s)
    (awaiting s) (now s) (log s).
Definition set_waitingForResponse v s :=
  mkState (_phase s) (_onPhaseChange s) (_onTranscript s) (_onNewMessage s)
    (_activeListener s) (_silenceTimer s) (_lastPartialText s)
    (_silenceThresholdMs s) v (isSpeaking s) (timers s) (nextTimer s)
    (awaiting s) (now s) (log s).
Definition set_isSpeaking v s :=
  mkState (_phase s) (_onPhaseChange s) (_onTranscript s) (_onNewMessage s)
    (_activeListener s) (_silenceTimer s) (_lastPartialText s)
    (_silenceThresholdMs s) (_waitingForResponse s) v (timers s) (nextTimer s)
    (awaiting s) (now s) (log s).
Definition set_timers v s :=
  mkState (_phase s) (_onPhaseChange s) (_onTranscript s) (_onNewMessage s)
    (_activeListener s) (_silenceTimer s) (_lastPartialText s)
    (_silenceThresholdMs s) (_waitingForResponse s) (isSpeaking s) v
    (nextTimer s) (awaiting s) (now s) (log s).
Definition set_nextTimer v s :=
  mkState (_phase s) (_onPhaseChange s) (_onTranscript s) (_onNewMessage s)
    (_activeListener s) (_silenceTimer s) (_lastPartialText s)
    (_silenceThresholdMs s) (_waitingForResponse s) (isSpeaking s) (timers s)
    v (awaiting s) (now s) (log s).
Definition set_awaiting v s :=
  mkState (_phase s) (_onPhaseChange s) (_onTranscript s) (_onNewMessage s)
    (_activeListener s) (_silenceTimer s) (_lastPartialText s)
    (_silenceThresholdMs s) (_waitingForResponse s) (isSpeaking s) (timers s)
    (nextTimer s) v (now s) (log s).
Definition set_now v s :=
  mkState (_phase s) (_onPhaseChange s) (_onTranscript s) (_onNewMessage s)
    (_activeListener s) (_silenceTimer s) (_lastPartialText s)
    (_silenceThresholdMs s) (_waitingForResponse s) (isSpeaking s) (timers s)
    (nextTimer s) (awaiting s) v (log s).
Definition set_log v s :=
  mkState (_phase s) (_onPhaseChange s) (_onTranscript s) (_onNewMessage s)
    (_activeListener s) (_silenceTimer s) (_lastPartialText s)
    (_silenceThresholdMs s) (_waitingForResponse s) (isSpeaking s) (timers s)
    (nextTimer s) (awaiting s) (now s) v.

Definition emit (e : effect) (s : state) : state := set_log (log s ++ [e]) s.

Definition emit_all (l : list effect) (s : state) : state := set_log (log s ++ l) s.

(** [await promise]: the rest of the function is suspended. *)
Definition await (t : task) (s : state) : state := set_awaiting (awaiting s ++ [t]) s.

Definition setTimeout (c : callback) (ms : Z) (s : state) : state :=
  set_nextTimer (S (nextTimer s))
    (set_timers (timers s ++ [mkTimer (nextTimer s) c ms]) s).

Definition clearTimeout (t : timer_id) (s : state) : state :=
  set_timers (filter (fun x => tid x ≠ t) (timers s)) s.

(** [_onPhaseChange?.(phase)], [_onTranscript?.(text, isFinal)] and
    [_onNewMessage?.(message)]. *)
Definition notifyPhase (phase : ConversationPhase) (s : state) : state :=
  match _onPhaseChange s with
  | Some h => emit (OnPhaseChange h phase) s
  | None => s
  end.

Definition notifyTranscript (text : string) (isFinal : bool) (s : state) : state :=
  match _onTranscript s with
  | Some h => emit (OnTranscript h text isFinal) s
  | None => s
  end.

Definition notifyMessage (message : ChatMessage) (s : state) : state :=
  match _onNewMessage s with
  | Some h => emit (OnNewMessage h message) s
  | None => s
  end.

(** [TTS.stopSpeaking()] and [TTS.speak(text)] on the shared flag. *)
Definition stopSpeaking (s : state) : state :=
  let '(b, calls) := TTS.stopSpeaking (isSpeaking s) in
  set_isSpeaking b (emit_all (map Speech calls) s).

Definition speak (text : string) (s : state) : state :=
  let '(b, calls) := TTS.speak text (isSpeaking s) in
  set_isSpeaking b (emit_all (map Speech calls) s).

(** *** The functions of the module *)

(** [setPhase(phase)]. *)
Definition setPhase (phase : ConversationPhase) (s : state) : state :=
  if decide (_phase s = phase) then s
  else notifyPhase phase (set_phase phase s).

(** [init(handlers)].  The closure it registers with [Gateway.onMessage] is
    [onGatewayMessage] below. *)
Definition init (onPhaseChange onTranscript onNewMessage : handler) (s : state) : state :=
  set_onNewMessage (Some onNewMessage)
    (set_onTranscript (Some onTranscript)
       (set_onPhaseChange (Some onPhaseChange) s)).

(** [clearSilenceTimer]. *)
Definition clearSilenceTimer (s : state) : state :=
  match _silenceTimer s with
  | Some t => set_silenceTimer None (clearTimeout t s)
  | None => s
  end.

(** [resetSilenceTimer]. *)
Definition resetSilenceTimer (s : state) : state :=
  let s := clearSilenceTimer s in
  if JsString.truthy (JsString.trim (_lastPartialText s)) then
    let t := nextTimer s in
    set_silenceTimer (Some t) (setTimeout Silence (_silenceThresholdMs s) s)
  else s.

(** The [onPartialResult] callback given to [Whisper.startListening]. *)
Definition onPartialResult (text : string) (s : state) : state :=
  let s := set_lastPartialText text s in
  let s := notifyTranscript text false s in
  resetSilenceTimer s.

(** [beginListening], up to its [await]. *)
Definition beginListening (k : after_begin) (s : state) : state :=
  let s := setPhase listening s in
  let s := set_lastPartialText "" s in
  await (AwaitStartListening k) (emit StartListening s).

(** What follows a finished [await beginListening()] in the caller. *)
Definition after_beginListening (k : after_begin) (s : state) : state :=
  match k with
  | Then_return => s
  | Then_armResponseTimer => setTimeout Response 30000 s
  end.

(** [beginListening] once the capture session has started: the rest of the
    [try] block. *)
Definition beginListening_started (k : after_begin) (l : listener) (s : state) : state :=
  let s := set_activeListener (Some l) s in
  let t := nextTimer s in
  let s := set_silenceTimer (Some t) (setTimeout Guard 10000 s) in
  after_beginListening k s.

(** [beginListening] when the capture session failed to start: the [catch]
    block. *)
Definition beginListening_failed (k : after_begin) (s : state) : state :=
  after_beginListening k (setPhase idle s).

(** The closure [beginListening] hands to [setTimeout]. *)
Definition guardTimeout (s : state) : state :=
  if bool_decide (_phase s = listening)
     && negb (JsString.truthy (JsString.trim (_lastPartialText s)))
  then resetSilenceTimer s
  else s.

(** [start]. *)
Definition start (s : state) : state :=
  if bool_decide (_phase s ≠ idle) then s else beginListening Then_return s.

(** [stop], up to its [await]. *)
Definition stop (s : state) : state :=
  let s := clearSilenceTimer s in
  let s := stopSpeaking s in
  let s := set_waitingForResponse false s in
  match _activeListener s with
  | Some l => await AwaitStop_stop (emit (ListenerStop l) s)
  | None => setPhase idle s
  end.

(** [stop] once the capture session has stopped. *)
Definition stop_stopped (s : state) : state :=
  setPhase idle (set_activeListener None s).

(** [setSilenceThreshold(ms)]. *)
Definition setSilenceThreshold (ms : Z) (s : state) : state :=
  set_silenceThresholdMs (Z.max 500 (Z.min 5000 ms)) s.

Definition getPhase (s : state) : ConversationPhase := _phase s.

(** [onSilenceDetected], up to its first [await]. *)
Definition onSilenceDetected (s : state) : state :=
  if bool_decide (_phase s ≠ listening) then s
  else match _activeListener s with
       | None => s
       | Some l => await AwaitStop_onSilenceDetected (emit (ListenerStop l) s)
       end.

(** [onSilenceDetected] once the capture session has stopped with the final
    transcript [result_text], up to the next [await]. *)
Definition onSilenceDetected_stopped (result_text : string) (s : state) : state :=
  let s := set_activeListener None s in
  let text := JsString.trim result_text in
  if negb (JsString.truthy text) then beginListening Then_return s
  else
    let s := notifyTranscript text true s in
    let s := notifyMessage (mkChatMessage user text (now s)) s in
    let s := setPhase processing s in
    let s := set_waitingForResponse true s in
    await AwaitSendMessage (emit (GatewaySendMessage text) s).

(** [onSilenceDetected] once [Gateway.sendMessage] resolved: the response
    timer is armed; its id is kept nowhere. *)
Definition onSilenceDetected_sent (s : state) : state :=
  setTimeout Response 30000 s.

(** [onSilenceDetected] when [Gateway.sendMessage] rejected: the [catch]
    block, up to its [await]. *)
Definition onSilenceDetected_sendFailed (s : state) : state :=
  let s := set_waitingForResponse false s in
  beginListening Then_armResponseTimer s.

(** The closure [onSilenceDetected] hands to [setTimeout]. *)
Definition responseTimeout (s : state) : state :=
  if _waitingForResponse s && bool_decide (_phase s = processing) then
    let s := set_waitingForResponse false s in
    beginListening Then_return s
  else s.

(** [handleAssistantReply(text)], up to its [await]. *)
Definition handleAssistantReply (text : string) (s : state) : state :=
  let s := notifyMessage (mkChatMessage assistant text (now s)) s in
  let s := setPhase speaking s in
  await AwaitSpeak (speak text s).

(** [handleAssistantReply] once [TTS.speak] settled, either way. *)
Definition handleAssistantReply_spoken (s : state) : state :=
  if bool_decide (_phase s = speaking) then beginListening Then_return s else s.

(** The closure [init] registers with [Gateway.onMessage]. *)
Definition onGatewayMessage (text : string) (s : state) : state :=
  if _waitingForResponse s then
    let s := set_waitingForResponse false s in
    handleAssistantReply text s
  else s.

(** [interrupt], up to its [await]. *)
Definition interrupt (s : state) : state :=
  if bool_decide (_phase s = speaking) then
    let s := stopSpeaking s in
    beginListening Then_return s
  else s.

(** *** Events *)

(** The suspended function [t] resumes with [o]; [None] when a promise of
    that kind cannot settle that way. *)
Definition resume (t : task) (o : outcome) (s : state) : option state :=
  match t, o with
  | AwaitStartListening k, Started l => Some (beginListening_started k l s)
  | AwaitStartListening k, Failed => Some (beginListening_failed k s)
  | AwaitStop_stop, Stopped _ => Some (stop_stopped s)
  | AwaitStop_stop, Failed => Some s
  | AwaitStop_onSilenceDetected, Stopped text => Some (onSilenceDetected_stopped text s)
  | AwaitStop_onSilenceDetected, Failed => Some s
  | AwaitSendMessage, Done => Some (onSilenceDetected_sent s)
  | AwaitSendMessage, Failed => Some (onSilenceDetected_sendFailed s)
  | AwaitSpeak, Done => Some (handleAssistantReply_spoken (set_isSpeaking (TTS.onFinished (isSpeaking s)) s))
  | AwaitSpeak, Failed => Some (handleAssistantReply_spoken (set_isSpeaking (TTS.onFinished (isSpeaking s)) s))
  | _, _ => None
  end.

Definition settle (i : nat) (o : outcome) (s : state) : state :=
  match awaiting s !! i with
  | Some t =>
      match resume t o (set_awaiting (delete i (awaiting s)) s) with
      | Some s' => s'
      | None => s
      end
  | None => s
  end.

Definition run_callback (c : callback) (s : state) : state :=
  match c with
  | Guard => guardTimeout s
  | Silence => onSilenceDetected s
  | Response => responseTimeout s
  end.

(** An armed timer fires: it is disarmed, then its closure runs. *)
Definition fire (t : timer_id) (s : state) : state :=
  match List.find (fun x => Nat.eqb (tid x) t) (timers s) with
  | Some x => run_callback (cb x) (clearTimeout t s)
  | None => s
  end.

(** What can happen to the orchestrator: calls of its public functions, a
    reply surfaced by the gateway, a partial transcript, a timer firing, an
    awaited promise settling (the [i]-th suspended await), the clock. *)
Inductive input :=
| CallInit (onPhaseChange onTranscript onNewMessage : handler)
| CallStart
| CallStop
| CallInterrupt
| CallSetSilenceThreshold (ms : Z)
| GatewayMessage (text : string)
| PartialResult (text : string)
| SpeechStarted
| TimerFires (t : timer_id)
| Settled (i : nat) (o : outcome)
| ClockAdvances (ms : Z).

Definition step (i : input) (s : state) : state :=
  match i with
  | CallInit hp ht hm => init hp ht hm s
  | CallStart => start s
  | CallStop => stop s
  | CallInterrupt => interrupt s
  | CallSetSilenceThreshold ms => setSilenceThreshold ms s
  | GatewayMessage text => onGatewayMessage text s
  | PartialResult text => onPartialResult text s
  | SpeechStarted => set_isSpeaking (TTS.onStart (isSpeaking s)) s
  | TimerFires t => fire t s
  | Settled i o => settle i o s
  | ClockAdvances ms => set_now (now s + ms)%Z s
  end.

Definition run (l : list input) (s : state) : state :=
  fold_left (fun acc i => step i acc) l s.

(** The chat messages handed to the [onNewMessage] handler. *)
Definition messages (l : list effect) : list ChatMessage :=
  omap (fun e => match e with
                 | OnNewMessage _ m => Some m
                 | _ => None
                 end) l.

(** The phases handed to the [onPhaseChange] handler. *)
Definition phases (l : list effect) : list ConversationPhase :=
  omap (fun e => match e with
                 | OnPhaseChange _ p => Some p
                 | _ => None
                 end) l.

(** The number of capture sessions requested from the transcription
    adapter. *)
Definition capture_starts (l : list effect) : nat :=
  length (List.filter (fun e => match e with
                                | StartListening => true
                                | _ => false
                                end) l).

(** [stop()] carried through on one schedule: when a capture session is
    active, [stop] suspends on the session's [stop()], which resolves with
    the final transcript [text] before anything else runs (no partial
    transcript, timer or other resumed await in between).  Other schedules
    are runs of [step] with the call and the settling apart. *)
Definition stop_completed (text : string) (s : state) : state :=
  match _activeListener s with
  | Some _ => settle (length (awaiting s)) (Stopped text) (stop s)
  | None => stop s
  end.

(** *** Scenarios *)

(** Handlers registered, [start()] called, the capture session 1 started:
    Listening, the 10 s guard (timer 1) armed, no partial transcript yet. *)
Definition listening_begun : state :=
  run [CallInit 1 2 3; CallStart; Settled 0 (Started 1)] initial.

(** The partial transcript "hello" arrived, the silence timer (timer 2)
    fired, the session stopped with "hello" and the gateway accepted the
    message: Processing, waiting for the reply, the response timer (timer 3)
    armed. *)
Definition processing_turn : state :=
  run [PartialResult "hello"; TimerFires 2; Settled 0 (Stopped "hello");
       Settled 0 Done] listening_begun.

(** The reply "hi there" arrived: Speaking. *)
Definition speaking_reply : state :=
  run [GatewayMessage "hi there"] processing_turn.

(** From [processing_turn]: [stop()], [start()] again, the capture session 2
    started, the partial transcript "again" arrived, the silence timer
    (timer 5) fired, the session stopped with "again" and the gateway
    accepted the message: Processing for the second turn, while the response
    timer of the first turn (timer 3) is still armed. *)
Definition second_turn : state :=
  run [CallStop; CallStart; Settled 0 (Started 2); PartialResult "again";
       TimerFires 5; Settled 0 (Stopped "again"); Settled 0 Done]
    processing_turn.

End Conversation.

(** ** Speech recognition ([src/services/whisper.ts]) *)

Module Whisper.

Definition context := nat.
Definition session := nat.

(** The errors [startListening] throws. *)
Inductive error :=
| NotInitialized     (* 'Whisper not initialized' *)
| AlreadyRecording.  (* 'Already recording' *)

(** What [forceStop] returns to. *)
Inductive after_forceStop :=
| Then_return    (* a caller outside the module *)
| Then_release.  (* releaseWhisper *)

(** A suspended [await]. *)
Inductive task :=
| AwaitInit                               (* initWhisper: permission, model, engine *)
| AwaitTranscribeRealtime                 (* startListening: _ctx.transcribeRealtime *)
| AwaitForceStop (k : after_forceStop)    (* forceStop: _currentTranscribe.stop() *)
| AwaitRelease.                           (* releaseWhisper: _ctx.release() *)

(** Calls that leave the module. *)
Inductive effect :=
| TranscribeRealtime (c : context)               (* _ctx.transcribeRealtime(...) *)
| OnPartialResult (k : session) (text : string)  (* options.onPartialResult(fullText) *)
| EngineStop (k : session)                       (* the session's stop() *)
| Release (c : context).                         (* _ctx.release() *)

(** The module-level variables; the local variable [fullText] of every call
    of [startListening] that got its session; then the environment:
    suspended awaits, the counters the engine numbers contexts and sessions
    with, and the calls made so far. *)
Record state := mkState {
  _ctx : option context;
  _isRecording : bool;
  _currentTranscribe : option session;
  fullText : gmap session string;
  awaiting : list task;
  nextContext : context;
  nextSession : session;
  log : list effect
}.

Definition initial : state := mkState None false None ∅ [] 1 1 [].

Definition set_ctx v s :=
  mkState v (_isRecording s) (_currentTranscribe s) (fullText s) (awaiting s)
    (nextContext s) (nextSession s) (log s).
Definition set_isRecording v s :=
  mkState (_ctx s) v (_currentTranscribe s) (fullText s) (awaiting s)
    (nextContext s) (nextSession s) (log s).
Definition set_currentTranscribe v s :=
  mkState (_ctx s) (_isRecording s) v (fullText s) (awaiting s)
    (nextContext s) (nextSession s) (log s).
Definition set_fullText v s :=
  mkState (_ctx s) (_isRecording s) (_currentTranscribe s) v (awaiting s)
    (nextContext s) (nextSession s) (log s).
Definition set_awaiting v s :=
  mkState (_ctx s) (_isRecording s) (_currentTranscribe s) (fullText s) v
    (nextContext s) (nextSession s) (log s).
Definition set_nextContext v s :=
  mkState (_ctx s) (_isRecording s) (_currentTranscribe s) (fullText s)
    (awaiting s) v (nextSession s) (log s).
Definition set_nextSession v s :=
  mkState (_ctx s) (_isRecording s) (_currentTranscribe s) (fullText s)
    (awaiting s) (nextContext s) v (log s).
Definition set_log v s :=
  mkState (_ctx s) (_isRecording s) (_currentTranscribe s) (fullText s)
    (awaiting s) (nextContext s) (nextSession s) v.

Definition emit (e : effect) (s : state) : state := set_log (log s ++ [e]) s.

Definition await (t : task) (s : state) : state := set_awaiting (awaiting s ++ [t]) s.

(** [initWhisper], up to its first [await]. *)
Definition initWhisper (s : state) : state :=
  match _ctx s with
  | Some _ => s
  | None => await AwaitInit s
  end.

(** [initWhisper] once permission is granted, the audio mode is set, the
    model is there and the engine has built a context. *)
Definition initWhisper_loaded (s : state) : state :=
  set_nextContext (S (nextContext s)) (set_ctx (Some (nextContext s)) s).

(** [startListening], up to its [await]: the error thrown, or the state in
    which [transcribeRealtime] is awaited. *)
Definition startListening (s : state) : error + state :=
  match _ctx s with
  | None => inl NotInitialized
  | Some c =>
      if _isRecording s then inl AlreadyRecording
      else inr (await AwaitTranscribeRealtime
                  (emit (TranscribeRealtime c) (set_isRecording true s)))
  end.

(** [startListening] once [transcribeRealtime] resolved: the session is
    [nextSession] of the state before, its [fullText] is empty, and the
    handle returned to the caller is the session's. *)
Definition startListening_started (s : state) : state :=
  let k := nextSession s in
  let s := set_nextSession (S k) s in
  let s := set_fullText (<[k := ""]> (fullText s)) s in
  set_currentTranscribe (Some k) s.

(** The callback given to [subscribe] by the call that got the session [k];
    [isCapturing] and [result] are [evt.isCapturing] and
    [evt.data?.result].  The caller's [onPartialResult] is taken to be
    there. *)
Definition onEvent (k : session) (isCapturing : bool) (result : option string)
    (s : state) : state :=
  if isCapturing then
    match result with
    | Some r =>
        if JsString.truthy r then
          emit (OnPartialResult k r) (set_fullText (<[k := r]> (fullText s)) s)
        else s
    | None => s
    end
  else s.

(** The [stop] of the handle of the session [k], up to its [await]. *)
Definition handle_stop (k : session) (s : state) : state :=
  emit (EngineStop k) (set_currentTranscribe None (set_isRecording false s)).

(** [fullText || result?.data?.result || '']. *)
Definition final_text (full : string) (result : option string) : string :=
  if JsString.truthy full then full
  else match result with
       | Some r => if JsString.truthy r then r else ""
       | None => ""
       end.

(** The [text] the handle's [stop] resolves with, once the session's
    [stop()] has resolved with [result] as its [data?.result]. *)
Definition handle_stopped (k : session) (result : option string) (s : state) : string :=
  final_text (default "" (fullText s !! k)) result.

Definition isListening (s : state) : bool := _isRecording s.

(** What follows a finished [forceStop] in its caller: [releaseWhisper]
    goes on to release the context. *)
Definition after_forceStopped (k : after_forceStop) (s : state) : state :=
  match k with
  | Then_return => s
  | Then_release =>
      match _ctx s with
      | Some c => await AwaitRelease (emit (Release c) s)
      | None => s
      end
  end.

(** [forceStop], up to its [await], and after it. *)
Definition forceStop (k : after_forceStop) (s : state) : state :=
  match _currentTranscribe s with
  | Some t => await (AwaitForceStop k) (emit (EngineStop t) (set_isRecording false s))
  | None => after_forceStopped k s
  end.

Definition forceStop_stopped (k : after_forceStop) (s : state) : state :=
  after_forceStopped k (set_currentTranscribe None s).

(** [releaseWhisper], and its end once [release()] resolved. *)
Definition releaseWhisper (s : state) : state := forceStop Then_release s.

Definition releaseWhisper_released (s : state) : state := set_ctx None s.

(** The suspended function [t] resumes, the promise it awaited resolved
    ([ok]) or rejected: a rejection ends the function with the module as
    it is. *)
Definition resume (t : task) (ok : bool) (s : state) : state :=
  if ok then
    match t with
    | AwaitInit => initWhisper_loaded s
    | AwaitTranscribeRealtime => startListening_started s
    | AwaitForceStop k => forceStop_stopped k s
    | AwaitRelease => releaseWhisper_released s
    end
  else s.

Definition settle (i : nat) (ok : bool) (s : state) : state :=
  match awaiting s !! i with
  | Some t => resume t ok (set_awaiting (delete i (awaiting s)) s)
  | None => s
  end.

(** What can happen to the module: calls of its functions, of the handle of
    a session that was started, an event of such a session, an awaited
    promise settling (the [i]-th suspended await). *)
Inductive input :=
| CallInitWhisper
| CallStartListening
| CallStop (k : session)
| CallForceStop
| CallReleaseWhisper
| EngineEvent (k : session) (isCapturing : bool) (result : option string)
| Settled (i : nat) (ok : bool).

Definition step (i : input) (s : state) : state :=
  match i with
  | CallInitWhisper => initWhisper s
  | CallStartListening =>
      match startListening s with
      | inl _ => s
      | inr s' => s'
      end
  | CallStop k =>
      match fullText s !! k with
      | Some _ => handle_stop k s
      | None => s
      end
  | CallForceStop => forceStop Then_return s
  | CallReleaseWhisper => releaseWhisper s
  | EngineEvent k isCapturing result =>
      match fullText s !! k with
      | Some _ => onEvent k isCapturing result s
      | None => s
      end
  | Settled i ok => settle i ok s
  end.

Definition run (l : list input) (s : state) : state :=
  fold_left (fun acc i => step i acc) l s.

(** The partial transcripts handed out for the session [k], oldest first. *)
Definition partials (k : session) (l : list effect) : list string :=
  omap (fun e => match e with
                 | OnPartialResult k' text => if Nat.eqb k k' then Some text else None
                 | _ => None
                 end) l.

(** The module initialised, nothing recording. *)
Definition ready : state := run [CallInitWhisper; Settled 0 true] initial.

End Whisper.

(** ** The application ([src/App.tsx], [src/screens/ChatScreen.tsx]) *)

Module App.

(** The store of [useAppStore], on the fields written by the handlers the
    application registers; the settings and the model-loading fields are
    written by other parts of the application. *)
Record store := mkStore {
  connectionState : ConnectionState;
  phase : ConversationPhase;
  messages : list ChatMessage;
  partialTranscript : string
}.

(** The store as [create] builds it. *)
Definition initial : store := mkStore disconnected idle [] "".

Definition setConnectionState (v : ConnectionState) (st : store) : store :=
  mkStore v (phase st) (messages st) (partialTranscript st).

Definition setPhase (v : ConversationPhase) (st : store) : store :=
  mkStore (connectionState st) v (messages st) (partialTranscript st).

Definition addMessage (message : ChatMessage) (st : store) : store :=
  mkStore (connectionState st) (phase st)
    (AppStore.addMessage message (messages st)) (partialTranscript st).

Definition clearMessages (st : store) : store :=
  mkStore (connectionState st) (phase st)
    (AppStore.clearMessages (messages st)) (partialTranscript st).

Definition setPartialTranscript (v : string) (st : store) : store :=
  mkStore (connectionState st) (phase st) (messages st) v.

(** The handlers that [bootstrap] and [handleSettingsSaved] give to
    [Conversation.init], the same three closures in both. *)
Definition onPhaseChange (p : ConversationPhase) (st : store) : store :=
  setPhase p st.

Definition onTranscript (text : string) (isFinal : bool) (st : store) : store :=
  if negb isFinal then setPartialTranscript text st
  else setPartialTranscript "" st.

Definition onNewMessage (msg : ChatMessage) (st : store) : store :=
  addMessage msg st.

(** The handler given to [Gateway.onStateChange]. *)
Definition onStateChange (state : ConnectionState) (st : store) : store :=
  setConnectionState state st.

(** A call made by the orchestrator reaches the store when it is a call of
    one of the three handlers. *)
Definition deliver (e : Conversation.effect) (st : store) : store :=
  match e with
  | Conversation.OnPhaseChange _ p => onPhaseChange p st
  | Conversation.OnTranscript _ text isFinal => onTranscript text isFinal st
  | Conversation.OnNewMessage _ m => onNewMessage m st
  | _ => st
  end.

Definition deliver_all (l : list Conversation.effect) (st : store) : store :=
  fold_left (fun acc e => deliver e acc) l st.

(** [handleMainButton] of the chat screen, up to the [await] of the call it
    makes: the phase it tests is the store's. *)
Definition handleMainButton (st : store) (s : Conversation.state)
  : Conversation.state :=
  match phase st with
  | idle => Conversation.start s
  | speaking => Conversation.interrupt s
  | listening | processing => Conversation.stop s
  end.

End App.

(** * Properties *)

(** ** [trim] and white space *)

Module JsStringFacts.
Import JsString.

Lemma trimEnd_empty_iff s : trimEnd s = EmptyString <-> whitespace_only s = true.
Proof.
  induction s as [|a s IH]; simpl; [tauto|].
  destruct (trimEnd s) eqn:E.
  - destruct (is_whitespace a); simpl.
    + split; intros _; [apply IH|]; reflexivity.
    + split; discriminate.
  - split; [discriminate|].
    intros H. apply andb_prop in H as [_ H].
    apply IH in H. discriminate.
Qed.

Lemma trimStart_whitespace_only s :
  whitespace_only (trimStart s) = whitespace_only s.
Proof.
  induction s as [|a s IH]; simpl; [reflexivity|].
  destruct (is_whitespace a) eqn:E; simpl; [exact IH | now rewrite E].
Qed.

(** [trim] returns the empty string exactly on the strings that are empty or
    white space only. *)
Lemma trim_empty_iff s : trim s = EmptyString <-> whitespace_only s = true.
Proof.
  unfold trim. rewrite trimEnd_empty_iff, trimStart_whitespace_only. tauto.
Qed.

Lemma truthy_trim s : truthy (trim s) = negb (whitespace_only s).
Proof.
  destruct (whitespace_only s) eqn:E.
  - apply trim_empty_iff in E. now rewrite E.
  - destruct (trim s) eqn:T; [|reflexivity].
    apply trim_empty_iff in T. congruence.
Qed.

End JsStringFacts.

(** ** The message store *)

Module AppStoreFacts.
Import AppStore.

Lemma slice_last_length {A} (n : nat) (l : list A) :
  length (slice_last n l) = Nat.min (length l) n.
Proof. unfold slice_last. rewrite length_drop. lia. Qed.

Lemma addMessage_length m messages :
  length (addMessage m messages) = S (Nat.min (length messages) 50).
Proof.
  unfold addMessage. rewrite length_app, slice_last_length. simpl. lia.
Qed.

Lemma slice_last_short {A} (n : nat) (l : list A) :
  (length l <= n)%nat -> slice_last n l = l.
Proof.
  intros H. unfold slice_last.
  replace (length l - n)%nat with 0%nat by lia. reflexivity.
Qed.

(** While the history holds at most 50 messages nothing is evicted. *)
Lemma addMessage_no_eviction m messages :
  (length messages <= 50)%nat -> addMessage m messages = messages ++ [m].
Proof. intros H. unfold addMessage. now rewrite slice_last_short. Qed.

(** The history never holds more than 51 messages after an append. *)
Lemma addMessage_length_le m messages :
  (length (addMessage m messages) <= 51)%nat.
Proof. rewrite addMessage_length. lia. Qed.

(** C5.  The history is meant to keep the 50 most recent messages, [addMessage]
    says "Keep last 50"; but it cuts the old history to 50 before it appends,
    so 51 consecutive appends to an empty history leave all 51 messages in
    it, the oldest included. *)
Theorem addMessage_retains_51 :
  addMessages (map msg (seq 0 51)) [] = map msg (seq 0 51) /\
  length (addMessages (map msg (seq 0 51)) []) = 51%nat.
Proof. split; vm_compute; reflexivity. Qed.

(** From 50 messages on, every append leaves exactly 51. *)
Lemma addMessage_full m messages :
  (50 <= length messages)%nat -> length (addMessage m messages) = 51%nat.
Proof. intros H. rewrite addMessage_length. lia. Qed.

End AppStoreFacts.

(** ** The conversation orchestrator *)

Module ConversationFacts.
Import Conversation.

(** Compute the projections of updated states. *)
Ltac state_simpl :=
  cbn [emit emit_all await setTimeout clearTimeout
       set_phase set_onPhaseChange set_onTranscript set_onNewMessage
       set_activeListener set_silenceTimer set_lastPartialText
       set_silenceThresholdMs set_waitingForResponse set_isSpeaking
       set_timers set_nextTimer set_awaiting set_now set_log
       _phase _onPhaseChange _onTranscript _onNewMessage _activeListener
       _silenceTimer _lastPartialText _silenceThresholdMs _waitingForResponse
       isSpeaking timers nextTimer awaiting now log] in *.

Lemma clearTimeout_twice t s : clearTimeout t (clearTimeout t s) = clearTimeout t s.
Proof.
  destruct s. unfold clearTimeout, set_timers. cbn. f_equal.
  apply list_filter_filter_l. auto.
Qed.

Lemma setPhase_phase p s : _phase (setPhase p s) = p.
Proof.
  unfold setPhase, notifyPhase. destruct (decide (_phase s = p)) as [H|H]; [exact H|].
  cbn. destruct (_onPhaseChange s); reflexivity.
Qed.

Lemma setPhase_same s : setPhase (_phase s) s = s.
Proof. unfold setPhase. destruct (decide (_phase s = _phase s)); [reflexivity|contradiction]. Qed.

Lemma setPhase_waiting p s : _waitingForResponse (setPhase p s) = _waitingForResponse s.
Proof.
  unfold setPhase, notifyPhase. destruct (decide (_phase s = p)); [reflexivity|].
  cbn. destruct (_onPhaseChange s); reflexivity.
Qed.

Lemma setPhase_messages p s : messages (log (setPhase p s)) = messages (log s).
Proof.
  unfold setPhase, notifyPhase. destruct (decide (_phase s = p)); [reflexivity|].
  cbn. destruct (_onPhaseChange s); cbn; [|reflexivity].
  unfold messages. rewrite omap_app. cbn. apply app_nil_r.
Qed.

Lemma beginListening_phase k s : _phase (beginListening k s) = listening.
Proof. unfold beginListening, await, emit. cbn. apply setPhase_phase. Qed.

Lemma beginListening_waiting k s :
  _waitingForResponse (beginListening k s) = _waitingForResponse s.
Proof. unfold beginListening, await, emit. cbn. apply setPhase_waiting. Qed.

Lemma beginListening_messages k s :
  messages (log (beginListening k s)) = messages (log s).
Proof.
  unfold beginListening, await, emit. cbn.
  unfold messages. rewrite omap_app. cbn. rewrite app_nil_r.
  apply setPhase_messages.
Qed.

(** A reply that arrives while no reply is awaited changes nothing. *)
Lemma onGatewayMessage_not_waiting text s :
  _waitingForResponse s = false -> onGatewayMessage text s = s.
Proof. intros H. unfold onGatewayMessage. now rewrite H. Qed.

(** The response timer does nothing while no reply is awaited. *)
Lemma responseTimeout_not_waiting s :
  _waitingForResponse s = false -> responseTimeout s = s.
Proof. intros H. unfold responseTimeout. now rewrite H. Qed.

(** A reply always leaves the waiting flag cleared. *)
Lemma onGatewayMessage_clears_waiting text s :
  _waitingForResponse (onGatewayMessage text s) = false.
Proof.
  unfold onGatewayMessage. destruct (_waitingForResponse s) eqn:H; [|exact H].
  unfold handleAssistantReply, await, speak. cbn.
  rewrite setPhase_waiting. unfold notifyMessage. cbn.
  destruct (_onNewMessage s); reflexivity.
Qed.

(** C3.  When the response timer fires in Processing while a reply is still
    awaited, the waiting flag is cleared and the phase becomes Listening,
    without any chat message.  Whoever cleared the flag, the timer or a
    reply: in a state [s'] with the flag cleared a reply changes nothing (so
    no second assistant message is emitted) and the timer changes nothing. *)
Theorem response_timeout_and_late_reply (s s' : state) (text : string) :
  (_waitingForResponse s = true -> _phase s = processing ->
     _waitingForResponse (responseTimeout s) = false /\
     _phase (responseTimeout s) = listening /\
     messages (log (responseTimeout s)) = messages (log s)) /\
  _waitingForResponse (onGatewayMessage text s) = false /\
  (_waitingForResponse s' = false ->
     onGatewayMessage text s' = s' /\ responseTimeout s' = s').
Proof.
  split; [|split].
  - intros Hw Hp. unfold responseTimeout.
    rewrite Hw, bool_decide_eq_true_2 by exact Hp. cbn [andb].
    rewrite beginListening_waiting, beginListening_phase, beginListening_messages.
    auto.
  - apply onGatewayMessage_clears_waiting.
  - intros Hw. split.
    + now apply onGatewayMessage_not_waiting.
    + now apply responseTimeout_not_waiting.
Qed.

Lemma response_timeout_and_late_reply_witness :
  (_waitingForResponse (responseTimeout processing_turn) = false /\
   _phase (responseTimeout processing_turn) = listening /\
   messages (log (responseTimeout processing_turn)) = messages (log processing_turn)) /\
  (onGatewayMessage "hi there" (responseTimeout processing_turn)
     = responseTimeout processing_turn /\
   responseTimeout (responseTimeout processing_turn) = responseTimeout processing_turn).
Proof.
  pose proof (response_timeout_and_late_reply processing_turn
                (responseTimeout processing_turn) "hi there") as [H1 [_ H3]].
  split; [apply H1; reflexivity | apply H3; reflexivity].
Defined.

(** *** The no-speech guard *)

(** C1 as the specification states it: when the guard timer [t] fires, no
    chat message is emitted, the phase stays Listening and a new capture
    session is requested. *)
Definition guard_restarts_capture (s : state) (t : timer_id) : Prop :=
  messages (log (fire t s)) = messages (log s) /\
  _phase (fire t s) = listening /\
  capture_starts (log (fire t s)) = S (capture_starts (log s)).

(** In [listening_begun] the guard is timer 1.  When it fires the capture
    session 1 stays the active one and no other is requested. *)
Lemma guard_restarts_capture_fails : ~ guard_restarts_capture listening_begun 1.
Proof. intros (_ & _ & H). vm_compute in H. discriminate. Qed.

Lemma resetSilenceTimer_whitespace s :
  JsString.whitespace_only (_lastPartialText s) = true ->
  resetSilenceTimer s = clearSilenceTimer s.
Proof.
  intros H. unfold resetSilenceTimer.
  replace (_lastPartialText (clearSilenceTimer s)) with (_lastPartialText s).
  - now rewrite JsStringFacts.truthy_trim, H.
  - unfold clearSilenceTimer. destruct (_silenceTimer s); reflexivity.
Qed.

Lemma resetSilenceTimer_text s :
  JsString.whitespace_only (_lastPartialText s) = false ->
  resetSilenceTimer s =
    set_silenceTimer (Some (nextTimer s))
      (setTimeout Silence (_silenceThresholdMs s) (clearSilenceTimer s)).
Proof.
  intros H. unfold resetSilenceTimer.
  assert (E : _lastPartialText (clearSilenceTimer s) = _lastPartialText s)
    by (unfold clearSilenceTimer; destruct (_silenceTimer s); reflexivity).
  rewrite E, JsStringFacts.truthy_trim, H. cbn [negb].
  unfold clearSilenceTimer. destruct (_silenceTimer s); reflexivity.
Qed.

(** The capture session has started: [beginListening] records its handle and
    arms the 10 s guard, which it keeps in [_silenceTimer]. *)
Lemma beginListening_started_guard l s :
  _activeListener (beginListening_started Then_return l s) = Some l /\
  _silenceTimer (beginListening_started Then_return l s) = Some (nextTimer s) /\
  timers (beginListening_started Then_return l s)
    = timers s ++ [mkTimer (nextTimer s) Guard 10000].
Proof. repeat split. Qed.

(** C1, amended.  In Listening with no speech recorded, when the guard timer
    held in [_silenceTimer] fires, the only change is that the timer slot is
    emptied: the phase stays Listening, no handler is called and no
    collaborator either (so no chat message, no stop and no start of a
    capture session), the active capture session stays the same one, and no
    timer is armed in place of the guard. *)
Theorem guard_timeout_only_disarms (s : state) (t : timer_id) (x : timer) :
  _phase s = listening ->
  JsString.whitespace_only (_lastPartialText s) = true ->
  _silenceTimer s = Some t ->
  List.find (fun x => Nat.eqb (tid x) t) (timers s) = Some x ->
  cb x = Guard ->
  fire t s = set_silenceTimer None (clearTimeout t s) /\
  _phase (fire t s) = listening /\
  _activeListener (fire t s) = _activeListener s /\
  awaiting (fire t s) = awaiting s /\
  log (fire t s) = log s /\
  _silenceTimer (fire t s) = None /\
  timers (fire t s) = filter (fun y => tid y ≠ t) (timers s).
Proof.
  intros Hp Hw Ht Hf Hc.
  assert (E : fire t s = set_silenceTimer None (clearTimeout t s)).
  { unfold fire. rewrite Hf. unfold run_callback. rewrite Hc.
    unfold guardTimeout.
    change (_phase (clearTimeout t s)) with (_phase s).
    change (_lastPartialText (clearTimeout t s)) with (_lastPartialText s).
    rewrite bool_decide_eq_true_2 by exact Hp.
    rewrite JsStringFacts.truthy_trim, Hw. cbn [andb negb].
    rewrite resetSilenceTimer_whitespace by exact Hw.
    unfold clearSilenceTimer.
    change (_silenceTimer (clearTimeout t s)) with (_silenceTimer s).
    rewrite Ht. now rewrite clearTimeout_twice. }
  rewrite E. repeat split; try reflexivity. exact Hp.
Qed.

Lemma guard_timeout_only_disarms_witness :
  fire 1 listening_begun = set_silenceTimer None (clearTimeout 1 listening_begun) /\
  _phase (fire 1 listening_begun) = listening /\
  _activeListener (fire 1 listening_begun) = _activeListener listening_begun /\
  awaiting (fire 1 listening_begun) = awaiting listening_begun /\
  log (fire 1 listening_begun) = log listening_begun /\
  _silenceTimer (fire 1 listening_begun) = None /\
  timers (fire 1 listening_begun)
    = filter (fun y => tid y ≠ 1%nat) (timers listening_begun).
Proof.
  apply (guard_timeout_only_disarms listening_begun 1 (mkTimer 1 Guard 10000));
    reflexivity.
Defined.

(** *** stop *)



(** The first three statements of [stop]. *)
Definition teardown (s : state) : state :=
  set_waitingForResponse false (stopSpeaking (clearSilenceTimer s)).

Lemma teardown_fields s :
  _phase (teardown s) = _phase s /\
  _silenceTimer (teardown s) = None /\
  timers (teardown s) = match _silenceTimer s with
                        | Some t => filter (fun x => tid x ≠ t) (timers s)
                        | None => timers s
                        end /\
  _activeListener (teardown s) = _activeListener s /\
  isSpeaking (teardown s) = false /\
  _waitingForResponse (teardown s) = false /\
  awaiting (teardown s) = awaiting s.
Proof.
  unfold teardown, stopSpeaking, TTS.stopSpeaking, clearSilenceTimer.
  destruct (_silenceTimer s) eqn:E; cbn;
    destruct (isSpeaking s) eqn:E'; cbn; auto 10.
Qed.

Lemma stop_stopped_fields s :
  _phase (stop_stopped s) = idle /\
  _silenceTimer (stop_stopped s) = _silenceTimer s /\
  timers (stop_stopped s) = timers s /\
  _activeListener (stop_stopped s) = None /\
  isSpeaking (stop_stopped s) = isSpeaking s /\
  _waitingForResponse (stop_stopped s) = _waitingForResponse s.
Proof.
  unfold stop_stopped, setPhase, notifyPhase.
  destruct (decide _) as [H|H]; [|destruct (_onPhaseChange _)]; cbn; auto 10.
Qed.

Lemma setPhase_fields p s :
  _silenceTimer (setPhase p s) = _silenceTimer s /\
  timers (setPhase p s) = timers s /\
  _activeListener (setPhase p s) = _activeListener s /\
  isSpeaking (setPhase p s) = isSpeaking s /\
  awaiting (setPhase p s) = awaiting s.
Proof.
  unfold setPhase, notifyPhase.
  destruct (decide _) as [H|H]; [|destruct (_onPhaseChange _)]; cbn; auto 10.
Qed.

(** [stop()], when no capture session is active, runs to its end at once. *)
Lemma stop_without_listener s :
  _activeListener s = None -> stop s = setPhase idle (teardown s).
Proof.
  intros H. unfold stop. fold (teardown s).
  destruct (teardown_fields s) as (_ & _ & _ & A & _). now rewrite A, H.
Qed.

(** [stop()], with the capture session [l] active, suspends on the session's
    [stop()]; the phase is still the one before the call. *)
Lemma stop_with_listener s l :
  _activeListener s = Some l ->
  stop s = await AwaitStop_stop (emit (ListenerStop l) (teardown s)).
Proof.
  intros H. unfold stop. fold (teardown s).
  destruct (teardown_fields s) as (_ & _ & _ & A & _). now rewrite A, H.
Qed.

Lemma awaiting_await t s : awaiting (await t s) = awaiting s ++ [t].
Proof. reflexivity. Qed.

Lemma set_awaiting_await a t s : set_awaiting a (await t s) = set_awaiting a s.
Proof. reflexivity. Qed.

Lemma set_awaiting_id s : set_awaiting (awaiting s) s = s.
Proof. destruct s; reflexivity. Qed.

(** The await suspended last resumes: the function continues in the state
    it was suspended in. *)
Lemma settle_last t o s :
  settle (length (awaiting s)) o (await t s)
  = match resume t o s with Some s' => s' | None => await t s end.
Proof.
  unfold settle. rewrite awaiting_await, list_lookup_middle by reflexivity.
  now rewrite delete_middle, app_nil_r, set_awaiting_await, set_awaiting_id.
Qed.

Lemma stop_completed_with_listener text s l :
  _activeListener s = Some l ->
  stop_completed text s = stop_stopped (emit (ListenerStop l) (teardown s)).
Proof.
  intros H. unfold stop_completed. rewrite H, (stop_with_listener s l H).
  destruct (teardown_fields s) as (_ & _ & _ & _ & _ & _ & Ha).
  change (awaiting (teardown s)) with (awaiting (emit (ListenerStop l) (teardown s))) in Ha.
  rewrite <- Ha. apply settle_last.
Qed.

(** A partial transcript arrives while [stop()] waits for the capture
    session to stop: from [listening_begun], "hello" is heard, [stop()] is
    called, "hello world" is heard, then the session reports stopped. *)
Definition stop_with_partial : list input :=
  [PartialResult "hello"; CallStop; PartialResult "hello world";
   Settled 0 (Stopped "hello world")].


Lemma stop_fields s :
  _silenceTimer (stop s) = None /\
  timers (stop s) = match _silenceTimer s with
                    | Some t => filter (fun x => tid x ≠ t) (timers s)
                    | None => timers s
                    end /\
  isSpeaking (stop s) = false /\
  _waitingForResponse (stop s) = false /\
  match _activeListener s with
  | Some l => _phase (stop s) = _phase s /\ _activeListener (stop s) = Some l /\
              awaiting (stop s) = awaiting s ++ [AwaitStop_stop] /\
              log (stop s) = log s
                             ++ (if isSpeaking s then [Speech TTS.SpeechStop] else [])
                             ++ [ListenerStop l]
  | None => _phase (stop s) = idle /\ awaiting (stop s) = awaiting s
  end.
Proof.
  destruct (teardown_fields s) as (T0 & T1 & T2 & T3 & T4 & T5 & T6).
  destruct (_activeListener s) as [l|] eqn:E.
  - assert (L : log (teardown s)
                 = log s ++ (if isSpeaking s then [Speech TTS.SpeechStop] else [])).
    { unfold teardown, stopSpeaking, TTS.stopSpeaking, clearSilenceTimer.
      destruct (_silenceTimer s); cbn; destruct (isSpeaking s); cbn;
        now rewrite ?app_nil_r. }
    rewrite (stop_with_listener s l E). state_simpl.
    rewrite ?T0, ?T1, ?T2, ?T3, ?T4, ?T5, ?T6, ?E, ?L, <- ?app_assoc. auto 10.
  - rewrite (stop_without_listener s E).
    destruct (setPhase_fields idle (teardown s)) as (P2 & P3 & P4 & P5 & P6).
    rewrite setPhase_phase, setPhase_waiting, ?P2, ?P3, ?P5, ?P6.
    rewrite ?T1, ?T2, ?T4, ?T5, ?T6. auto 10.
Qed.




(** The response timer that [stop()] left armed is harmless only while the
    flag stays clear: in [second_turn] the timer of the first turn fires
    into the second one and ends its wait for the reply. *)
Lemma stale_response_timer_ends_next_turn :
  _phase second_turn = processing /\
  _waitingForResponse second_turn = true /\
  map tid (timers second_turn) = [3; 6]%nat /\
  _phase (fire 3 second_turn) = listening /\
  _waitingForResponse (fire 3 second_turn) = false.
Proof. repeat split; vm_compute; reflexivity. Qed.

(** *** interrupt *)

Lemma beginListening_log k s :
  log (beginListening k s)
  = log s ++ (if decide (_phase s = listening) then []
              else match _onPhaseChange s with
                   | Some h => [OnPhaseChange h listening]
                   | None => []
                   end)
          ++ [StartListening].
Proof.
  unfold beginListening, setPhase, notifyPhase.
  destruct (decide (_phase s = listening)); [reflexivity|].
  destruct (_onPhaseChange s) eqn:E; state_simpl; rewrite E; state_simpl;
    now rewrite <- ?app_assoc.
Qed.

Lemma beginListening_isSpeaking k s :
  isSpeaking (beginListening k s) = isSpeaking s.
Proof.
  unfold beginListening. cbn.
  destruct (setPhase_fields listening s) as (_ & _ & _ & H & _). exact H.
Qed.

Lemma interrupt_speaking s :
  _phase s = speaking -> interrupt s = beginListening Then_return (stopSpeaking s).
Proof. intros H. unfold interrupt. now rewrite bool_decide_eq_true_2. Qed.

Lemma stopSpeaking_fields s :
  _phase (stopSpeaking s) = _phase s /\
  _onPhaseChange (stopSpeaking s) = _onPhaseChange s /\
  _waitingForResponse (stopSpeaking s) = _waitingForResponse s /\
  isSpeaking (stopSpeaking s) = false /\
  log (stopSpeaking s)
    = log s ++ (if isSpeaking s then [Speech TTS.SpeechStop] else []).
Proof.
  unfold stopSpeaking, TTS.stopSpeaking.
  destruct (isSpeaking s) eqn:E; cbn; rewrite ?app_nil_r; auto.
Qed.

(** C8.  [interrupt()] in Speaking: the synthesis adapter is told to stop
    (when its flag says it is speaking) and is not speaking afterwards, the
    phase is Listening as soon as the call returns, and all the call does
    besides is announce the phase Listening and request a capture session:
    no phase Processing, no chat message, the waiting flag untouched.
    [interrupt()] in any other phase returns the state as it was. *)
Theorem interrupt_spec (s : state) :
  (_phase s = speaking ->
     _phase (interrupt s) = listening /\
     isSpeaking (interrupt s) = false /\
     log (interrupt s)
       = log s ++ (if isSpeaking s then [Speech TTS.SpeechStop] else [])
               ++ match _onPhaseChange s with
                  | Some h => [OnPhaseChange h listening]
                  | None => []
                  end
               ++ [StartListening] /\
     messages (log (interrupt s)) = messages (log s) /\
     phases (log (interrupt s))
       = phases (log s) ++ match _onPhaseChange s with
                           | Some _ => [listening]
                           | None => []
                           end /\
     _waitingForResponse (interrupt s) = _waitingForResponse s) /\
  (_phase s <> speaking -> interrupt s = s).
Proof.
  split.
  - intros Hp. rewrite (interrupt_speaking s Hp).
    destruct (stopSpeaking_fields s) as (F1 & F2 & F3 & F4 & F5).
    rewrite beginListening_phase, beginListening_waiting, beginListening_log,
      beginListening_isSpeaking, F1, F2, F4, F5, Hp.
    destruct (decide (speaking = listening)) as [D|_]; [discriminate D|].
    rewrite <- !app_assoc.
    repeat split; auto.
    + unfold messages. rewrite !omap_app.
      destruct (isSpeaking s), (_onPhaseChange s); cbn; now rewrite ?app_nil_r.
    + unfold phases. rewrite !omap_app.
      destruct (isSpeaking s), (_onPhaseChange s); cbn; now rewrite ?app_nil_r.
  - intros Hp. unfold interrupt. now rewrite bool_decide_eq_false_2.
Qed.

Lemma interrupt_spec_witness :
  (_phase (interrupt speaking_reply) = listening /\
   isSpeaking (interrupt speaking_reply) = false /\
   log (interrupt speaking_reply)
     = log speaking_reply
       ++ [Speech TTS.SpeechStop; OnPhaseChange 1 listening; StartListening] /\
   messages (log (interrupt speaking_reply)) = messages (log speaking_reply) /\
   phases (log (interrupt speaking_reply))
     = phases (log speaking_reply) ++ [listening] /\
   _waitingForResponse (interrupt speaking_reply)
     = _waitingForResponse speaking_reply) /\
  interrupt processing_turn = processing_turn.
Proof.
  split.
  - apply (proj1 (interrupt_spec speaking_reply)). reflexivity.
  - apply (proj2 (interrupt_spec processing_turn)). discriminate.
Defined.

(** Once interrupted, the utterance completes (the adapter resolves the
    promise of [speak] on stop too): [handleAssistantReply] resumes in
    Listening and does nothing more. *)
Lemma interrupted_reply_completes s :
  _phase s = listening -> handleAssistantReply_spoken s = s.
Proof.
  intros H. unfold handleAssistantReply_spoken.
  rewrite bool_decide_eq_false_2; [reflexivity | rewrite H; discriminate].
Qed.

(** *** Partial transcripts and the silence timer *)

Lemma clearSilenceTimer_fields s :
  _phase (clearSilenceTimer s) = _phase s /\
  _silenceTimer (clearSilenceTimer s) = None /\
  timers (clearSilenceTimer s)
    = match _silenceTimer s with
      | Some t => filter (fun x => tid x ≠ t) (timers s)
      | None => timers s
      end /\
  nextTimer (clearSilenceTimer s) = nextTimer s /\
  _lastPartialText (clearSilenceTimer s) = _lastPartialText s /\
  _silenceThresholdMs (clearSilenceTimer s) = _silenceThresholdMs s.
Proof.
  unfold clearSilenceTimer. destruct (_silenceTimer s) eqn:E; cbn; auto 10.
Qed.

(** C10.  A partial transcript [text] that is empty or white space only:
    [resetSilenceTimer] cancels the timer held in [_silenceTimer] (the 10 s
    guard of the session's start, or a silence timer) and arms none, so the
    slot is empty and the phase is the one before; when the slot's timer was
    the only one armed, none is armed afterwards.  For every state [s0],
    [resetSilenceTimer] arms a timer exactly when the recorded partial text
    is not white space only: then the armed timers are those left by
    [clearSilenceTimer] and one new silence timer of [_silenceThresholdMs],
    held in the slot; otherwise it does what [clearSilenceTimer] does. *)
Theorem whitespace_partial_disarms (s s0 : state) (text : string) :
  (JsString.whitespace_only text = true ->
     _silenceTimer (onPartialResult text s) = None /\
     timers (onPartialResult text s)
       = match _silenceTimer s with
         | Some t => filter (fun x => tid x ≠ t) (timers s)
         | None => timers s
         end /\
     nextTimer (onPartialResult text s) = nextTimer s /\
     _phase (onPartialResult text s) = _phase s /\
     (forall t x, _silenceTimer s = Some t -> timers s = [x] -> tid x = t ->
        timers (onPartialResult text s) = [])) /\
  (is_Some (_silenceTimer (resetSilenceTimer s0))
     <-> JsString.whitespace_only (_lastPartialText s0) = false) /\
  (JsString.whitespace_only (_lastPartialText s0) = false ->
     _silenceTimer (resetSilenceTimer s0) = Some (nextTimer s0) /\
     timers (resetSilenceTimer s0)
       = timers (clearSilenceTimer s0)
         ++ [mkTimer (nextTimer s0) Silence (_silenceThresholdMs s0)]) /\
  (JsString.whitespace_only (_lastPartialText s0) = true ->
     resetSilenceTimer s0 = clearSilenceTimer s0).
Proof.
  split; [|split; [|split]].
  - intros Hw. unfold onPartialResult.
    set (s1 := notifyTranscript text false (set_lastPartialText text s)).
    assert (F : _lastPartialText s1 = text /\ _silenceTimer s1 = _silenceTimer s /\
                timers s1 = timers s /\ nextTimer s1 = nextTimer s /\
                _phase s1 = _phase s).
    { unfold s1, notifyTranscript. cbn. destruct (_onTranscript s); cbn; auto. }
    destruct F as (F1 & F2 & F3 & F4 & F5).
    rewrite resetSilenceTimer_whitespace by (rewrite F1; exact Hw).
    destruct (clearSilenceTimer_fields s1) as (C1 & C2 & C3 & C4 & _).
    rewrite C1, C2, C3, C4, F2, F3, F4, F5. repeat split; auto.
    intros t x Ht Hx Hid. rewrite Ht, Hx.
    rewrite filter_cons_False, filter_nil; [reflexivity | intros H; now apply H].
  - split.
    + intros [t Ht]. destruct (JsString.whitespace_only _) eqn:E; [|reflexivity].
      rewrite (resetSilenceTimer_whitespace s0 E) in Ht.
      destruct (clearSilenceTimer_fields s0) as (_ & C2 & _). congruence.
    + intros E. rewrite (resetSilenceTimer_text s0 E). cbn. eauto.
  - intros E. rewrite (resetSilenceTimer_text s0 E).
    destruct (clearSilenceTimer_fields s0) as (_ & _ & _ & C4 & _).
    state_simpl. now rewrite C4.
  - apply resetSilenceTimer_whitespace.
Qed.

Lemma whitespace_partial_disarms_witness :
  (_silenceTimer (onPartialResult " " listening_begun) = None /\
   timers (onPartialResult " " listening_begun) = [] /\
   _phase (onPartialResult " " listening_begun) = listening) /\
  (_silenceTimer (onPartialResult "hello" listening_begun) = Some 2%nat /\
   timers (onPartialResult "hello" listening_begun) = [mkTimer 2 Silence 1500]).
Proof.
  split.
  - destruct (proj1 (whitespace_partial_disarms listening_begun listening_begun " ")
                eq_refl) as (H1 & _ & _ & H4 & H5).
    split; [exact H1|]. split; [|exact H4].
    exact (H5 1%nat (mkTimer 1 Guard 10000) eq_refl eq_refl eq_refl).
  - exact (proj1 (proj2 (proj2 (whitespace_partial_disarms listening_begun
             (notifyTranscript "hello" false
                (set_lastPartialText "hello" listening_begun)) " ")))
             eq_refl).
Defined.

End ConversationFacts.

(** ** The gateway client *)

Module GatewayFacts.
Import Gateway.

(** Compute the projections of updated states. *)
Ltac state_simpl :=
  cbn [emit setTimeout setInterval clearTimeout resolve reject
       set_ws set_config set_reqId set_pendingRequests set_onMessage
       set_onStateChange set_reconnectTimer set_tickTimer set_isConnected
       set_timers set_nextTimer set_nextSocket set_nextPromise set_awaiting
       set_log
       _ws _config _reqId _pendingRequests _onMessage _onStateChange
       _reconnectTimer _tickTimer _isConnected timers nextTimer nextSocket
       nextPromise awaiting log] in *.

(** *** send without an open socket *)

(** A promise keeps its first settlement. *)
Lemma settled_snoc p o l :
  settled p (l ++ [Settle p o])
  = match settled p l with Some o' => Some o' | None => Some o end.
Proof.
  induction l as [|e l IH]; cbn.
  - now rewrite Nat.eqb_refl.
  - destruct e as [? ? ?|? ?|? ?|? ?|?|q o']; try exact IH.
    destruct (Nat.eqb p q); [reflexivity|exact IH].
Qed.

Lemma ws_open_false s :
  (_ws s = None \/ exists sock r, _ws s = Some (sock, r) /\ r <> OPEN) ->
  ws_open s = false.
Proof.
  unfold ws_open. intros [H | (sock & r & H & Hr)]; rewrite H; [reflexivity|].
  destruct r; congruence.
Qed.

(** C9.  [send] while there is no socket or the socket is not OPEN: the
    promise it returns is rejected at once with "WebSocket not connected";
    the pending-request map, the armed timers and the request counter are
    those before the call, and the only call recorded is the rejection, so
    no frame went out. *)
Theorem send_not_connected (s : state) (frame : GatewayRequest) (k : continuation) :
  (_ws s = None \/ exists sock r, _ws s = Some (sock, r) /\ r <> OPEN) ->
  _pendingRequests (send frame k s) = _pendingRequests s /\
  timers (send frame k s) = timers s /\
  _reqId (send frame k s) = _reqId s /\
  log (send frame k s)
    = log s ++ [Settle (nextPromise s) (Rejected "WebSocket not connected")] /\
  settled (nextPromise s) (log (send frame k s))
    = match settled (nextPromise s) (log s) with
      | Some o => Some o
      | None => Some (Rejected "WebSocket not connected")
      end.
Proof.
  intros H. apply ws_open_false in H.
  assert (E : send frame k s
              = reject (nextPromise s) "WebSocket not connected"
                  (set_awaiting (awaiting s ++ [(nextPromise s, k)])
                     (set_nextPromise (S (nextPromise s)) s))).
  { unfold send. change (ws_open (set_awaiting _ _)) with (ws_open s).
    now rewrite H. }
  rewrite E. state_simpl. repeat split; try reflexivity.
  apply settled_snoc.
Qed.

Lemma send_not_connected_witness :
  _pendingRequests (send (mkRequest "rn-1" "chat.send" (JObj [])) SendMessage_caller initial)
    = _pendingRequests initial /\
  timers (send (mkRequest "rn-1" "chat.send" (JObj [])) SendMessage_caller initial)
    = timers initial /\
  _reqId (send (mkRequest "rn-1" "chat.send" (JObj [])) SendMessage_caller initial)
    = _reqId initial /\
  log (send (mkRequest "rn-1" "chat.send" (JObj [])) SendMessage_caller initial)
    = [Settle 1 (Rejected "WebSocket not connected")] /\
  settled 1 (log (send (mkRequest "rn-1" "chat.send" (JObj [])) SendMessage_caller initial))
    = Some (Rejected "WebSocket not connected").
Proof.
  apply (send_not_connected initial (mkRequest "rn-1" "chat.send" (JObj []))
           SendMessage_caller).
  left. reflexivity.
Defined.

(** *** Events *)

(** The handler is invoked exactly once, with the payload's text. *)
Definition surfaced_once (e : GatewayEvent) (s : state) : Prop :=
  message_calls (log (handleEvent e s))
  = message_calls (log s)
    ++ [(get "text" (payload e), get "messageId" (payload e))].

(** A chat-family event that carries the role assistant and a non-empty
    text. *)
Definition assistant_reply (e : GatewayEvent) : Prop :=
  (event e = "chat" \/ event e = "chat.reply") /\
  get "role" (payload e) = Some (JStr "assistant") /\
  truthy (get "text" (payload e)) = true.

(** C7 as the specification states it. *)
Definition surfaced_iff_assistant_reply (e : GatewayEvent) (s : state) : Prop :=
  surfaced_once e s <-> assistant_reply e.

(** A [chat.reply] event of role user with a text is surfaced all the same:
    that branch does not look at the role. *)
Lemma surfaced_iff_assistant_reply_fails :
  ~ surfaced_iff_assistant_reply
      (mkEvent "chat.reply" (Some (JObj [("role", JStr "user"); ("text", JStr "hi")])))
      (onMessage 7 initial).
Proof.
  intros [H _].
  assert (A : assistant_reply
                (mkEvent "chat.reply"
                   (Some (JObj [("role", JStr "user"); ("text", JStr "hi")]))))
    by (apply H; reflexivity).
  destruct A as (_ & A & _). discriminate A.
Qed.

Lemma message_calls_snoc h text messageId l :
  message_calls (l ++ [OnMessage h text messageId])
  = message_calls l ++ [(text, messageId)].
Proof. unfold message_calls. now rewrite omap_app. Qed.

Lemma notifyMessage_registered h text messageId s :
  _onMessage s = Some h ->
  notifyMessage text messageId s = emit (OnMessage h text messageId) s.
Proof. intros H. unfold notifyMessage. now rewrite H. Qed.

Lemma message_calls_send frame k s :
  message_calls (log (send frame k s)) = message_calls (log s).
Proof.
  unfold send, ws_send, reject. destruct (negb _); state_simpl.
  - unfold message_calls. rewrite omap_app. cbn. apply app_nil_r.
  - destruct (_ws s) as [[sock r]|]; state_simpl; [|reflexivity].
    unfold message_calls. rewrite omap_app. cbn. apply app_nil_r.
Qed.

(** The handshake never invokes the message handler. *)
Lemma message_calls_doConnect nonce s :
  message_calls (log (doConnect nonce s)) = message_calls (log s).
Proof.
  unfold doConnect. destruct (_config s); [|reflexivity].
  unfold nextId. now rewrite message_calls_send.
Qed.

(** What a [chat] event does, in full: one invocation for an assistant
    payload with a text, and one more for an assistant payload of type
    message, with or without a text. *)
Lemma handleEvent_chat e s :
  event e = "chat" ->
  handleEvent e s =
    let p := payload e in
    let s1 := if is_str "assistant" (get "role" p) && truthy (get "text" p)
              then notifyMessage (get "text" p) (get "messageId" p) s else s in
    if is_str "message" (get "type" p) && is_str "assistant" (get "role" p)
    then notifyMessage (get "text" p) (get "messageId" p) s1 else s1.
Proof. intros H. unfold handleEvent. rewrite H. reflexivity. Qed.

(** An assistant message of type message with a text reaches the handler
    twice. *)
Lemma chat_message_surfaced_twice :
  message_calls
    (log (handleEvent
            (mkEvent "chat" (Some (JObj [("type", JStr "message");
                                         ("role", JStr "assistant");
                                         ("text", JStr "hi")])))
            (onMessage 7 initial)))
  = [(Some (JStr "hi"), None); (Some (JStr "hi"), None)].
Proof. reflexivity. Qed.

(** C7, amended.  With a message handler [h] registered:
    - a [chat.reply] event invokes it once, with the payload's text and
      message id, when the text is truthy, whatever the role, and does
      nothing otherwise;
    - a [chat] event whose payload is not of type message invokes it once
      when the role is assistant and the text is truthy, and does nothing
      otherwise;
    - a [chat] event whose role is not assistant does nothing;
    - a [chat.stream] event does nothing, and neither does an event of any
      other name, except [connect.challenge], which starts the handshake
      without invoking the handler. *)
Theorem handleEvent_surfaces (s : state) (e : GatewayEvent) (h : handler) :
  _onMessage s = Some h ->
  (event e = "chat.reply" ->
     handleEvent e s
     = if truthy (get "text" (payload e))
       then emit (OnMessage h (get "text" (payload e)) (get "messageId" (payload e))) s
       else s) /\
  (event e = "chat" -> is_str "message" (get "type" (payload e)) = false ->
     handleEvent e s
     = if is_str "assistant" (get "role" (payload e)) && truthy (get "text" (payload e))
       then emit (OnMessage h (get "text" (payload e)) (get "messageId" (payload e))) s
       else s) /\
  (event e = "chat" -> is_str "assistant" (get "role" (payload e)) = false ->
     handleEvent e s = s) /\
  (event e = "chat.stream" -> handleEvent e s = s) /\
  (event e <> "connect.challenge" -> event e <> "chat" -> event e <> "chat.reply" ->
     handleEvent e s = s) /\
  (event e = "connect.challenge" ->
     message_calls (log (handleEvent e s)) = message_calls (log s)).
Proof.
  intros Hh. repeat split.
  - intros E. unfold handleEvent. rewrite E. cbn [String.eqb Ascii.eqb Bool.eqb].
    cbn. now rewrite (notifyMessage_registered h).
  - intros E T. rewrite (handleEvent_chat e s E). cbn zeta. rewrite T. cbn [andb].
    now rewrite (notifyMessage_registered h).
  - intros E R. rewrite (handleEvent_chat e s E). cbn zeta. rewrite R.
    now rewrite andb_false_r.
  - intros E. unfold handleEvent. now rewrite E.
  - intros E1 E2 E3. unfold handleEvent.
    apply String.eqb_neq in E1, E2, E3. rewrite E1, E2, E3.
    destruct (String.eqb (event e) "chat.stream"); reflexivity.
  - intros E. unfold handleEvent. rewrite E. cbn. apply message_calls_doConnect.
Qed.

Lemma handleEvent_surfaces_witness :
  handleEvent (mkEvent "chat.reply" (Some (JObj [("text", JStr "hi")]))) (onMessage 7 initial)
    = emit (OnMessage 7 (Some (JStr "hi")) None) (onMessage 7 initial) /\
  handleEvent (mkEvent "chat" (Some (JObj [("role", JStr "assistant"); ("text", JStr "hi")])))
      (onMessage 7 initial)
    = emit (OnMessage 7 (Some (JStr "hi")) None) (onMessage 7 initial) /\
  handleEvent (mkEvent "chat" (Some (JObj [("role", JStr "user"); ("text", JStr "hi")])))
      (onMessage 7 initial)
    = onMessage 7 initial /\
  handleEvent (mkEvent "chat.stream" (Some (JObj [("text", JStr "h")]))) (onMessage 7 initial)
    = onMessage 7 initial /\
  handleEvent (mkEvent "presence" None) (onMessage 7 initial) = onMessage 7 initial /\
  message_calls (log (handleEvent (mkEvent "connect.challenge" None) (onMessage 7 initial)))
    = message_calls (log (onMessage 7 initial)).
Proof.
  split; [|split; [|split; [|split; [|split]]]].
  - exact (proj1 (handleEvent_surfaces (onMessage 7 initial)
             (mkEvent "chat.reply" (Some (JObj [("text", JStr "hi")]))) 7 eq_refl)
             eq_refl).
  - exact (proj1 (proj2 (handleEvent_surfaces (onMessage 7 initial)
             (mkEvent "chat" (Some (JObj [("role", JStr "assistant"); ("text", JStr "hi")])))
             7 eq_refl)) eq_refl eq_refl).
  - exact (proj1 (proj2 (proj2 (handleEvent_surfaces (onMessage 7 initial)
             (mkEvent "chat" (Some (JObj [("role", JStr "user"); ("text", JStr "hi")])))
             7 eq_refl))) eq_refl eq_refl).
  - exact (proj1 (proj2 (proj2 (proj2 (handleEvent_surfaces (onMessage 7 initial)
             (mkEvent "chat.stream" (Some (JObj [("text", JStr "h")]))) 7 eq_refl))))
             eq_refl).
  - apply (proj1 (proj2 (proj2 (proj2 (proj2 (handleEvent_surfaces (onMessage 7 initial)
             (mkEvent "presence" None) 7 eq_refl)))))); discriminate.
  - exact (proj2 (proj2 (proj2 (proj2 (proj2 (handleEvent_surfaces (onMessage 7 initial)
             (mkEvent "connect.challenge" None) 7 eq_refl))))) eq_refl).
Defined.

(** *** Channel close *)

(** C2 as the specification states it: on a close the client is no longer
    connected, the keepalive is cancelled, every pending request is rejected
    and its registration removed, and one reconnection timer is armed. *)
Definition close_rejects_pending (s : state) : Prop :=
  _isConnected (onclose s) = false /\
  _tickTimer (onclose s) = None /\
  (forall id p, _pendingRequests s !! id = Some p ->
     _pendingRequests (onclose s) !! id = None /\
     exists msg, settled p (log (onclose s)) = Some (Rejected msg)) /\
  length (reconnect_timers (onclose s)) = 1%nat.

(** In [message_pending] the request "rn-3" waits for its response; the
    close leaves it registered and its promise unsettled. *)
Lemma close_rejects_pending_fails : ~ close_rejects_pending message_pending.
Proof.
  intros (_ & _ & H & _).
  destruct (H "rn-3" 3%nat) as [H1 _]; [vm_compute; reflexivity|].
  vm_compute in H1. discriminate H1.
Qed.

(** The two timer slots agree with the armed timers: the reconnection timers
    armed are the one held in [_reconnectTimer], if any; the id held in
    [_tickTimer] is not the id of a timer of another kind, and every armed
    keepalive is the one held there. *)
Definition slots_ok (s : state) : Prop :=
  reconnect_timers s
  = match _reconnectTimer s with
    | Some t => [mkTimer t Reconnect 5000 false]
    | None => []
    end /\
  Forall (fun x => _tickTimer s = Some (tid x) -> cb x = Tick) (timers s) /\
  Forall (fun x => cb x = Tick -> _tickTimer s = Some (tid x)) (timers s).

Lemma reconnect_timers_filter (P : timer -> Prop) `{!forall x, Decision (P x)} l :
  (forall x, x ∈ l -> is_reconnect x = true -> P x) ->
  List.filter is_reconnect (filter P l) = List.filter is_reconnect l.
Proof.
  induction l as [|x l IH]; intros Hall; [reflexivity|].
  assert (IH' : List.filter is_reconnect (filter P l) = List.filter is_reconnect l)
    by (apply IH; intros y Hy; apply Hall; now right).
  destruct (decide (P x)) as [Hx|Hx].
  - rewrite filter_cons_True by exact Hx. cbn. now rewrite IH'.
  - rewrite filter_cons_False by exact Hx. cbn.
    destruct (is_reconnect x) eqn:E; [|exact IH'].
    exfalso. apply Hx, Hall; [left|exact E].
Qed.

Lemma notifyState_fields st s :
  _ws (notifyState st s) = _ws s /\
  _config (notifyState st s) = _config s /\
  _pendingRequests (notifyState st s) = _pendingRequests s /\
  _reconnectTimer (notifyState st s) = _reconnectTimer s /\
  _tickTimer (notifyState st s) = _tickTimer s /\
  _isConnected (notifyState st s) = _isConnected s /\
  timers (notifyState st s) = timers s /\
  nextTimer (notifyState st s) = nextTimer s /\
  log (notifyState st s)
    = log s ++ match _onStateChange s with
               | Some h => [OnStateChange h st]
               | None => []
               end.
Proof.
  unfold notifyState. destruct (_onStateChange s); cbn; rewrite ?app_nil_r; auto 10.
Qed.

Lemma settled_snoc_other p e l :
  match e with Settle _ _ => False | _ => True end ->
  settled p (l ++ [e]) = settled p l.
Proof.
  intros He. induction l as [|e' l IH]; cbn.
  - destruct e; try reflexivity. contradiction.
  - destruct e' as [? ? ?|? ?|? ?|? ?|?|q o]; try exact IH.
    destruct (Nat.eqb p q); [reflexivity|exact IH].
Qed.

(** The first part of [ws.onclose]: the flag and the keepalive. *)
Definition onclose_flags (s : state) : state :=
  let s := set_isConnected false s in
  match _tickTimer s with
  | Some t => set_tickTimer None (clearTimeout t s)
  | None => s
  end.

Lemma onclose_flags_fields s :
  _config (onclose_flags s) = _config s /\
  _pendingRequests (onclose_flags s) = _pendingRequests s /\
  _onStateChange (onclose_flags s) = _onStateChange s /\
  _reconnectTimer (onclose_flags s) = _reconnectTimer s /\
  _tickTimer (onclose_flags s) = None /\
  _isConnected (onclose_flags s) = false /\
  timers (onclose_flags s)
    = match _tickTimer s with
      | Some t => filter (fun x => tid x ≠ t) (timers s)
      | None => timers s
      end /\
  nextTimer (onclose_flags s) = nextTimer s /\
  log (onclose_flags s) = log s.
Proof.
  unfold onclose_flags. cbn. destruct (_tickTimer s) eqn:E; cbn; auto 10.
Qed.

Lemma onclose_unfold s :
  onclose s = scheduleReconnect (notifyState disconnected (onclose_flags s)).
Proof. reflexivity. Qed.

(** C2, amended.  On a channel close, in a state whose timer slots agree
    with the armed timers: the client is no longer connected and reports
    Disconnected to the state handler, which is all it reports; the
    keepalive timer is cancelled (none is armed afterwards); exactly one
    reconnection timer is armed,
    a 5000 ms one held in [_reconnectTimer] (the one already armed if there
    was one); the configuration is kept, and when that timer fires the
    client connects again with it.  The pending requests are not touched:
    the map is the same, no promise is settled, and every timer other than
    the keepalive stays armed, so each request still waits for its response
    or its own timeout. *)
Theorem onclose_spec (s : state) :
  slots_ok s ->
  _isConnected (onclose s) = false /\
  log (onclose s)
    = log s ++ match _onStateChange s with
               | Some h => [OnStateChange h disconnected]
               | None => []
               end /\
  _tickTimer (onclose s) = None /\
  (forall x, x ∈ timers (onclose s) -> cb x <> Tick) /\
  (exists t, _reconnectTimer (onclose s) = Some t /\
             reconnect_timers (onclose s) = [mkTimer t Reconnect 5000 false]) /\
  _config (onclose s) = _config s /\
  (forall cfg, _config s = Some cfg ->
     reconnect (onclose s) = connect cfg (set_reconnectTimer None (onclose s))) /\
  _pendingRequests (onclose s) = _pendingRequests s /\
  (forall p, settled p (log (onclose s)) = settled p (log s)) /\
  (forall x, x ∈ timers s -> cb x <> Tick -> x ∈ timers (onclose s)).
Proof.
  intros (Hr & Ht & Hk). rewrite Forall_forall in Ht, Hk. rewrite onclose_unfold.
  destruct (onclose_flags_fields s) as (F1 & F2 & F3 & F4 & F5 & F6 & F7 & F8 & F9).
  set (s1 := onclose_flags s) in *.
  destruct (notifyState_fields disconnected s1)
    as (_ & N2 & N3 & N4 & N5 & N6 & N7 & N8 & N9).
  set (s2 := notifyState disconnected s1) in *.
  assert (Hin : forall x, x ∈ timers s2 ->
                  x ∈ timers s /\ _tickTimer s <> Some (tid x)).
  { intros x. rewrite N7, F7. destruct (_tickTimer s) as [t|].
    - rewrite list_elem_of_filter. intros [Hx Hin]. split; [exact Hin|]. congruence.
    - intros Hin. split; [exact Hin|discriminate]. }
  assert (Hkeep : forall x, x ∈ timers s -> cb x <> Tick -> x ∈ timers s2).
  { intros x Hx Hc. rewrite N7, F7. destruct (_tickTimer s) as [t|] eqn:E; [|exact Hx].
    apply list_elem_of_filter. split; [|exact Hx].
    intros Hid. apply Hc, Ht; [exact Hx|]. now rewrite Hid. }
  assert (Hrec : reconnect_timers s2 = reconnect_timers s).
  { unfold reconnect_timers. rewrite N7, F7. destruct (_tickTimer s) as [t|] eqn:E;
      [|reflexivity].
    apply (reconnect_timers_filter (fun x => tid x ≠ t)).
    intros x Hx Hc Hid. unfold is_reconnect in Hc.
    rewrite (Ht x Hx) in Hc; [discriminate|]. now rewrite Hid. }
  assert (Hlog : log s2 = log s ++ match _onStateChange s with
                                   | Some h => [OnStateChange h disconnected]
                                   | None => []
                                   end)
    by (rewrite N9, F9, F3; reflexivity).
  assert (Hset : forall p, settled p (log s2) = settled p (log s)).
  { intros p. rewrite Hlog. destruct (_onStateChange s); [|now rewrite app_nil_r].
    now apply settled_snoc_other. }
  assert (Hnotick : forall x, x ∈ timers s2 -> cb x <> Tick).
  { intros x Hx Hc. destruct (Hin x Hx) as [Hx' Hne]. now apply Hne, Hk. }
  unfold scheduleReconnect. rewrite N4, F4.
  destruct (_reconnectTimer s) as [r|] eqn:Er.
  - repeat split; try congruence.
    + exact Hnotick.
    + exists r. split; [congruence|]. now rewrite Hrec.
    + intros cfg Hc. unfold reconnect. cbn. now rewrite N6, F6, N2, F1, Hc.
    + exact Hkeep.
  - state_simpl. repeat split; try congruence.
    + intros x Hx. apply elem_of_app in Hx as [Hx|Hx].
      * now apply Hnotick.
      * apply list_elem_of_singleton in Hx. subst x. discriminate.
    + exists (nextTimer s2). split; [reflexivity|].
      unfold reconnect_timers in *. cbn. rewrite List.filter_app, Hrec, Hr.
      reflexivity.
    + intros cfg Hc. unfold reconnect. cbn. now rewrite N6, F6, N2, F1, Hc.
    + intros x Hx Hc. apply elem_of_app. left. now apply Hkeep.
Qed.

Lemma onclose_spec_witness :
  _isConnected (onclose message_pending) = false /\
  log (onclose message_pending) = log message_pending ++ [OnStateChange 8 disconnected] /\
  _tickTimer (onclose message_pending) = None /\
  (exists t, _reconnectTimer (onclose message_pending) = Some t /\
             reconnect_timers (onclose message_pending) = [mkTimer t Reconnect 5000 false]) /\
  reconnect (onclose message_pending)
    = connect config0 (set_reconnectTimer None (onclose message_pending)) /\
  _pendingRequests (onclose message_pending) = _pendingRequests message_pending /\
  settled 3 (log (onclose message_pending)) = settled 3 (log message_pending).
Proof.
  assert (Hok : slots_ok message_pending).
  { split; [vm_compute; reflexivity|]. split; vm_compute;
      repeat constructor; intros H; first [reflexivity | discriminate H]. }
  assert (Hc : _config message_pending = Some config0) by (vm_compute; reflexivity).
  assert (Hh : _onStateChange message_pending = Some 8%nat) by (vm_compute; reflexivity).
  destruct (onclose_spec message_pending Hok)
    as (H1 & H2 & H3 & _ & H5 & _ & H7 & H8 & H9 & _).
  rewrite Hh in H2.
  split; [exact H1|]. split; [exact H2|]. split; [exact H3|]. split; [exact H5|].
  split; [exact (H7 config0 Hc)|]. split; [exact H8|]. apply H9.
Defined.

(** *** Requests: response against timeout *)

(** The rejection message of a response that is not ok:
    [frame.error?.message || 'Unknown error']. *)
Definition error_message (frame : GatewayResponse) : string :=
  match res_error frame with
  | Some m => if JsString.truthy m then m else "Unknown error"
  | None => "Unknown error"
  end.

Definition outcome_of (frame : GatewayResponse) : settlement :=
  if res_ok frame then Resolved (res_payload frame)
  else Rejected (error_message frame).

(** A response for a registered request removes the registration and
    settles its promise. *)
Lemma handleFrame_registered frame p s :
  _pendingRequests s !! res_id frame = Some p ->
  handleFrame (Frame (Res frame)) s
  = emit (Settle p (outcome_of frame))
      (set_pendingRequests (delete (res_id frame) (_pendingRequests s)) s).
Proof.
  intros H. unfold handleFrame, outcome_of, error_message, resolve, reject.
  rewrite H. now destruct (res_ok frame).
Qed.

(** A response for an id that is not registered is dropped. *)
Lemma handleFrame_unregistered frame s :
  _pendingRequests s !! res_id frame = None ->
  handleFrame (Frame (Res frame)) s = s.
Proof. intros H. unfold handleFrame. now rewrite H. Qed.

(** The timeout of a registered request removes the registration and rejects
    the promise. *)
Lemma requestTimeout_registered id method p q s :
  _pendingRequests s !! id = Some q ->
  requestTimeout id method p s
  = emit (Settle p (Rejected ("Request " +:+ method +:+ " timed out")))
      (set_pendingRequests (delete id (_pendingRequests s)) s).
Proof. intros H. unfold requestTimeout, reject. now rewrite H. Qed.

(** The timeout of a request that is no longer registered does nothing. *)
Lemma requestTimeout_unregistered id method p s :
  _pendingRequests s !! id = None -> requestTimeout id method p s = s.
Proof. intros H. unfold requestTimeout. now rewrite H. Qed.

Lemma rn_inj k k' : rn k = rn k' -> k = k'.
Proof.
  unfold rn. intros H.
  change (String "r" (String "n" (String "-" (pretty k)))
          = String "r" (String "n" (String "-" (pretty k')))) in H.
  injection H as H. now apply (inj pretty) in H.
Qed.

(** *** Requests: each promise is settled at most once *)

(** The bookkeeping of requests, on the five components it rests on: the
    request counter [r], the pending map [m], the (id, promise) pairs [ts] of
    the armed request timeouts, the promise counter [n] and the promises
    [st] settled so far.  Registered promises are unsettled and belong to
    one id each, ids come from the counter, a request timeout guards either
    its own registration or none, and no promise was settled twice. *)
Definition bookkeeping (r : nat) (m : gmap string promise)
    (ts : list (string * promise)) (n : promise) (st : list promise) : Prop :=
  (forall id p, m !! id = Some p ->
     (p < n)%nat /\ (p ∉ st) /\ exists k, (k <= r)%nat /\ id = rn k) /\
  (forall id id' p, m !! id = Some p -> m !! id' = Some p -> id = id') /\
  (forall id p, (id, p) ∈ ts ->
     (m !! id = Some p \/ m !! id = None) /\ exists k, (k <= r)%nat /\ id = rn k) /\
  NoDup st /\
  (forall p, p ∈ st -> (p < n)%nat).

Definition inv (s : state) : Prop :=
  bookkeeping (_reqId s) (_pendingRequests s) (request_timers (timers s))
    (nextPromise s) (settles (log s)).

Section Bookkeeping.

Local Ltac split5 := split; [|split; [|split; [|split]]].

Variables (r : nat) (m : gmap string promise) (ts : list (string * promise))
          (n : promise) (st : list promise).
Hypothesis (Hinv : bookkeeping r m ts n st).

(** Timers may go away. *)
Lemma bookkeeping_timers ts' :
  (forall x, x ∈ ts' -> x ∈ ts) -> bookkeeping r m ts' n st.
Proof.
  destruct Hinv as (H1 & H2 & H3 & H4 & H5). intros Hsub.
  split5; auto.
Qed.

(** [send] on an open socket with the next id. *)
Lemma bookkeeping_register :
  bookkeeping (S r) (<[rn (S r) := n]> m) (ts ++ [(rn (S r), n)]) (S n) st.
Proof.
  destruct Hinv as (H1 & H2 & H3 & H4 & H5).
  assert (Hfresh : m !! rn (S r) = None).
  { destruct (m !! rn (S r)) as [p|] eqn:E; [|reflexivity].
    destruct (H1 _ _ E) as (_ & _ & k & Hk & Hrn). apply rn_inj in Hrn. lia. }
  assert (Hn : forall id, m !! id <> Some n).
  { intros id E. destruct (H1 _ _ E) as (Hlt & _). lia. }
  split5.
  - intros id p. rewrite lookup_insert. case_decide as D.
    + intros [= <-]. repeat split; [lia | | exists (S r); split; [lia|now subst]].
      intros Hin. apply H5 in Hin. lia.
    + intros E. destruct (H1 _ _ E) as (Hlt & Hns & k & Hk & Hrn).
      repeat split; [lia | exact Hns | exists k; split; [lia|exact Hrn]].
  - intros id id' p. rewrite !lookup_insert. repeat case_decide; subst.
    + reflexivity.
    + intros [= <-] E. now apply Hn in E.
    + intros E [= <-]. now apply Hn in E.
    + apply H2.
  - intros id p Hin. apply elem_of_app in Hin as [Hin|Hin].
    + destruct (H3 _ _ Hin) as (Hm & k & Hk & Hrn). split.
      * rewrite lookup_insert_ne; [exact Hm|].
        intros E. rewrite Hrn in E. apply rn_inj in E. lia.
      * exists k. split; [lia|exact Hrn].
    + apply list_elem_of_singleton in Hin. inversion Hin; subst. split.
      * left. apply lookup_insert_eq.
      * exists (S r). split; [lia|reflexivity].
  - exact H4.
  - intros p Hin. apply H5 in Hin. lia.
Qed.

(** [send] without an open socket, with the next id. *)
Lemma bookkeeping_reject_new : bookkeeping (S r) m ts (S n) (st ++ [n]).
Proof.
  destruct Hinv as (H1 & H2 & H3 & H4 & H5).
  assert (Hn : n ∉ st) by (intros Hin; apply H5 in Hin; lia).
  split5.
  - intros id p E. destruct (H1 _ _ E) as (Hlt & Hns & k & Hk & Hrn).
    repeat split; [lia | | exists k; split; [lia|exact Hrn]].
    rewrite elem_of_app, list_elem_of_singleton. intros [Hin| ->]; [auto|lia].
  - exact H2.
  - intros id p Hin. destruct (H3 _ _ Hin) as (Hm & k & Hk & Hrn).
    split; [exact Hm | exists k; split; [lia|exact Hrn]].
  - apply NoDup_app. repeat split; [exact H4| |apply NoDup_singleton].
    intros p Hin. rewrite list_elem_of_singleton. intros ->. auto.
  - intros p. rewrite elem_of_app, list_elem_of_singleton.
    intros [Hin| ->]; [apply H5 in Hin|]; lia.
Qed.

(** A registered request is settled and its registration removed. *)
Lemma bookkeeping_settle id p :
  m !! id = Some p -> bookkeeping r (delete id m) ts n (st ++ [p]).
Proof.
  destruct Hinv as (H1 & H2 & H3 & H4 & H5). intros Hp.
  destruct (H1 _ _ Hp) as (Hlt & Hns & _).
  split5.
  - intros id' p'. rewrite lookup_delete. case_decide as D; [discriminate|].
    intros E. destruct (H1 _ _ E) as (Hlt' & Hns' & Hk).
    repeat split; [exact Hlt' | | exact Hk].
    rewrite elem_of_app, list_elem_of_singleton. intros [Hin| ->]; [auto|].
    apply D. symmetry. now apply (H2 id' id p).
  - intros id1 id2 p'. rewrite !lookup_delete. repeat case_decide; try discriminate.
    apply H2.
  - intros id' p' Hin. destruct (H3 _ _ Hin) as (Hm & Hk). split; [|exact Hk].
    rewrite lookup_delete. case_decide; [now right|exact Hm].
  - apply NoDup_app. repeat split; [exact H4| |apply NoDup_singleton].
    intros q Hin. rewrite list_elem_of_singleton. intros ->. auto.
  - intros q. rewrite elem_of_app, list_elem_of_singleton.
    intros [Hin| ->]; [now apply H5|exact Hlt].
Qed.

(** [_pendingRequests.clear()]. *)
Lemma bookkeeping_clear : bookkeeping r ∅ ts n st.
Proof.
  destruct Hinv as (H1 & H2 & H3 & H4 & H5).
  split5; auto.
  - intros id p. rewrite lookup_empty. discriminate.
  - intros id id' p. rewrite lookup_empty. discriminate.
  - intros id p Hin. split; [now right|]. now destruct (H3 _ _ Hin).
Qed.

(** A request timeout that finds a registration finds its own. *)
Lemma bookkeeping_timeout_own id p q :
  (id, p) ∈ ts -> m !! id = Some q -> q = p.
Proof.
  destruct Hinv as (_ & _ & H3 & _). intros Hin Hq.
  destruct (H3 _ _ Hin) as ([E|E] & _); congruence.
Qed.

End Bookkeeping.

(** [s'] has the request bookkeeping of [s], up to timers that went away. *)
Definition keeps (s s' : state) : Prop :=
  _reqId s' = _reqId s /\
  _pendingRequests s' = _pendingRequests s /\
  (forall x, x ∈ request_timers (timers s') -> x ∈ request_timers (timers s)) /\
  nextPromise s' = nextPromise s /\
  settles (log s') = settles (log s).

Lemma inv_keeps s s' : keeps s s' -> inv s -> inv s'.
Proof.
  intros (K1 & K2 & K3 & K4 & K5) H. unfold inv in *.
  rewrite K1, K2, K4, K5. now apply (bookkeeping_timers _ _ _ _ _ H).
Qed.

Lemma keeps_refl s : keeps s s.
Proof. repeat split; auto. Qed.

Lemma keeps_trans s1 s2 s3 : keeps s1 s2 -> keeps s2 s3 -> keeps s1 s3.
Proof.
  intros (A1 & A2 & A3 & A4 & A5) (B1 & B2 & B3 & B4 & B5).
  repeat split; try congruence. auto.
Qed.

Lemma settles_snoc e l :
  settles (l ++ [e]) = settles l ++ match e with Settle p _ => [p] | _ => [] end.
Proof. unfold settles. rewrite omap_app. now destruct e. Qed.

Lemma request_timers_snoc x l :
  request_timers (l ++ [x])
  = request_timers l ++ match cb x with
                        | RequestTimeout id _ p => [(id, p)]
                        | _ => []
                        end.
Proof. unfold request_timers. rewrite omap_app. cbn. now destruct (cb x). Qed.

Lemma request_timers_filter (P : timer -> Prop) `{!forall x, Decision (P x)} l x :
  x ∈ request_timers (filter P l) -> x ∈ request_timers l.
Proof.
  unfold request_timers. rewrite !list_elem_of_omap.
  intros (y & Hy & E). exists y. split; [|exact E].
  apply list_elem_of_filter in Hy. tauto.
Qed.

Lemma keeps_emit e s :
  match e with Settle _ _ => False | _ => True end -> keeps s (emit e s).
Proof.
  intros He. repeat split; auto. state_simpl. rewrite settles_snoc.
  destruct e; try apply app_nil_r. contradiction.
Qed.

Lemma keeps_notifyState st s : keeps s (notifyState st s).
Proof.
  unfold notifyState. destruct (_onStateChange s); [|apply keeps_refl].
  now apply keeps_emit.
Qed.

Lemma keeps_notifyMessage text messageId s : keeps s (notifyMessage text messageId s).
Proof.
  unfold notifyMessage. destruct (_onMessage s); [|apply keeps_refl].
  now apply keeps_emit.
Qed.

Lemma keeps_clearTimeout t s : keeps s (clearTimeout t s).
Proof.
  repeat split; auto. state_simpl. apply request_timers_filter.
Qed.

Lemma keeps_ws_close s : keeps s (ws_close s).
Proof.
  unfold ws_close. destruct (_ws s) as [[sock r]|]; [|apply keeps_refl].
  apply (keeps_trans _ (emit (WsClose sock) s)); [now apply keeps_emit|].
  repeat split; auto.
Qed.

Lemma keeps_set_readyState sock r s : keeps s (set_readyState sock r s).
Proof.
  unfold set_readyState. destruct (_ws s) as [[sock' r']|]; [|apply keeps_refl].
  destruct (Nat.eqb sock sock'); [|apply keeps_refl]. repeat split; auto.
Qed.

Lemma keeps_setTimer c ms rep s :
  match c with RequestTimeout _ _ _ => False | _ => True end ->
  keeps s (set_nextTimer (S (nextTimer s))
             (set_timers (timers s ++ [mkTimer (nextTimer s) c ms rep]) s)).
Proof.
  intros Hc. repeat split; auto. state_simpl. rewrite request_timers_snoc. cbn.
  destruct c; rewrite ?app_nil_r; auto. contradiction.
Qed.

Lemma keeps_connect config s : keeps s (connect config s).
Proof.
  unfold connect.
  set (s1 := notifyState connecting (set_isConnected false (set_config (Some config) s))).
  assert (K1 : keeps s s1).
  { apply (keeps_trans _ (set_isConnected false (set_config (Some config) s)));
      [repeat split; auto | apply keeps_notifyState]. }
  apply (keeps_trans _ _ _ K1), (keeps_trans _ _ _ (keeps_ws_close s1)).
  set (s2 := ws_close s1).
  apply (keeps_trans _ (emit (WsNew (nextSocket s2) (url config)) s2));
    [now apply keeps_emit | repeat split; auto].
Qed.

Lemma keeps_scheduleReconnect s : keeps s (scheduleReconnect s).
Proof.
  unfold scheduleReconnect. destruct (_reconnectTimer s); [apply keeps_refl|].
  apply (keeps_trans _ (setTimeout Reconnect 5000 s)); [|repeat split; auto].
  now apply (keeps_setTimer Reconnect 5000 false).
Qed.

Lemma keeps_clear_tick s :
  keeps s (match _tickTimer s with
           | Some t => set_tickTimer None (clearTimeout t s)
           | None => s
           end).
Proof.
  destruct (_tickTimer s) as [t|]; [|apply keeps_refl].
  apply (keeps_trans _ _ _ (keeps_clearTimeout t s)). repeat split; auto.
Qed.

Lemma keeps_onclose s : keeps s (onclose s).
Proof.
  unfold onclose.
  set (s1 := set_isConnected false s).
  assert (K1 : keeps s s1) by (repeat split; auto).
  apply (keeps_trans _ _ _ K1), (keeps_trans _ _ _ (keeps_clear_tick s1)).
  eapply keeps_trans; [apply keeps_notifyState | apply keeps_scheduleReconnect].
Qed.

Lemma keeps_reconnect s : keeps s (reconnect s).
Proof.
  unfold reconnect.
  set (s1 := set_reconnectTimer None s).
  assert (K1 : keeps s s1) by (repeat split; auto).
  destruct (_isConnected s1); [exact K1|].
  destruct (_config s1); [|exact K1].
  apply (keeps_trans _ _ _ K1), keeps_connect.
Qed.

(** [send] with the id [nextId] has just produced. *)
Lemma inv_send_next method params k s :
  inv s ->
  inv (send (mkRequest (rn (S (_reqId s))) method params) k
         (set_reqId (S (_reqId s)) s)).
Proof.
  intros H. unfold send.
  set (s0 := set_reqId (S (_reqId s)) s).
  set (s1 := set_awaiting _ _).
  change (ws_open s1) with (ws_open s).
  destruct (ws_open s) eqn:Ho; cbn [negb].
  - assert (E : exists sock r, _ws s = Some (sock, r)).
    { unfold ws_open in Ho. destruct (_ws s) as [[sock r]|]; [eauto|discriminate]. }
    destruct E as (sock & r & E).
    unfold inv, ws_send. state_simpl. cbn [req_id req_method]. state_simpl.
    change (_ws s1) with (_ws s). rewrite E. subst s1 s0.
    state_simpl. rewrite request_timers_snoc, settles_snoc, app_nil_r. cbn [cb].
    apply bookkeeping_register, H.
  - unfold inv. subst s1 s0. state_simpl. rewrite settles_snoc.
    apply bookkeeping_reject_new, H.
Qed.

Lemma inv_doConnect nonce s : inv s -> inv (doConnect nonce s).
Proof.
  intros H. unfold doConnect. destruct (_config s); [|exact H].
  now apply inv_send_next.
Qed.

Lemma inv_sendMessage text s : inv s -> inv (sendMessage text s).
Proof. intros H. now apply inv_send_next. Qed.

Lemma inv_tick s : inv s -> inv (tick s).
Proof.
  intros H. unfold tick. destruct (ws_open s); [|exact H].
  now apply inv_send_next.
Qed.

Lemma inv_settle_registered id p o s :
  inv s -> _pendingRequests s !! id = Some p ->
  inv (emit (Settle p o) (set_pendingRequests (delete id (_pendingRequests s)) s)).
Proof.
  intros H Hp. unfold inv. state_simpl. rewrite settles_snoc.
  now apply bookkeeping_settle.
Qed.

Lemma inv_if_notifyMessage (b : bool) text messageId s :
  inv s -> inv (if b then notifyMessage text messageId s else s).
Proof.
  intros H. destruct b; [|exact H].
  eapply inv_keeps; [apply keeps_notifyMessage|exact H].
Qed.

Lemma inv_handleEvent e s : inv s -> inv (handleEvent e s).
Proof.
  intros H. unfold handleEvent.
  destruct (String.eqb (event e) "connect.challenge"); [now apply inv_doConnect|].
  destruct (String.eqb (event e) "chat").
  - cbv zeta. now do 2 apply inv_if_notifyMessage.
  - destruct (String.eqb (event e) "chat.reply").
    + now apply inv_if_notifyMessage.
    + now destruct (String.eqb (event e) "chat.stream").
Qed.

Lemma inv_handleFrame raw s : inv s -> inv (handleFrame raw s).
Proof.
  intros H. destruct raw as [|[frame|e]|]; try exact H.
  - destruct (_pendingRequests s !! res_id frame) as [p|] eqn:E.
    + rewrite (handleFrame_registered frame p s E). now apply inv_settle_registered.
    + now rewrite handleFrame_unregistered.
  - now apply inv_handleEvent.
Qed.

Lemma inv_disconnect s : inv s -> inv (disconnect s).
Proof.
  intros H. unfold disconnect.
  set (s1 := set_isConnected false (set_config None s)).
  assert (K1 : keeps s s1) by (repeat split; auto).
  set (s2 := match _reconnectTimer s1 with
             | Some t => set_reconnectTimer None (clearTimeout t s1)
             | None => s1
             end).
  assert (K2 : keeps s1 s2).
  { unfold s2. destruct (_reconnectTimer s1) as [t|]; [|apply keeps_refl].
    apply (keeps_trans _ _ _ (keeps_clearTimeout t s1)). repeat split; auto. }
  pose proof (keeps_clear_tick s2) as K3.
  set (s3 := match _tickTimer s2 with
             | Some t => set_tickTimer None (clearTimeout t s2)
             | None => s2
             end) in *.
  pose proof (keeps_ws_close s3) as K4.
  assert (H4 : inv (ws_close s3)).
  { eapply inv_keeps; [|exact H].
    eapply keeps_trans; [exact K1|]. eapply keeps_trans; [exact K2|].
    eapply keeps_trans; [exact K3|exact K4]. }
  unfold inv in *. state_simpl. eapply bookkeeping_clear, H4.
Qed.

Lemma inv_doConnect_connected o s : inv s -> inv (doConnect_connected o s).
Proof.
  intros H. destruct o as [payload|msg].
  - unfold doConnect_connected.
    set (s1 := notifyState connected (set_isConnected true s)).
    assert (K1 : keeps s s1).
    { apply (keeps_trans _ (set_isConnected true s));
        [repeat split; auto | apply keeps_notifyState]. }
    pose proof (keeps_clear_tick s1) as K2.
    set (s2 := match _tickTimer s1 with
               | Some t => clearTimeout t s1
               | None => s1
               end).
    assert (K2' : keeps s1 s2).
    { unfold s2. destruct (_tickTimer s1); [apply keeps_clearTimeout|apply keeps_refl]. }
    set (s3 := set_tickTimer _ _).
    assert (K3 : keeps s2 s3).
    { apply (keeps_trans _ (setInterval Tick (delay_of (tickInterval payload)) s2));
        [|repeat split; auto].
      now apply (keeps_setTimer Tick (delay_of (tickInterval payload)) true). }
    apply inv_send_next.
    eapply inv_keeps; [|exact H].
    eapply keeps_trans; [exact K1|]. eapply keeps_trans; [exact K2'|exact K3].
  - eapply inv_keeps; [apply keeps_notifyState|exact H].
Qed.

Lemma inv_continue p s : inv s -> inv (continue p s).
Proof.
  intros H. unfold continue.
  destruct (settled p (log s)) as [o|]; [|exact H].
  destruct (find_awaiting p (awaiting s)) as [k|]; [|exact H].
  set (s1 := set_awaiting _ s).
  assert (H1 : inv s1) by (eapply inv_keeps; [|exact H]; repeat split; auto).
  destruct k; cbn [run_continuation]; try exact H1.
  - now apply inv_doConnect_connected.
  - unfold doConnect_subscribed. destruct o; [exact H1|].
    eapply inv_keeps; [apply keeps_notifyState|exact H1].
Qed.

Lemma inv_requestTimeout id method p s0 s :
  inv s0 -> (id, p) ∈ request_timers (timers s0) -> keeps s0 s ->
  inv (requestTimeout id method p s).
Proof.
  intros H0 Hin K. pose proof (inv_keeps _ _ K H0) as H.
  destruct (_pendingRequests s !! id) as [q|] eqn:E.
  - assert (q = p) as ->.
    { destruct K as (_ & K2 & _). rewrite K2 in E.
      exact (bookkeeping_timeout_own _ _ _ _ _ H0 id p q Hin E). }
    rewrite (requestTimeout_registered id method p p s E).
    now apply inv_settle_registered.
  - now rewrite requestTimeout_unregistered.
Qed.

Lemma inv_fire t s : inv s -> inv (fire t s).
Proof.
  intros H. unfold fire.
  destruct (List.find _ (timers s)) as [x|] eqn:E; [|exact H].
  apply List.find_some in E as [Hx _]. apply list_elem_of_In in Hx.
  assert (K : keeps s (if repeating x then s else clearTimeout t s))
    by (destruct (repeating x); [apply keeps_refl|apply keeps_clearTimeout]).
  destruct (cb x) as [id method p| |] eqn:Ec; cbn [run_callback].
  - apply (inv_requestTimeout id method p s); [exact H| |exact K].
    unfold request_timers. apply list_elem_of_omap. exists x. now rewrite Ec.
  - eapply inv_keeps; [apply keeps_reconnect|]. now apply (inv_keeps _ _ K).
  - apply inv_tick. now apply (inv_keeps _ _ K).
Qed.

Lemma inv_init : inv initial.
Proof.
  unfold inv. cbn. split; [|split; [|split; [|split]]].
  - intros id p. rewrite lookup_empty. discriminate.
  - intros id id' p. rewrite lookup_empty. discriminate.
  - intros id p Hin. apply elem_of_nil in Hin. contradiction.
  - apply NoDup_nil_2.
  - intros p Hin. apply elem_of_nil in Hin. contradiction.
Qed.

Lemma inv_step i s : inv s -> inv (step i s).
Proof.
  intros H. destruct i; cbn [step].
  - eapply inv_keeps; [apply keeps_connect|exact H].
  - now apply inv_disconnect.
  - now apply inv_sendMessage.
  - eapply inv_keeps; [|exact H]. repeat split; auto.
  - eapply inv_keeps; [|exact H]. repeat split; auto.
  - eapply inv_keeps; [apply keeps_set_readyState|exact H].
  - now apply inv_handleFrame.
  - eapply inv_keeps; [apply keeps_notifyState|exact H].
  - eapply inv_keeps; [|exact H].
    eapply keeps_trans; [apply keeps_set_readyState|apply keeps_onclose].
  - now apply inv_fire.
  - now apply inv_continue.
Qed.

(** The bookkeeping invariant holds in every state the client can reach. *)
Lemma inv_run l s : inv s -> inv (run l s).
Proof.
  revert s. induction l as [|i l IH]; intros s H; [exact H|].
  apply IH, inv_step, H.
Qed.

Lemma settle_count_absent p l : p ∉ settles l -> settle_count p l = 0%nat.
Proof.
  unfold settle_count, settles. induction l as [|e l IH]; [reflexivity|].
  destruct e as [? ? ?|? ?|? ?|? ?|?|q o]; cbn; try exact IH.
  intros Hn. destruct (Nat.eqb_spec p q) as [->|Hne].
  - exfalso. apply Hn. left.
  - apply IH. intros Hin. apply Hn. now right.
Qed.

Lemma settle_count_NoDup p l : NoDup (settles l) -> (settle_count p l <= 1)%nat.
Proof.
  unfold settle_count, settles. induction l as [|e l IH]; [cbn; lia|].
  destruct e as [? ? ?|? ?|? ?|? ?|?|q o]; cbn; try exact IH.
  intros Hnd. apply NoDup_cons in Hnd as [Hq Hnd].
  destruct (Nat.eqb_spec p q) as [->|Hne]; [|now apply IH].
  cbn. pose proof (settle_count_absent q l Hq) as E.
  unfold settle_count in E. rewrite E. lia.
Qed.

(** C4.  Along every run of the client from its initial state, whatever
    the calls, frames, socket events, timers and resumptions in it, no
    promise of [send] is settled more than once.  For a request registered
    for the promise [p]: its response settles [p] with the response's
    outcome and removes the registration, after which the request's timeout
    changes nothing; and its timeout rejects [p] with "Request <method>
    timed out" and removes the registration, after which a response for
    that id changes nothing. *)
Theorem request_settled_once (l : list input) (q : promise) (s : state)
    (frame : GatewayResponse) (method : string) (p : promise) :
  (settle_count q (log (run l initial)) <= 1)%nat /\
  (_pendingRequests s !! res_id frame = Some p ->
     (handleFrame (Frame (Res frame)) s
        = emit (Settle p (outcome_of frame))
            (set_pendingRequests (delete (res_id frame) (_pendingRequests s)) s) /\
      requestTimeout (res_id frame) method p (handleFrame (Frame (Res frame)) s)
        = handleFrame (Frame (Res frame)) s) /\
     (requestTimeout (res_id frame) method p s
        = emit (Settle p (Rejected ("Request " +:+ method +:+ " timed out")))
            (set_pendingRequests (delete (res_id frame) (_pendingRequests s)) s) /\
      handleFrame (Frame (Res frame)) (requestTimeout (res_id frame) method p s)
        = requestTimeout (res_id frame) method p s)).
Proof.
  split.
  - apply settle_count_NoDup. now destruct (inv_run l initial inv_init) as (_ & _ & _ & H & _).
  - intros Hp. split.
    + rewrite (handleFrame_registered frame p s Hp). split; [reflexivity|].
      apply requestTimeout_unregistered. state_simpl. apply lookup_delete_eq.
    + rewrite (requestTimeout_registered _ method p p s Hp). split; [reflexivity|].
      apply handleFrame_unregistered. state_simpl. apply lookup_delete_eq.
Qed.

Lemma request_settled_once_witness :
  (settle_count 3 (log (run reply_then_timeout initial)) <= 1)%nat /\
  (handleFrame (Frame (Res (mkResponse "rn-3" true None None))) message_pending
     = emit (Settle 3 (Resolved None))
         (set_pendingRequests (delete "rn-3" (_pendingRequests message_pending))
            message_pending) /\
   requestTimeout "rn-3" "chat.send" 3
       (handleFrame (Frame (Res (mkResponse "rn-3" true None None))) message_pending)
     = handleFrame (Frame (Res (mkResponse "rn-3" true None None))) message_pending) /\
  (requestTimeout "rn-3" "chat.send" 3 message_pending
     = emit (Settle 3 (Rejected "Request chat.send timed out"))
         (set_pendingRequests (delete "rn-3" (_pendingRequests message_pending))
            message_pending) /\
   handleFrame (Frame (Res (mkResponse "rn-3" true None None)))
       (requestTimeout "rn-3" "chat.send" 3 message_pending)
     = requestTimeout "rn-3" "chat.send" 3 message_pending).
Proof.
  destruct (request_settled_once reply_then_timeout 3 message_pending
              (mkResponse "rn-3" true None None) "chat.send" 3) as [H1 H2].
  split; [exact H1|]. apply H2. vm_compute. reflexivity.
Defined.

(** In the run [reply_then_timeout] the promise of the request is settled
    once, by the response; the timeout that fires later adds nothing. *)
Lemma reply_then_timeout_settles_once :
  settle_count 3 (log (run reply_then_timeout initial)) = 1%nat /\
  settled 3 (log (run reply_then_timeout initial)) = Some (Resolved None).
Proof. split; vm_compute; reflexivity. Qed.

(** *** The timer slots in reachable states *)

(** The armed timers [l], the timer counter [n] and the two slots: ids are
    distinct and below the counter, the reconnection timers are the one in
    the reconnect slot, the id in the tick slot is below the counter and
    belongs to no timer of another kind, and the keepalives are the one in
    the tick slot. *)
Definition timers_wf (l : list timer) (n : timer_id)
    (rs ts : option timer_id) : Prop :=
  NoDup (tid <$> l) /\
  Forall (fun x => (tid x < n)%nat) l /\
  List.filter is_reconnect l
    = match rs with
      | Some t => [mkTimer t Reconnect 5000 false]
      | None => []
      end /\
  Forall (fun x => ts = Some (tid x) -> cb x = Tick) l /\
  Forall (fun x => cb x = Tick -> ts = Some (tid x)) l /\
  (forall t, ts = Some t -> (t < n)%nat).

Definition tinv (s : state) : Prop :=
  timers_wf (timers s) (nextTimer s) (_reconnectTimer s) (_tickTimer s).

Lemma tinv_slots_ok s : tinv s -> slots_ok s.
Proof. intros (_ & _ & H3 & H4 & H5 & _). repeat split; assumption. Qed.

Lemma filter_is_reconnect_comm (P : timer -> Prop) `{!forall x, Decision (P x)} l :
  List.filter is_reconnect (filter P l) = filter P (List.filter is_reconnect l).
Proof.
  induction l as [|x l IH]; [reflexivity|].
  destruct (decide (P x)) as [Hx|Hx]; destruct (is_reconnect x) eqn:E.
  - rewrite (filter_cons_True P x l Hx). cbn [List.filter]. rewrite E.
    rewrite (filter_cons_True P x _ Hx). now rewrite IH.
  - rewrite (filter_cons_True P x l Hx). cbn [List.filter]. now rewrite E.
  - rewrite (filter_cons_False P x l Hx). cbn [List.filter]. rewrite E.
    now rewrite (filter_cons_False P x _ Hx).
  - rewrite (filter_cons_False P x l Hx). cbn [List.filter]. now rewrite E.
Qed.

Lemma NoDup_fmap_filter (P : timer -> Prop) `{!forall x, Decision (P x)} l :
  NoDup (tid <$> l) -> NoDup (tid <$> filter P l).
Proof.
  intros Hl. apply (sublist_NoDup _ _ Hl), fmap_sublist, sublist_filter.
Qed.

Lemma Forall_filter (Q P : timer -> Prop) `{!forall x, Decision (P x)} l :
  Forall Q l -> Forall Q (filter P l).
Proof.
  rewrite !Forall_forall. intros Hl x Hx. apply list_elem_of_filter in Hx.
  apply Hl. tauto.
Qed.

Lemma NoDup_tid_eq l x y :
  NoDup (tid <$> l) -> x ∈ l -> y ∈ l -> tid x = tid y -> x = y.
Proof.
  induction l as [|z l IH]; [intros _ Hx; now apply elem_of_nil in Hx|].
  cbn. rewrite NoDup_cons, !elem_of_cons, list_elem_of_fmap.
  intros [Hz Hl] [->|Hx] [->|Hy] E; auto.
  - exfalso. apply Hz. now exists y.
  - exfalso. apply Hz. now exists x.
Qed.

Section TimersWf.

Variables (l : list timer) (n : timer_id) (rs ts : option timer_id).
Hypothesis (Hwf : timers_wf l n rs ts).

Local Ltac split6 := split; [|split; [|split; [|split; [|split]]]].

Lemma fresh_tid : n ∉ tid <$> l.
Proof.
  destruct Hwf as (_ & H2 & _). rewrite list_elem_of_fmap. intros (x & E & Hx).
  rewrite Forall_forall in H2. apply H2 in Hx. lia.
Qed.

Lemma NoDup_tid_snoc x : tid x = n -> NoDup (tid <$> l ++ [x]).
Proof.
  intros E. pose proof fresh_tid as Hf. destruct Hwf as (H1 & _).
  rewrite fmap_app. apply NoDup_app. repeat split; [exact H1| |apply NoDup_singleton].
  intros t Ht. cbn. rewrite list_elem_of_singleton, E. intros ->. auto.
Qed.

Lemma below_snoc x : tid x = n -> Forall (fun y => (tid y < S n)%nat) (l ++ [x]).
Proof.
  intros E. destruct Hwf as (_ & H2 & _).
  apply Forall_app. split; [|apply Forall_singleton; lia].
  eapply Forall_impl; [exact H2|]. cbn. intros; lia.
Qed.

(** A request timeout is armed. *)
Lemma timers_wf_add id method p ms rep :
  timers_wf (l ++ [mkTimer n (RequestTimeout id method p) ms rep]) (S n) rs ts.
Proof.
  pose proof (NoDup_tid_snoc (mkTimer n (RequestTimeout id method p) ms rep) eq_refl).
  pose proof (below_snoc (mkTimer n (RequestTimeout id method p) ms rep) eq_refl).
  destruct Hwf as (H1 & H2 & H3 & H4 & H5 & H6). split6; try assumption.
  - rewrite List.filter_app, H3. cbn. apply app_nil_r.
  - apply Forall_app. split; [exact H4|]. repeat constructor. cbn.
    intros E. apply H6 in E. lia.
  - apply Forall_app. split; [exact H5|]. repeat constructor. cbn. discriminate.
  - intros t E. apply H6 in E. lia.
Qed.

(** [scheduleReconnect] with an empty slot. *)
Lemma timers_wf_add_reconnect :
  rs = None -> timers_wf (l ++ [mkTimer n Reconnect 5000 false]) (S n) (Some n) ts.
Proof.
  intros Hr.
  pose proof (NoDup_tid_snoc (mkTimer n Reconnect 5000 false) eq_refl).
  pose proof (below_snoc (mkTimer n Reconnect 5000 false) eq_refl).
  destruct Hwf as (H1 & H2 & H3 & H4 & H5 & H6). split6; try assumption.
  - rewrite List.filter_app, H3, Hr. reflexivity.
  - apply Forall_app. split; [exact H4|]. repeat constructor. cbn.
    intros E. apply H6 in E. lia.
  - apply Forall_app. split; [exact H5|]. repeat constructor. cbn. discriminate.
  - intros t E. apply H6 in E. lia.
Qed.

(** The keepalive is started while none is running. *)
Lemma timers_wf_add_tick ms :
  ts = None -> timers_wf (l ++ [mkTimer n Tick ms true]) (S n) rs (Some n).
Proof.
  intros Hts.
  pose proof (NoDup_tid_snoc (mkTimer n Tick ms true) eq_refl).
  pose proof (below_snoc (mkTimer n Tick ms true) eq_refl).
  destruct Hwf as (H1 & H2 & H3 & H4 & H5 & H6). split6; try assumption.
  - rewrite List.filter_app, H3. cbn. apply app_nil_r.
  - apply Forall_app. split; [|repeat constructor].
    rewrite Forall_forall in *. intros x Hx [= E]. apply H2 in Hx. lia.
  - apply Forall_app. split; [|repeat constructor].
    rewrite Forall_forall in *. intros x Hx E. apply H5 in E; [|exact Hx].
    congruence.
  - intros t [= <-]. lia.
Qed.

(** A timer other than the reconnection timer goes away. *)
Lemma timers_wf_remove (P : timer -> Prop) `{!forall x, Decision (P x)} :
  (forall x, x ∈ l -> is_reconnect x = true -> P x) ->
  timers_wf (filter P l) n rs ts.
Proof.
  intros HP. destruct Hwf as (H1 & H2 & H3 & H4 & H5 & H6). split6.
  - now apply NoDup_fmap_filter.
  - now apply Forall_filter.
  - now rewrite reconnect_timers_filter.
  - now apply Forall_filter.
  - now apply Forall_filter.
  - exact H6.
Qed.

(** The reconnection timer goes away and its slot is emptied. *)
Lemma timers_wf_remove_reconnect t :
  rs = Some t -> timers_wf (filter (fun x => tid x ≠ t) l) n None ts.
Proof.
  intros Hr. destruct Hwf as (H1 & H2 & H3 & H4 & H5 & H6). split6.
  - now apply NoDup_fmap_filter.
  - now apply Forall_filter.
  - rewrite filter_is_reconnect_comm, H3, Hr.
    rewrite filter_cons_False; [reflexivity|]. cbn. intros H. now apply H.
  - now apply Forall_filter.
  - now apply Forall_filter.
  - exact H6.
Qed.

(** The timer in the tick slot is no reconnection timer. *)
Lemma tick_not_reconnect t x :
  ts = Some t -> x ∈ l -> is_reconnect x = true -> tid x ≠ t.
Proof.
  destruct Hwf as (_ & _ & _ & H4 & _). rewrite Forall_forall in H4.
  intros Ht Hx Hr E. unfold is_reconnect in Hr.
  rewrite (H4 x Hx) in Hr; [discriminate|]. now rewrite E.
Qed.

(** The keepalive goes away and its slot is emptied. *)
Lemma timers_wf_remove_tick t :
  ts = Some t -> timers_wf (filter (fun x => tid x ≠ t) l) n rs None.
Proof.
  intros Ht. pose proof (tick_not_reconnect t) as Hn.
  destruct Hwf as (H1 & H2 & H3 & H4 & H5 & H6). split6.
  - now apply NoDup_fmap_filter.
  - now apply Forall_filter.
  - rewrite reconnect_timers_filter; [exact H3|]. intros x Hx Hr. now apply Hn.
  - apply Forall_forall. intros x _ E. discriminate E.
  - rewrite Forall_forall in *. intros x Hx Hc.
    apply list_elem_of_filter in Hx as [Hid Hx].
    exfalso. apply Hid. specialize (H5 x Hx Hc). congruence.
  - intros t' E. discriminate E.
Qed.

(** An armed timer that is no reconnection timer has another id than the
    reconnection timers. *)
Lemma other_not_reconnect x y :
  x ∈ l -> is_reconnect x = false -> y ∈ l -> is_reconnect y = true -> tid y ≠ tid x.
Proof.
  destruct Hwf as (H1 & _). intros Hx Hxr Hy Hyr E.
  assert (y = x) by (now apply (NoDup_tid_eq l)). subst y. congruence.
Qed.

(** An armed reconnection timer is the one in the slot. *)
Lemma reconnect_in_slot x :
  x ∈ l -> is_reconnect x = true -> rs = Some (tid x).
Proof.
  destruct Hwf as (_ & _ & H3 & _). intros Hx Hr.
  assert (Hin : In x (List.filter is_reconnect l))
    by (apply List.filter_In; split; [now apply list_elem_of_In|exact Hr]).
  rewrite H3 in Hin. destruct rs as [t|]; [|contradiction].
  destruct Hin as [<-|[]]. reflexivity.
Qed.

(** An armed keepalive is repeating or not, but it is the one in the slot. *)
Lemma tick_in_slot x : x ∈ l -> cb x = Tick -> ts = Some (tid x).
Proof.
  destruct Hwf as (_ & _ & _ & _ & H5 & _). rewrite Forall_forall in H5.
  intros Hx Hc. now apply H5.
Qed.

End TimersWf.

(** [s'] has the timers and the timer slots of [s]. *)
Definition same_timers (s s' : state) : Prop :=
  timers s' = timers s /\ nextTimer s' = nextTimer s /\
  _reconnectTimer s' = _reconnectTimer s /\ _tickTimer s' = _tickTimer s.

Lemma tinv_same_timers s s' : same_timers s s' -> tinv s -> tinv s'.
Proof. intros (E1 & E2 & E3 & E4). unfold tinv. now rewrite E1, E2, E3, E4. Qed.

Lemma same_timers_refl s : same_timers s s.
Proof. repeat split. Qed.

Lemma same_timers_trans s1 s2 s3 :
  same_timers s1 s2 -> same_timers s2 s3 -> same_timers s1 s3.
Proof.
  intros (A1 & A2 & A3 & A4) (B1 & B2 & B3 & B4). repeat split; congruence.
Qed.

Lemma same_timers_notifyState st s : same_timers s (notifyState st s).
Proof. unfold notifyState. destruct (_onStateChange s); repeat split. Qed.

Lemma same_timers_notifyMessage text messageId s :
  same_timers s (notifyMessage text messageId s).
Proof. unfold notifyMessage. destruct (_onMessage s); repeat split. Qed.

Lemma same_timers_ws_close s : same_timers s (ws_close s).
Proof. unfold ws_close. destruct (_ws s) as [[sock r]|]; repeat split. Qed.

Lemma same_timers_ws_send frame s : same_timers s (ws_send frame s).
Proof. unfold ws_send. destruct (_ws s) as [[sock r]|]; repeat split. Qed.

Lemma same_timers_set_readyState sock r s : same_timers s (set_readyState sock r s).
Proof.
  unfold set_readyState. destruct (_ws s) as [[sock' r']|]; [|repeat split].
  destruct (Nat.eqb sock sock'); repeat split.
Qed.

Lemma same_timers_connect config s : same_timers s (connect config s).
Proof.
  unfold connect.
  set (s1 := notifyState connecting (set_isConnected false (set_config (Some config) s))).
  assert (K1 : same_timers s s1).
  { apply (same_timers_trans _ (set_isConnected false (set_config (Some config) s)));
      [repeat split | apply same_timers_notifyState]. }
  apply (same_timers_trans _ _ _ K1).
  apply (same_timers_trans _ _ _ (same_timers_ws_close s1)). repeat split.
Qed.

Lemma tinv_send frame k s : tinv s -> tinv (send frame k s).
Proof.
  intros H. unfold send.
  set (s1 := set_awaiting _ _).
  assert (H1 : tinv s1) by exact H.
  destruct (negb (ws_open s1)); [exact H1|].
  set (s2 := ws_send frame _).
  assert (K2 : same_timers s1 s2).
  { apply (same_timers_trans _ (set_pendingRequests
                                  (<[req_id frame := nextPromise s]> (_pendingRequests s1)) s1));
      [repeat split | apply same_timers_ws_send]. }
  pose proof (tinv_same_timers _ _ K2 H1) as H2.
  unfold tinv. state_simpl. apply (timers_wf_add _ _ _ _ H2).
Qed.

Lemma tinv_doConnect nonce s : tinv s -> tinv (doConnect nonce s).
Proof.
  intros H. unfold doConnect. destruct (_config s); [|exact H].
  now apply tinv_send.
Qed.

Lemma tinv_tick s : tinv s -> tinv (tick s).
Proof.
  intros H. unfold tick. destruct (ws_open s); [|exact H]. now apply tinv_send.
Qed.

Lemma tinv_if_notifyMessage (b : bool) text messageId s :
  tinv s -> tinv (if b then notifyMessage text messageId s else s).
Proof.
  intros H. destruct b; [|exact H].
  eapply tinv_same_timers; [apply same_timers_notifyMessage|exact H].
Qed.

Lemma tinv_handleFrame raw s : tinv s -> tinv (handleFrame raw s).
Proof.
  intros H. destruct raw as [|[frame|e]|]; try exact H.
  - cbn [handleFrame]. destruct (_pendingRequests s !! res_id frame); [|exact H].
    destruct (res_ok frame); exact H.
  - cbn [handleFrame]. unfold handleEvent.
    destruct (String.eqb (event e) "connect.challenge"); [now apply tinv_doConnect|].
    destruct (String.eqb (event e) "chat").
    + cbv zeta. now do 2 apply tinv_if_notifyMessage.
    + destruct (String.eqb (event e) "chat.reply").
      * now apply tinv_if_notifyMessage.
      * now destruct (String.eqb (event e) "chat.stream").
Qed.

(** The keepalive is cancelled and its slot emptied. *)
Lemma tinv_clear_tick s :
  tinv s ->
  tinv (match _tickTimer s with
        | Some t => set_tickTimer None (clearTimeout t s)
        | None => s
        end).
Proof.
  intros H. destruct (_tickTimer s) as [t|] eqn:E; [|exact H].
  unfold tinv in *. state_simpl. rewrite E in H.
  now apply (timers_wf_remove_tick _ _ _ _ H).
Qed.

Lemma tinv_scheduleReconnect s : tinv s -> tinv (scheduleReconnect s).
Proof.
  intros H. unfold scheduleReconnect. destruct (_reconnectTimer s) eqn:E; [exact H|].
  unfold tinv in *. state_simpl. rewrite E in H.
  now apply (timers_wf_add_reconnect _ _ _ _ H).
Qed.

Lemma tinv_onclose s : tinv s -> tinv (onclose s).
Proof.
  intros H. unfold onclose.
  apply tinv_scheduleReconnect.
  eapply tinv_same_timers; [apply same_timers_notifyState|].
  apply (tinv_clear_tick (set_isConnected false s)), H.
Qed.

Lemma tinv_disconnect s : tinv s -> tinv (disconnect s).
Proof.
  intros H. unfold disconnect.
  set (s1 := set_isConnected false (set_config None s)).
  assert (H1 : tinv s1) by exact H.
  set (s2 := match _reconnectTimer s1 with
             | Some t => set_reconnectTimer None (clearTimeout t s1)
             | None => s1
             end).
  assert (H2 : tinv s2).
  { unfold s2. destruct (_reconnectTimer s1) as [t|] eqn:E; [|exact H1].
    unfold tinv in *. state_simpl. rewrite E in H1.
    now apply (timers_wf_remove_reconnect _ _ _ _ H1). }
  pose proof (tinv_clear_tick s2 H2) as H3.
  eapply tinv_same_timers; [|exact H3].
  eapply same_timers_trans; [apply same_timers_ws_close|repeat split].
Qed.

Lemma tinv_continue p s : tinv s -> tinv (continue p s).
Proof.
  intros H. unfold continue.
  destruct (settled p (log s)) as [o|]; [|exact H].
  destruct (find_awaiting p (awaiting s)) as [k|]; [|exact H].
  set (s1 := set_awaiting _ s).
  assert (H1 : tinv s1) by exact H.
  destruct k; cbn [run_continuation]; try exact H1.
  - destruct o as [payload|msg]; cbn [doConnect_connected].
    + set (s2 := notifyState connected (set_isConnected true s1)).
      assert (H2 : tinv s2)
        by (eapply tinv_same_timers; [apply same_timers_notifyState|exact H1]).
      apply tinv_send.
      destruct (_tickTimer s2) as [t0|] eqn:E.
      * unfold tinv in *. state_simpl. rewrite E in H2.
        apply (timers_wf_add_tick _ _ _ _
                 (timers_wf_remove_tick _ _ _ _ H2 t0 eq_refl)).
        reflexivity.
      * unfold tinv in *. state_simpl. rewrite E in H2.
        now apply (timers_wf_add_tick _ _ _ _ H2).
    + eapply tinv_same_timers; [apply same_timers_notifyState|exact H1].
  - unfold doConnect_subscribed. destruct o; [exact H1|].
    eapply tinv_same_timers; [apply same_timers_notifyState|exact H1].
Qed.

Lemma tinv_fire t s : tinv s -> tinv (fire t s).
Proof.
  intros H. unfold fire.
  destruct (List.find _ (timers s)) as [x|] eqn:E; [|exact H].
  apply List.find_some in E as [Hx Ht]. apply list_elem_of_In in Hx.
  apply Nat.eqb_eq in Ht.
  destruct (is_reconnect x) eqn:Er.
  - pose proof (reconnect_in_slot _ _ _ _ H x Hx Er) as Hslot. rewrite Ht in Hslot.
    assert (Hx' : In x (List.filter is_reconnect (timers s)))
      by (apply List.filter_In; split; [now apply list_elem_of_In|exact Er]).
    destruct H as (H1 & H2 & H3 & H4 & H5 & H6). rewrite H3, Hslot in Hx'.
    destruct Hx' as [<-|[]]. cbn [repeating cb run_callback]. unfold reconnect.
    set (s1 := set_reconnectTimer None (clearTimeout t s)).
    assert (T1 : tinv s1).
    { unfold tinv, s1. state_simpl.
      apply (timers_wf_remove_reconnect (timers s) (nextTimer s) (_reconnectTimer s)).
      - repeat split; assumption.
      - exact Hslot. }
    destruct (_isConnected s1); [exact T1|]. destruct (_config s1); [|exact T1].
    eapply tinv_same_timers; [apply same_timers_connect|exact T1].
  - set (s1 := if repeating x then s else clearTimeout t s).
    assert (T1 : tinv s1).
    { unfold s1. destruct (repeating x); [exact H|].
      unfold tinv. state_simpl. apply (timers_wf_remove _ _ _ _ H).
      intros y Hy Hr. rewrite <- Ht.
      now apply (other_not_reconnect _ _ _ _ H x y). }
    destruct (cb x) as [id method p| |] eqn:Ec; cbn [run_callback].
    + unfold requestTimeout. destruct (_pendingRequests s1 !! id); exact T1.
    + unfold is_reconnect in Er. rewrite Ec in Er. discriminate.
    + now apply tinv_tick.
Qed.

Lemma tinv_init : tinv initial.
Proof.
  unfold tinv. cbn. split; [|split; [|split; [|split; [|split]]]].
  - constructor.
  - constructor.
  - reflexivity.
  - constructor.
  - constructor.
  - intros t E. discriminate E.
Qed.

Lemma tinv_step i s : tinv s -> tinv (step i s).
Proof.
  intros H. destruct i; cbn [step]; try exact H.
  - eapply tinv_same_timers; [apply same_timers_connect|exact H].
  - now apply tinv_disconnect.
  - now apply tinv_send.
  - eapply tinv_same_timers; [apply same_timers_set_readyState|exact H].
  - now apply tinv_handleFrame.
  - eapply tinv_same_timers; [apply same_timers_notifyState|exact H].
  - apply tinv_onclose.
    eapply tinv_same_timers; [apply same_timers_set_readyState|exact H].
  - now apply tinv_fire.
  - now apply tinv_continue.
Qed.

(** In every state the client can reach the timer slots agree with the
    armed timers. *)
Lemma slots_ok_run l : slots_ok (run l initial).
Proof.
  apply tinv_slots_ok. generalize tinv_init. generalize initial.
  induction l as [|i l IH]; intros s H; [exact H|].
  apply IH, tinv_step, H.
Qed.

End GatewayFacts.

(** * Further properties *)

(** ** [trim] is idempotent *)

Module TrimFacts.
Import JsString.

(** [trimStart] returns the empty string or a string that starts with a
    character that is not white space. *)
Lemma trimStart_head s :
  trimStart s = EmptyString \/
  exists a t, trimStart s = String a t /\ is_whitespace a = false.
Proof.
  induction s as [|a s IH]; cbn; [now left|].
  destruct (is_whitespace a) eqn:E; [exact IH|]. right. eauto.
Qed.

Lemma trimEnd_head a t :
  is_whitespace a = false -> exists t', trimEnd (String a t) = String a t'.
Proof. intros E. cbn. destruct (trimEnd t); rewrite ?E; eauto. Qed.

Lemma trimEnd_idem s : trimEnd (trimEnd s) = trimEnd s.
Proof.
  induction s as [|a s IH]; [reflexivity|]. cbn.
  destruct (trimEnd s) as [|b u] eqn:E.
  - destruct (is_whitespace a) eqn:Ea; [reflexivity|]. cbn. now rewrite Ea.
  - cbn [trimEnd] in *. rewrite IH. reflexivity.
Qed.

Lemma trim_idem s : trim (trim s) = trim s.
Proof.
  unfold trim. destruct (trimStart_head s) as [E|(a & t & E & Ea)]; rewrite E.
  - reflexivity.
  - destruct (trimEnd_head a t Ea) as (t' & E'). rewrite E'.
    cbn [trimStart]. rewrite Ea, <- E'. apply trimEnd_idem.
Qed.

(** A non-empty result of [trim] is not white space only. *)
Lemma trim_not_whitespace s :
  truthy (trim s) = true -> whitespace_only (trim s) = false.
Proof.
  intros H. rewrite <- trim_idem, JsStringFacts.truthy_trim in H.
  now destruct (whitespace_only (trim s)).
Qed.

End TrimFacts.

(** ** The orchestrator along every run *)

Module ConversationRuns.
Import Conversation ConversationFacts.

(** Unfold the functions of the module down to field updates. *)
Ltac unfold_conv :=
  unfold start, stop, interrupt, setSilenceThreshold, onGatewayMessage,
    onPartialResult, fire, settle, run_callback, resume, init, guardTimeout,
    onSilenceDetected, responseTimeout, beginListening_started,
    beginListening_failed, after_beginListening, stop_stopped,
    onSilenceDetected_stopped, onSilenceDetected_sent,
    onSilenceDetected_sendFailed, handleAssistantReply_spoken,
    handleAssistantReply, resetSilenceTimer, clearSilenceTimer, beginListening,
    setPhase, notifyPhase, notifyTranscript, notifyMessage, stopSpeaking,
    speak, TTS.stopSpeaking, TTS.speak, TTS.onFinished, TTS.onStart in *.

(** Decide every test the code makes, innermost first. *)
Ltac break_ifs :=
  repeat match goal with
  | |- context [match ?x with _ => _ end] =>
      match x with
      | context [match _ with _ => _ end] => fail 1
      | _ => destruct x eqn:?
      end; state_simpl
  end.

Lemma run_snoc l i s : run (l ++ [i]) s = step i (run l s).
Proof. unfold run. now rewrite fold_left_app. Qed.

(** An invariant of [step] holds along every run. *)
Lemma run_invariant (P : state -> Prop) :
  (forall i s, P s -> P (step i s)) -> forall l s, P s -> P (run l s).
Proof.
  intros Hstep l. induction l as [|i l IH]; intros s H; [exact H|].
  cbn. apply IH, Hstep, H.
Qed.

(** *** What is sent is never empty *)

(** A text that is not white space only and that [trim] leaves as it is. *)
Definition trimmed_text (t : string) : Prop :=
  JsString.whitespace_only t = false /\ JsString.trim t = t.

Definition clean_effect (e : effect) : Prop :=
  match e with
  | GatewaySendMessage t => trimmed_text t
  | OnNewMessage _ m => role m = user -> trimmed_text (text m)
  | OnTranscript _ t true => trimmed_text t
  | _ => True
  end.

Lemma trimmed_text_trim r :
  JsString.truthy (JsString.trim r) = true -> trimmed_text (JsString.trim r).
Proof.
  intros H. split; [now apply TrimFacts.trim_not_whitespace|apply TrimFacts.trim_idem].
Qed.

Lemma clean_step i s : Forall clean_effect (log s) -> Forall clean_effect (log (step i s)).
Proof.
  intros H. destruct i; cbn [step]; unfold_conv; state_simpl.
  all: break_ifs.
  all: try exact H.
  all: rewrite ?Forall_app; repeat split; try exact H; repeat constructor; cbn;
    try discriminate.
  all: intros; apply trimmed_text_trim; now apply negb_false_iff.
Qed.

(** X1.  Along every run of the orchestrator from its initial state, every
    text handed to [Gateway.sendMessage], every user chat message handed to
    the message handler and every final transcript handed to the transcript
    handler is non-empty, not white space only, and already trimmed. *)
Theorem sent_text_never_empty (l : list input) :
  Forall clean_effect (log (run l initial)).
Proof.
  apply (run_invariant (fun s => Forall clean_effect (log s)) clean_step).
  constructor.
Qed.

(** *** No more replies than turns *)

Definition is_send (e : effect) : bool :=
  match e with GatewaySendMessage _ => true | _ => false end.

Definition is_assistant_message (e : effect) : bool :=
  match e with
  | OnNewMessage _ m => match role m with assistant => true | user => false end
  | _ => false
  end.

Definition is_speak (e : effect) : bool :=
  match e with Speech (TTS.SpeechSpeak _) => true | _ => false end.

Definition count (f : effect -> bool) (l : list effect) : nat :=
  length (List.filter f l).

Lemma count_app f l l' : count f (l ++ l') = (count f l + count f l')%nat.
Proof. unfold count. now rewrite List.filter_app, length_app. Qed.

(** Replies accepted so far, plus the one still awaited, against the turns
    sent. *)
Definition replies_bounded (s : state) : Prop :=
  (count is_assistant_message (log s) + (if _waitingForResponse s then 1 else 0)
   <= count is_send (log s))%nat /\
  (count is_speak (log s) + (if _waitingForResponse s then 1 else 0)
   <= count is_send (log s))%nat.

Lemma replies_bounded_step i s : replies_bounded s -> replies_bounded (step i s).
Proof.
  intros [H1 H2]. unfold replies_bounded in *.
  destruct i; cbn [step]; unfold_conv; state_simpl.
  all: break_ifs.
  all: rewrite ?count_app; cbn; try (split; lia).
  all: repeat match goal with
       | E : _waitingForResponse _ = _ |- _ => rewrite E in *
       end; cbn; split; lia.
Qed.

(** X2.  Along every run of the orchestrator from its initial state, the
    assistant chat messages handed to the message handler are at most as
    many as the texts handed to [Gateway.sendMessage], and so are the
    utterances handed to the speech engine: a turn is answered and spoken
    at most once, however many reply events the gateway delivers. *)
Theorem replies_at_most_turns (l : list input) :
  (count is_assistant_message (log (run l initial))
   <= count is_send (log (run l initial)))%nat /\
  (count is_speak (log (run l initial))
   <= count is_send (log (run l initial)))%nat.
Proof.
  assert (H : replies_bounded (run l initial)).
  { apply (run_invariant replies_bounded replies_bounded_step).
    split; cbn; lia. }
  destruct H as [H1 H2]. split; lia.
Qed.

(** *** The phase the caller sees *)

(** No phase occurs twice in a row. *)
Fixpoint no_repeat (l : list ConversationPhase) : Prop :=
  match l with
  | p :: (q :: _) as rest => p <> q /\ no_repeat rest
  | _ => True
  end.

Lemma phases_app l l' : phases (l ++ l') = phases l ++ phases l'.
Proof. unfold phases. apply omap_app. Qed.

Lemma no_repeat_snoc l q p :
  no_repeat l -> last l = Some q -> q <> p -> no_repeat (l ++ [p]).
Proof.
  induction l as [|a [|b l] IH]; cbn; intros H Hl Hne; [discriminate| |].
  - injection Hl as <-. auto.
  - destruct H as [Hab H]. split; [exact Hab|]. now apply IH.
Qed.

(** The phase changes reported so far lead from Idle to the current phase. *)
Definition phase_reported (s : state) : Prop :=
  is_Some (_onPhaseChange s) /\
  last (idle :: phases (log s)) = Some (_phase s) /\
  no_repeat (idle :: phases (log s)).

Lemma phase_reported_change h p s :
  last (idle :: phases (log s)) = Some (_phase s) ->
  no_repeat (idle :: phases (log s)) ->
  _phase s <> p ->
  last (idle :: phases (log s ++ [OnPhaseChange h p])) = Some p /\
  no_repeat (idle :: phases (log s ++ [OnPhaseChange h p])).
Proof.
  intros Hl Hn Hne. rewrite phases_app.
  change (phases [OnPhaseChange h p]) with [p].
  change (idle :: phases (log s) ++ [p]) with ((idle :: phases (log s)) ++ [p]).
  split; [apply last_snoc|]. now apply (no_repeat_snoc _ (_phase s)).
Qed.

Lemma phase_reported_step i s : phase_reported s -> phase_reported (step i s).
Proof.
  intros (Hh & Hl & Hn). unfold phase_reported in *.
  destruct Hh as [h Hh].
  destruct i; cbn [step]; unfold_conv; state_simpl.
  all: break_ifs.
  all: try rewrite Hh in *; try discriminate.
  all: split; [eauto|].
  all: rewrite ?phases_app; cbn [phases omap]; rewrite ?app_nil_r;
    try (split; assumption).
  all: try (split; congruence).
  all: try (rewrite <- phases_app; apply phase_reported_change; assumption).
Qed.

(** X3.  Once [init] has registered the handlers on the initial state, along
    every run the phases handed to the phase handler, read from Idle on, end
    in the orchestrator's current phase and never name the same phase twice
    in a row: a caller that starts from Idle and stores each reported phase
    always holds the current one. *)
Theorem reported_phase_is_current (hp ht hm : handler) (l : list input) :
  last (idle :: phases (log (run l (init hp ht hm initial))))
    = Some (_phase (run l (init hp ht hm initial))) /\
  no_repeat (idle :: phases (log (run l (init hp ht hm initial)))).
Proof.
  assert (H : phase_reported (run l (init hp ht hm initial))).
  { apply (run_invariant phase_reported phase_reported_step).
    split; [eexists; reflexivity|]. split; [reflexivity|exact I]. }
  destruct H as (_ & H1 & H2). split; assumption.
Qed.

(** *** Timer delays *)

(** The delay an armed timer was given, by the closure it runs. *)
Definition delay_ok (x : timer) : Prop :=
  match cb x with
  | Guard => delay x = 10000%Z
  | Silence => (500 <= delay x <= 5000)%Z
  | Response => delay x = 30000%Z
  end.

Definition delays_bounded (s : state) : Prop :=
  (500 <= _silenceThresholdMs s <= 5000)%Z /\ Forall delay_ok (timers s).

Lemma Forall_filter_timer (Q P : timer -> Prop) `{!forall x, Decision (P x)} l :
  Forall Q l -> Forall Q (filter P l).
Proof.
  rewrite !Forall_forall. intros Hl x Hx. apply list_elem_of_filter in Hx.
  apply Hl. tauto.
Qed.

Lemma delays_bounded_step i s : delays_bounded s -> delays_bounded (step i s).
Proof.
  intros [Ht Hl]. unfold delays_bounded in *.
  destruct i; cbn [step]; unfold_conv; state_simpl.
  all: break_ifs.
  all: try (split; [lia|]); try (split; [exact Ht|]).
  all: rewrite ?Forall_app; repeat split;
    try apply Forall_filter_timer; try exact Hl.
  all: try (apply Forall_singleton; unfold delay_ok; cbn; lia).
  all: try (apply Forall_filter_timer; exact Hl).
Qed.

(** X4.  Along every run of the orchestrator from its initial state, with
    [setSilenceThreshold] called on integers, the silence threshold lies
    between 500 and 5000 ms, every armed silence timer was given a delay in
    that range, every armed guard timer 10000 ms and every armed response
    timer 30000 ms. *)
Theorem silence_delay_within_bounds (l : list input) :
  (500 <= _silenceThresholdMs (run l initial) <= 5000)%Z /\
  Forall delay_ok (timers (run l initial)).
Proof.
  apply (run_invariant delays_bounded delays_bounded_step).
  split; [cbn; lia|constructor].
Qed.

(** *** stop, again *)

(** Nothing is left for [stop] to tear down. *)
Definition at_rest (s : state) : Prop :=
  _phase s = idle /\ _silenceTimer s = None /\ _activeListener s = None /\
  isSpeaking s = false /\ _waitingForResponse s = false.

Lemma stop_at_rest s : at_rest s -> stop s = s.
Proof.
  intros (H1 & H2 & H3 & H4 & H5). destruct s. cbn in *. subst.
  unfold stop, clearSilenceTimer, stopSpeaking, TTS.stopSpeaking, setPhase.
  cbn. destruct (decide (idle = idle)) as [_|N]; [|contradiction].
  unfold set_waitingForResponse, set_isSpeaking, emit_all, set_log. cbn.
  now rewrite app_nil_r.
Qed.

Lemma stop_completed_at_rest text s : at_rest (stop_completed text s).
Proof.
  destruct (teardown_fields s) as (T0 & T1 & T2 & T3 & T4 & T5 & T6).
  unfold at_rest. destruct (_activeListener s) as [l|] eqn:E.
  - rewrite (stop_completed_with_listener text s l E).
    destruct (stop_stopped_fields (emit (ListenerStop l) (teardown s)))
      as (P1 & P2 & P3 & P4 & P5 & P6).
    rewrite P1, P2, P4, P5, P6. cbn. auto.
  - unfold stop_completed. rewrite E, (stop_without_listener s E).
    destruct (setPhase_fields idle (teardown s)) as (P2 & P3 & P4 & P5 & _).
    rewrite setPhase_phase, setPhase_waiting, P2, P4, P5, T3. auto.
Qed.

Lemma stop_fixed_at_rest s : stop s = s -> at_rest s.
Proof.
  intros E. destruct (stop_fields s) as (F1 & F2 & F3 & F4 & F5).
  rewrite E in F1, F3, F4.
  destruct (_activeListener s) as [l|] eqn:El.
  - destruct F5 as (_ & _ & F5 & _). rewrite E in F5.
    apply (f_equal length) in F5. rewrite length_app in F5. cbn in F5. lia.
  - destruct F5 as (F5 & _). rewrite E in F5. repeat split; assumption.
Qed.

(** X5.  [stop()] changes nothing exactly in the states at rest: phase
    Idle, the silence-timer slot empty, no capture session, the speech flag
    and the waiting flag clear.  A [stop()] carried through with nothing
    running between the call and the capture session's report that it
    stopped ends in such a state, so a second [stop()] then returns at once
    and changes nothing: no handler is called, no adapter is called, no
    timer is touched.  A [stop()] during which something else ran need not
    end at rest, and a second [stop()] then does change the state (as after
    [stop_with_partial], where a silence timer is left armed). *)
Theorem stop_twice (s s0 : state) (text text' : string) :
  (stop s0 = s0 <-> at_rest s0) /\
  at_rest (stop_completed text s) /\
  stop (stop_completed text s) = stop_completed text s /\
  stop_completed text' (stop_completed text s) = stop_completed text s.
Proof.
  pose proof (stop_completed_at_rest text s) as H.
  split; [split; [apply stop_fixed_at_rest|apply stop_at_rest]|].
  split; [exact H|]. split; [now apply stop_at_rest|].
  unfold stop_completed at 1. destruct H as (H1 & H2 & H3 & H4 & H5).
  rewrite H3. apply stop_at_rest. repeat split; assumption.
Qed.

Lemma stop_twice_witness :
  stop (stop_completed "" listening_begun) = stop_completed "" listening_begun /\
  stop (run stop_with_partial listening_begun)
  <> run stop_with_partial listening_begun.
Proof.
  split.
  - exact (proj1 (proj2 (proj2 (stop_twice listening_begun listening_begun "" "")))).
  - intros E.
    apply (proj1 (proj1 (stop_twice listening_begun
                           (run stop_with_partial listening_begun) "" ""))) in E.
    destruct E as (_ & E & _). discriminate E.
Defined.

(** *** A blank final transcript *)

(** The await suspended last resumes. *)
Lemma settle_end a t o s :
  awaiting s = a ++ [t] ->
  settle (length a) o s
  = match resume t o (set_awaiting a s) with Some s' => s' | None => s end.
Proof.
  intros E. unfold settle. rewrite E, list_lookup_middle by reflexivity.
  now rewrite delete_middle, app_nil_r.
Qed.

Ltac same_handler :=
  repeat match goal with
  | E : Some _ = Some _ |- _ => injection E as <-
  end.




(** *** stop while the capture session is still starting *)

(** [start()] in Idle, [stop()] before [Whisper.startListening] has
    settled, then the capture session [l] starts. *)
Definition stop_before_started (l : listener) (s : state) : state :=
  settle (length (awaiting s)) (Started l) (stop (start s)).

Lemma stop_start_awaiting s :
  _phase s = idle -> _activeListener s = None ->
  awaiting (stop (start s)) = awaiting s ++ [AwaitStartListening Then_return] /\
  _phase (stop (start s)) = idle.
Proof.
  intros Hp Hl. unfold start. rewrite Hp.
  rewrite bool_decide_eq_false_2 by (intros H; now apply H).
  unfold_conv; state_simpl. rewrite ?Hp, ?Hl.
  break_ifs; state_simpl; rewrite ?Hp, ?Hl in *; try discriminate.
  all: auto.
Qed.

(** X7.  [stop()] does not cancel a capture session that is still starting.
    After [start()] in Idle and [stop()] before [Whisper.startListening]
    has settled, the phase is Idle at once; when the session [l] then
    starts, [beginListening] resumes all the same: in phase Idle the session
    is active and held in [_activeListener], its 10 s guard timer is armed
    and held in [_silenceTimer], and the session's [stop()] was never
    called. *)
Theorem stop_keeps_pending_capture (s : state) (l : listener) :
  _phase s = idle ->
  _activeListener s = None ->
  _phase (stop (start s)) = idle /\
  _phase (stop_before_started l s) = idle /\
  _activeListener (stop_before_started l s) = Some l /\
  _silenceTimer (stop_before_started l s) = Some (nextTimer s) /\
  mkTimer (nextTimer s) Guard 10000 ∈ timers (stop_before_started l s) /\
  log (stop_before_started l s)
    = log s
      ++ match _onPhaseChange s with
         | Some h => [OnPhaseChange h listening]
         | None => []
         end
      ++ [StartListening]
      ++ (if isSpeaking s then [Speech TTS.SpeechStop] else [])
      ++ match _onPhaseChange s with
         | Some h => [OnPhaseChange h idle]
         | None => []
         end.
Proof.
  intros Hp Hl. destruct (stop_start_awaiting s Hp Hl) as [Ha Hi].
  split; [exact Hi|]. unfold stop_before_started.
  rewrite (settle_end _ _ _ _ Ha). cbn [resume]. clear Ha Hi.
  unfold start. rewrite Hp.
  rewrite bool_decide_eq_false_2 by (intros H; now apply H).
  unfold_conv; state_simpl. rewrite ?Hp, ?Hl.
  break_ifs; state_simpl; rewrite ?Hp, ?Hl in *; try discriminate; try congruence.
  all: same_handler.
  all: rewrite <- ?app_assoc, ?app_nil_r; cbn [app map].
  all: repeat split; auto.
  all: apply elem_of_app; right; now apply list_elem_of_singleton.
Qed.

Lemma stop_keeps_pending_capture_witness :
  _phase (stop (start (init 1 2 3 initial))) = idle /\
  _phase (stop_before_started 1 (init 1 2 3 initial)) = idle /\
  _activeListener (stop_before_started 1 (init 1 2 3 initial)) = Some 1%nat /\
  timers (stop_before_started 1 (init 1 2 3 initial)) = [mkTimer 1 Guard 10000] /\
  log (stop_before_started 1 (init 1 2 3 initial))
    = [OnPhaseChange 1 listening; StartListening; OnPhaseChange 1 idle].
Proof.
  destruct (stop_keeps_pending_capture (init 1 2 3 initial) 1 eq_refl eq_refl)
    as (H1 & H2 & H3 & _ & _ & H6).
  split; [exact H1|]. split; [exact H2|]. split; [exact H3|].
  split; [reflexivity|exact H6].
Defined.

(** *** The gateway refuses the message *)

(** [Gateway.sendMessage] rejects for the await suspended last, then
    [Whisper.startListening] settles with [o]. *)
Definition send_failed (n : nat) (o : outcome) (s : state) : state :=
  settle n o (settle n Failed s).

(** X8.  In Processing, when [Gateway.sendMessage] rejects: the waiting flag
    is cleared, the phase is Listening and a capture session is requested;
    nothing else is handed out (the user message of the turn stays, no
    message reports the failure) and no timer is armed yet.  Once
    [Whisper.startListening] has settled the function falls through to its
    last statement and arms the 30 s response timer although no reply is
    awaited: with the session [l] started the guard and the response timer
    are armed, with the start failed the phase is Idle and the response
    timer is armed; in both states that timer does nothing when it fires. *)
Theorem send_failure_resumes_listening (s : state) (a : list task) (l : listener) :
  awaiting s = a ++ [AwaitSendMessage] ->
  _phase s = processing ->
  (_phase (settle (length a) Failed s) = listening /\
   _waitingForResponse (settle (length a) Failed s) = false /\
   log (settle (length a) Failed s)
     = log s ++ match _onPhaseChange s with
                | Some h => [OnPhaseChange h listening]
                | None => []
                end ++ [StartListening] /\
   timers (settle (length a) Failed s) = timers s) /\
  (_phase (send_failed (length a) (Started l) s) = listening /\
   _activeListener (send_failed (length a) (Started l) s) = Some l /\
   _silenceTimer (send_failed (length a) (Started l) s) = Some (nextTimer s) /\
   timers (send_failed (length a) (Started l) s)
     = timers s ++ [mkTimer (nextTimer s) Guard 10000;
                    mkTimer (S (nextTimer s)) Response 30000] /\
   responseTimeout (send_failed (length a) (Started l) s)
     = send_failed (length a) (Started l) s) /\
  (_phase (send_failed (length a) Failed s) = idle /\
   timers (send_failed (length a) Failed s)
     = timers s ++ [mkTimer (nextTimer s) Response 30000] /\
   responseTimeout (send_failed (length a) Failed s)
     = send_failed (length a) Failed s).
Proof.
  intros Ha Hp.
  assert (E1 : settle (length a) Failed s
               = onSilenceDetected_sendFailed (set_awaiting a s)).
  { now rewrite (settle_end _ _ _ _ Ha). }
  assert (A1 : awaiting (settle (length a) Failed s)
               = a ++ [AwaitStartListening Then_armResponseTimer]).
  { rewrite E1. unfold_conv. state_simpl. now break_ifs. }
  unfold send_failed. rewrite !(settle_end _ _ _ _ A1). cbn [resume].
  rewrite E1. clear E1 A1 Ha.
  unfold responseTimeout.
  unfold_conv; state_simpl. rewrite ?Hp.
  break_ifs; state_simpl; rewrite ?Hp in *; try discriminate; try congruence.
  all: same_handler.
  all: rewrite <- ?app_assoc, ?app_nil_r; cbn [app map].
  all: repeat split; auto.
Qed.

(** The turn "hello" handed to the gateway, [Gateway.sendMessage] not yet
    settled. *)
Definition sending_turn : state :=
  run [PartialResult "hello"; TimerFires 2; Settled 0 (Stopped "hello")]
    listening_begun.

Lemma send_failure_resumes_listening_witness :
  _phase (settle 0 Failed sending_turn) = listening /\
  timers (send_failed 0 (Started 2) sending_turn)
    = [mkTimer 3 Guard 10000; mkTimer 4 Response 30000] /\
  _phase (send_failed 0 Failed sending_turn) = idle.
Proof.
  destruct (send_failure_resumes_listening sending_turn [] 2 eq_refl eq_refl)
    as ((H1 & _) & (_ & _ & _ & H2 & _) & (H3 & _)).
  split; [exact H1|]. split; [exact H2|exact H3].
Defined.

(** *** stop while the reply is spoken *)



(** *** What the user said is what is sent *)

(** The texts of the user messages handed to the message handler, and the
    texts handed to [Gateway.sendMessage], oldest first. *)
Definition user_texts (l : list effect) : list string :=
  omap (fun e => match e with
                 | OnNewMessage _ m =>
                     match role m with user => Some (text m) | assistant => None end
                 | _ => None
                 end) l.

Definition sent_texts (l : list effect) : list string :=
  omap (fun e => match e with
                 | GatewaySendMessage t => Some t
                 | _ => None
                 end) l.

Lemma user_texts_app l l' : user_texts (l ++ l') = user_texts l ++ user_texts l'.
Proof. apply omap_app. Qed.

Lemma sent_texts_app l l' : sent_texts (l ++ l') = sent_texts l ++ sent_texts l'.
Proof. apply omap_app. Qed.

Ltac message_simpl := cbn [role text].

Definition turns_agree (s : state) : Prop :=
  is_Some (_onNewMessage s) /\ user_texts (log s) = sent_texts (log s).

Lemma turns_agree_step i s : turns_agree s -> turns_agree (step i s).
Proof.
  intros [[h Hh] H]. unfold turns_agree in *.
  destruct i; cbn [step]; unfold_conv; state_simpl.
  all: break_ifs.
  all: try rewrite Hh in *; try discriminate.
  all: split; [eauto|].
  all: rewrite ?user_texts_app, ?sent_texts_app;
    cbn [user_texts sent_texts omap list_omap mbind option_bind app map];
    message_simpl; rewrite ?app_nil_r; try exact H.
  all: try (rewrite H; reflexivity).
Qed.

(** X10.  Once [init] has registered the handlers on the initial state,
    along every run the texts of the user messages handed to the message
    handler are, in order, the texts handed to [Gateway.sendMessage]: every
    turn shown as said by the user was sent, and nothing else was. *)
Theorem user_messages_are_sent (hp ht hm : handler) (l : list input) :
  user_texts (log (run l (init hp ht hm initial)))
  = sent_texts (log (run l (init hp ht hm initial))).
Proof.
  assert (H : turns_agree (run l (init hp ht hm initial))).
  { apply (run_invariant turns_agree turns_agree_step).
    split; [eexists; reflexivity|reflexivity]. }
  apply H.
Qed.

End ConversationRuns.

(** ** The history is the last 51 messages *)

Module HistoryFacts.
Import AppStore AppStoreFacts.

Lemma addMessage_slice m messages :
  addMessage m messages = slice_last 51 (messages ++ [m]).
Proof.
  unfold addMessage, slice_last. rewrite length_app. cbn [length].
  rewrite drop_app_le by lia. f_equal. f_equal. lia.
Qed.

Lemma slice_last_twice {A} (l : list A) :
  slice_last 50 (slice_last 51 l) = slice_last 50 l.
Proof.
  unfold slice_last. rewrite length_drop, drop_drop. f_equal. lia.
Qed.

Lemma slice_last_snoc {A} (l : list A) x :
  slice_last 50 l ++ [x] = slice_last 51 (l ++ [x]).
Proof.
  unfold slice_last. rewrite length_app. cbn [length].
  rewrite drop_app_le by lia. f_equal. f_equal. lia.
Qed.

Lemma addMessages_snoc new x messages :
  addMessages (new ++ [x]) messages = addMessage x (addMessages new messages).
Proof. unfold addMessages. now rewrite fold_left_app. Qed.

Lemma addMessages_slice new m messages :
  addMessages new (addMessage m messages) = slice_last 51 (messages ++ m :: new).
Proof.
  induction new as [|x new IH] using rev_ind.
  - cbn. apply addMessage_slice.
  - rewrite addMessages_snoc, IH. unfold addMessage at 1.
    rewrite slice_last_twice, slice_last_snoc.
    now rewrite <- app_assoc.
Qed.

(** X11.  After at least one [addMessage] the history is exactly the last 51
    of all the messages it was ever given, the old history first, in the
    order they were added; starting from the empty history, or from one
    emptied by [clearMessages], it is the last 51 of the messages added. *)
Theorem history_is_last_51 (new : list ChatMessage) (m : ChatMessage)
    (messages : list ChatMessage) :
  addMessages new (addMessage m messages) = slice_last 51 (messages ++ m :: new) /\
  addMessages new [] = slice_last 51 new /\
  addMessages new (clearMessages messages) = slice_last 51 new.
Proof.
  split; [apply addMessages_slice|].
  assert (H : addMessages new [] = slice_last 51 new).
  { destruct new as [|x new]; [reflexivity|].
    change (addMessages (x :: new) []) with (addMessages new (addMessage x [])).
    apply (addMessages_slice new x []). }
  split; exact H.
Qed.

End HistoryFacts.

(** ** The store behind the orchestrator *)

Module AppFacts.
Import Conversation.

Lemma deliver_all_snoc l e st :
  App.deliver_all (l ++ [e]) st = App.deliver e (App.deliver_all l st).
Proof. unfold App.deliver_all. now rewrite fold_left_app. Qed.

(** The store's phase is the last phase announced, its own when none was. *)
Lemma deliver_all_phase l st :
  last (App.phase st :: phases l) = Some (App.phase (App.deliver_all l st)).
Proof.
  induction l as [|e l IH] using rev_ind; [reflexivity|].
  rewrite deliver_all_snoc. unfold phases in *. rewrite omap_app.
  destruct e; cbn [omap mbind option_bind list_omap App.deliver]; rewrite ?app_nil_r;
    try exact IH.
  - change (App.phase st :: omap _ l ++ [phase])
      with ((App.phase st :: phases l) ++ [phase]).
    now rewrite last_snoc.
  - unfold App.onTranscript. destruct (negb isFinal); exact IH.
Qed.

(** The store's history is the last 51 of the messages handed out. *)
Lemma deliver_all_messages l :
  App.messages (App.deliver_all l App.initial) = AppStore.slice_last 51 (messages l).
Proof.
  induction l as [|e l IH] using rev_ind; [reflexivity|].
  rewrite deliver_all_snoc. unfold messages in *. rewrite omap_app.
  destruct e; cbn [omap mbind option_bind list_omap App.deliver]; rewrite ?app_nil_r;
    try exact IH.
  - unfold App.onTranscript. destruct (negb isFinal); exact IH.
  - cbn. rewrite IH. unfold AppStore.addMessage.
    now rewrite HistoryFacts.slice_last_twice, HistoryFacts.slice_last_snoc.
Qed.

(** The orchestrator after the run [l], once [init] has registered the
    handlers, and the store after the calls it made. *)
Definition orchestrator_after (hp ht hm : handler) (l : list input) : state :=
  run l (init hp ht hm initial).

Definition store_after (hp ht hm : handler) (l : list input) : App.store :=
  App.deliver_all (log (orchestrator_after hp ht hm l)) App.initial.

Lemma store_phase hp ht hm l :
  App.phase (store_after hp ht hm l) = _phase (orchestrator_after hp ht hm l).
Proof.
  unfold store_after, orchestrator_after.
  assert (H : ConversationRuns.phase_reported (run l (init hp ht hm initial))).
  { apply (ConversationRuns.run_invariant _ ConversationRuns.phase_reported_step).
    split; [eexists; reflexivity|]. split; [reflexivity|exact I]. }
  destruct H as (_ & H & _).
  pose proof (deliver_all_phase (log (run l (init hp ht hm initial))) App.initial) as D.
  change (App.phase App.initial) with idle in D. congruence.
Qed.

(** X12.  With the handlers the application registers, along every run of
    the orchestrator the store's phase is the orchestrator's phase, and the
    store's history is the last 51 of the chat messages the orchestrator
    handed out. *)
Theorem store_follows_orchestrator (hp ht hm : handler) (l : list input) :
  App.phase (store_after hp ht hm l) = _phase (orchestrator_after hp ht hm l) /\
  App.messages (store_after hp ht hm l)
    = AppStore.slice_last 51 (messages (log (orchestrator_after hp ht hm l))).
Proof. split; [apply store_phase|apply deliver_all_messages]. Qed.

(** X13.  The main button of the chat screen always acts on the phase the
    orchestrator is in: the guard of the function it calls never turns the
    call away.  In Idle it begins a capture session, in Speaking it stops
    the speech and begins a capture session, in Listening and Processing it
    runs [stop]. *)
Theorem main_button_acts (hp ht hm : handler) (l : list input) :
  App.handleMainButton (store_after hp ht hm l) (orchestrator_after hp ht hm l)
  = match _phase (orchestrator_after hp ht hm l) with
    | idle => beginListening Then_return (orchestrator_after hp ht hm l)
    | speaking =>
        beginListening Then_return (stopSpeaking (orchestrator_after hp ht hm l))
    | listening | processing => stop (orchestrator_after hp ht hm l)
    end.
Proof.
  unfold App.handleMainButton. rewrite store_phase.
  destruct (_phase (orchestrator_after hp ht hm l)) eqn:E; try reflexivity.
  - unfold start. now rewrite E.
  - unfold interrupt. now rewrite E.
Qed.

End AppFacts.

(** ** The gateway client along every run *)

Module GatewayRuns.
Import Gateway GatewayFacts.

(** Unfold the functions of the module down to field updates. *)
Ltac unfold_gw :=
  unfold disconnect, sendMessage, onMessage, onStateChange,
    set_readyState, handleFrame, handleEvent, onerror, onclose, fire,
    continue, run_callback, run_continuation, requestTimeout, reconnect, tick,
    connect, doConnect_connected, doConnect_subscribed, doConnect,
    scheduleReconnect, send, nextId, ws_send, ws_close, ws_open, notifyState,
    notifyMessage in *.

(** Decide every test the code makes, innermost first. *)
Ltac break_ifs :=
  repeat match goal with
  | |- context [match ?x with _ => _ end] =>
      match x with
      | context [match _ with _ => _ end] => fail 1
      | _ => destruct x eqn:?
      end; state_simpl
  end.

(** An invariant of [step] holds along every run. *)
Lemma gateway_run_invariant (P : state -> Prop) :
  (forall i s, P s -> P (step i s)) -> forall l s, P s -> P (run l s).
Proof.
  intros Hstep l. induction l as [|i l IH]; intros s H; [exact H|].
  cbn. apply IH, Hstep, H.
Qed.

(** *** disconnect is final *)

Definition is_socket_call (e : effect) : bool :=
  match e with
  | WsNew _ _ | WsSend _ _ | WsClose _ => true
  | _ => false
  end.

Definition socket_calls (l : list effect) : list effect :=
  List.filter is_socket_call l.

Definition is_connect (i : input) : bool :=
  match i with CallConnect _ => true | _ => false end.

Lemma socket_calls_app l l' : socket_calls (l ++ l') = socket_calls l ++ socket_calls l'.
Proof. apply List.filter_app. Qed.

(** No configuration and no socket. *)
Definition shut (s : state) : Prop := _config s = None /\ _ws s = None.

Lemma shut_step i s :
  is_connect i = false -> shut s ->
  shut (step i s) /\ socket_calls (log (step i s)) = socket_calls (log s).
Proof.
  intros Hi [Hc Hw]. unfold shut in *.
  destruct i; try discriminate Hi; cbn [step]; unfold_gw; state_simpl;
    rewrite ?Hc, ?Hw; state_simpl.
  all: break_ifs; state_simpl; rewrite ?Hc, ?Hw in *; try discriminate.
  all: rewrite ?socket_calls_app; cbn [socket_calls List.filter is_socket_call];
    rewrite ?app_nil_r.
  all: try (repeat split; auto; congruence).
Qed.

Lemma shut_disconnect s : shut (disconnect s).
Proof.
  unfold shut. unfold_gw. state_simpl. break_ifs; auto.
Qed.

Lemma shut_run l s :
  forallb (fun i => negb (is_connect i)) l = true -> shut s ->
  shut (run l s) /\ socket_calls (log (run l s)) = socket_calls (log s).
Proof.
  revert s. induction l as [|i l IH]; intros s Hl Hs; [auto|].
  cbn [forallb] in Hl. apply andb_prop in Hl as [Hi Hl].
  apply negb_true_iff in Hi.
  destruct (shut_step i s Hi Hs) as [Hs' E]. cbn [run fold_left].
  destruct (IH (step i s) Hl Hs') as [Hs'' E']. split; [exact Hs''|].
  unfold run in E'. congruence.
Qed.

(** X14.  [disconnect()] is final until [connect] is called again: whatever
    follows it, short of a call of [connect] (socket events, frames, timers
    firing, resumed awaits, [sendMessage]), the client holds no
    configuration and no socket, creates no socket, writes no frame and
    closes nothing; a reconnection timer armed by a late close event finds
    no configuration when it fires. *)
Theorem disconnect_is_final (s : state) (l : list input) :
  forallb (fun i => negb (is_connect i)) l = true ->
  _config (run l (disconnect s)) = None /\
  _ws (run l (disconnect s)) = None /\
  socket_calls (log (run l (disconnect s))) = socket_calls (log (disconnect s)).
Proof.
  intros Hl. destruct (shut_run l (disconnect s) Hl (shut_disconnect s)) as [[H1 H2] H3].
  auto.
Qed.

Lemma disconnect_is_final_witness :
  socket_calls
    (log (run [SocketClose 1; TimerFires 4; CallSendMessage "hi";
               SocketMessage 1 (Frame (Event (mkEvent "connect.challenge" None)))]
            (disconnect connected_session)))
  = socket_calls (log (disconnect connected_session)).
Proof.
  exact (proj2 (proj2 (disconnect_is_final connected_session
    [SocketClose 1; TimerFires 4; CallSendMessage "hi";
     SocketMessage 1 (Frame (Event (mkEvent "connect.challenge" None)))]
    eq_refl))).
Defined.

(** *** One timer for each slot *)

Definition is_tick (x : timer) : bool :=
  match cb x with Tick => true | _ => false end.

Lemma tinv_run l : tinv (run l initial).
Proof.
  generalize tinv_init. generalize initial.
  induction l as [|i l IH]; intros s H; [exact H|].
  apply IH, tinv_step, H.
Qed.

Lemma same_tid_once (l : list timer) (t : timer_id) :
  NoDup (tid <$> l) -> Forall (fun x => tid x = t) l -> (length l <= 1)%nat.
Proof.
  destruct l as [|x [|y l]]; cbn; [lia|lia|].
  intros Hn Hf. exfalso.
  apply NoDup_cons in Hn as [Hx _]. apply Hx.
  inversion Hf as [|? ? Ex Hf']; subst. inversion Hf' as [|? ? Ey _]; subst.
  rewrite Ey. left.
Qed.

Lemma filter_is_tick_sublist l : sublist (List.filter is_tick l) l.
Proof.
  induction l as [|x l IH]; [constructor|]. cbn.
  destruct (is_tick x); now constructor.
Qed.

(** X15.  Along every run of the client from its initial state at most one
    keepalive timer is armed, and an armed keepalive is the one held in
    [_tickTimer]; the armed reconnection timers are exactly the one held in
    [_reconnectTimer], armed with 5000 ms, and none when the slot is
    empty: timers of these two kinds never pile up. *)
Theorem one_timer_per_slot (l : list input) :
  (length (List.filter is_tick (timers (run l initial))) <= 1)%nat /\
  Forall (fun x => _tickTimer (run l initial) = Some (tid x))
    (List.filter is_tick (timers (run l initial))) /\
  reconnect_timers (run l initial)
  = match _reconnectTimer (run l initial) with
    | Some t => [mkTimer t Reconnect 5000 false]
    | None => []
    end.
Proof.
  destruct (tinv_run l) as (H1 & H2 & H3 & H4 & H5 & H6).
  set (s := run l initial) in *.
  assert (Ht : Forall (fun x => _tickTimer s = Some (tid x))
                 (List.filter is_tick (timers s))).
  { apply Forall_forall. intros x Hx. apply list_elem_of_In, List.filter_In in Hx.
    destruct Hx as [Hx Ex]. rewrite Forall_forall in H5.
    apply H5; [now apply list_elem_of_In|]. unfold is_tick in Ex.
    now destruct (cb x). }
  split; [|split; [exact Ht|exact H3]].
  destruct (_tickTimer s) as [t|] eqn:E.
  - apply (same_tid_once _ t).
    + apply (sublist_NoDup _ _ H1), fmap_sublist, filter_is_tick_sublist.
    + eapply Forall_impl; [exact Ht|]. cbn. intros x Hx. congruence.
  - destruct (List.filter is_tick (timers s)) as [|x r]; [cbn; lia|].
    inversion Ht; subst. discriminate.
Qed.

(** *** Request ids on the wire *)

(** The ids of the request frames written to a socket, oldest first. *)
Definition sent_ids (l : list effect) : list string :=
  omap (fun e => match e with
                 | WsSend _ frame => Some (req_id frame)
                 | _ => None
                 end) l.

Lemma sent_ids_snoc l e :
  sent_ids (l ++ [e])
  = sent_ids l ++ match e with WsSend _ frame => [req_id frame] | _ => [] end.
Proof. unfold sent_ids. rewrite omap_app. now destruct e. Qed.

(** The ids sent are distinct and were drawn from the counter. *)
Definition ids_fresh (r : nat) (ids : list string) : Prop :=
  NoDup ids /\ Forall (fun id => exists k, (k <= r)%nat /\ id = rn k) ids.

Lemma ids_fresh_next r ids : ids_fresh r ids -> ids_fresh (S r) ids.
Proof.
  intros [H1 H2]. split; [exact H1|].
  eapply Forall_impl; [exact H2|]. cbn. intros id (k & Hk & ->). exists k. split; [lia|reflexivity].
Qed.

Lemma ids_fresh_send r ids : ids_fresh r ids -> ids_fresh (S r) (ids ++ [rn (S r)]).
Proof.
  intros [H1 H2]. split.
  - apply NoDup_app. split; [exact H1|]. split; [|apply NoDup_singleton].
    intros id Hin Hin'. apply list_elem_of_singleton in Hin'. subst id.
    rewrite Forall_forall in H2. destruct (H2 _ Hin) as (k & Hk & E).
    apply rn_inj in E. lia.
  - apply Forall_app. split.
    + eapply Forall_impl; [exact H2|]. cbn. intros id (k & Hk & ->).
      exists k. split; [lia|reflexivity].
    + apply Forall_singleton. exists (S r). split; [lia|reflexivity].
Qed.

Definition wire_ok (s : state) : Prop := ids_fresh (_reqId s) (sent_ids (log s)).

Lemma wire_ok_step i s : wire_ok s -> wire_ok (step i s).
Proof.
  intros H. unfold wire_ok in *.
  destruct i; cbn [step]; unfold_gw; state_simpl.
  all: break_ifs; state_simpl.
  all: rewrite ?sent_ids_snoc; cbn [req_id]; rewrite ?app_nil_r.
  all: try exact H.
  all: try (apply ids_fresh_next; exact H).
  all: try (apply ids_fresh_send; exact H).
Qed.

(** X17.  Along every run of the client from its initial state no request
    id is written to a socket twice, and every id written is [rn k] for a
    [k] the request counter has reached: a response can only ever match
    one request. *)
Theorem request_ids_never_repeat (l : list input) :
  NoDup (sent_ids (log (run l initial))) /\
  Forall (fun id => exists k, (k <= _reqId (run l initial))%nat /\ id = rn k)
    (sent_ids (log (run l initial))).
Proof.
  apply (gateway_run_invariant wire_ok wire_ok_step). split; constructor.
Qed.

(** *** Sockets *)

(** The sockets created and the sockets closed by the client, oldest
    first. *)
Definition created (l : list effect) : list socket :=
  omap (fun e => match e with WsNew sock _ => Some sock | _ => None end) l.

Definition closed (l : list effect) : list socket :=
  omap (fun e => match e with WsClose sock => Some sock | _ => None end) l.

(** The sockets frames were written to. *)
Definition written (l : list effect) : list socket :=
  omap (fun e => match e with WsSend sock _ => Some sock | _ => None end) l.

Lemma created_snoc l e :
  created (l ++ [e]) = created l ++ match e with WsNew sock _ => [sock] | _ => [] end.
Proof. unfold created. rewrite omap_app. now destruct e. Qed.

Lemma closed_snoc l e :
  closed (l ++ [e]) = closed l ++ match e with WsClose sock => [sock] | _ => [] end.
Proof. unfold closed. rewrite omap_app. now destruct e. Qed.

Definition current (s : state) : list socket :=
  match _ws s with
  | Some (sock, _) => [sock]
  | None => []
  end.

(** Every socket created was closed by the client, in the order of
    creation, except the one it holds. *)
Definition sockets_ok (s : state) : Prop :=
  created (log s) = closed (log s) ++ current s.

Lemma sockets_ok_step i s : sockets_ok s -> sockets_ok (step i s).
Proof.
  intros H. unfold sockets_ok, current in *.
  destruct i; cbn [step]; unfold_gw; state_simpl.
  all: break_ifs; state_simpl.
  all: rewrite ?created_snoc, ?closed_snoc, ?app_nil_r in *; try exact H.
  all: try congruence.
  all: try (rewrite H; reflexivity).
  all: repeat match goal with
       | E : Nat.eqb _ _ = true |- _ => apply Nat.eqb_eq in E; subst
       end; try exact H.
Qed.

(** X16.  Along every run of the client from its initial state, the
    sockets it created are, in order, the sockets it closed followed by the
    one it holds, if it holds one: before a new socket is created the one
    held is closed, so at most one socket is not yet closed by the
    client. *)
Theorem sockets_closed_in_order (l : list input) :
  created (log (run l initial))
  = closed (log (run l initial)) ++ current (run l initial).
Proof. apply (gateway_run_invariant sockets_ok sockets_ok_step). reflexivity. Qed.

(** *** Only a close leads to a reconnection *)

Definition is_connect_or_close (i : input) : bool :=
  match i with
  | CallConnect _ | SocketClose _ => true
  | _ => false
  end.

(** No reconnection is scheduled. *)
Definition settled_down (s : state) : Prop :=
  tinv s /\ _reconnectTimer s = None.

Lemma no_reconnect_armed s x :
  settled_down s -> x ∈ timers s -> cb x <> Reconnect.
Proof.
  intros [(_ & _ & H3 & _) Hr] Hx Hc. rewrite Hr in H3.
  assert (Hin : In x (List.filter is_reconnect (timers s))).
  { apply List.filter_In. split; [now apply list_elem_of_In|].
    unfold is_reconnect. now rewrite Hc. }
  rewrite H3 in Hin. contradiction.
Qed.

Lemma settled_down_step i s :
  is_connect_or_close i = false -> settled_down s ->
  settled_down (step i s) /\ created (log (step i s)) = created (log s).
Proof.
  intros Hi Hs. pose proof Hs as [Ht Hr].
  assert (G : _reconnectTimer (step i s) = None /\
              created (log (step i s)) = created (log s)).
  { destruct i; try discriminate Hi; cbn [step].
    8: { unfold fire. destruct (List.find _ (timers s)) as [x|] eqn:E; [|auto].
         apply List.find_some in E as [Hx _]. apply list_elem_of_In in Hx.
         pose proof (no_reconnect_armed s x Hs Hx) as Hc.
         destruct (cb x) as [id method p| |] eqn:Ec; [|contradiction|];
           cbn [run_callback]; unfold_gw; state_simpl;
           break_ifs; state_simpl; rewrite ?created_snoc, ?app_nil_r; auto. }
    all: unfold_gw; state_simpl; rewrite ?Hr; state_simpl.
    all: break_ifs; state_simpl; rewrite ?created_snoc, ?app_nil_r; auto. }
  destruct G as [G1 G2]. split; [|exact G2]. split; [|exact G1].
  now apply tinv_step.
Qed.

Lemma settled_down_run l s :
  forallb (fun i => negb (is_connect_or_close i)) l = true -> settled_down s ->
  settled_down (run l s) /\ created (log (run l s)) = created (log s).
Proof.
  revert s. induction l as [|i l IH]; intros s Hl Hs; [auto|].
  cbn [forallb] in Hl. apply andb_prop in Hl as [Hi Hl].
  apply negb_true_iff in Hi.
  destruct (settled_down_step i s Hi Hs) as [Hs' E]. cbn [run fold_left].
  destruct (IH (step i s) Hl Hs') as [Hs'' E']. split; [exact Hs''|].
  unfold run in E'. congruence.
Qed.

(** X22.  Only a close event or a call of [connect] leads to a new socket.
    From every state the client can reach in which no reconnection is
    scheduled, whatever follows short of those two (socket errors, frames,
    timers firing, resumed awaits, [sendMessage], [disconnect]) creates no
    socket and schedules no reconnection: a socket error that no close
    event follows leaves the client without a reconnection attempt. *)
Theorem error_alone_never_reconnects (l0 l : list input) :
  _reconnectTimer (run l0 initial) = None ->
  forallb (fun i => negb (is_connect_or_close i)) l = true ->
  created (log (run l (run l0 initial))) = created (log (run l0 initial)) /\
  _reconnectTimer (run l (run l0 initial)) = None.
Proof.
  intros Hr Hl.
  destruct (settled_down_run l (run l0 initial) Hl (conj (tinv_run l0) Hr))
    as [[_ H1] H2].
  split; assumption.
Qed.

Lemma error_alone_never_reconnects_witness :
  created
    (log (run [SocketError 1; TimerFires 2; CallSendMessage "hi"; TimerFires 3]
            (run [CallOnMessage 7; CallOnStateChange 8; CallConnect config0;
                  SocketOpen 1;
                  SocketMessage 1
                    (Frame (Event (mkEvent "connect.challenge"
                                     (Some (JObj [("nonce", JStr "n1")])))));
                  SocketMessage 1 (Frame (Res (mkResponse "rn-1" true None None)));
                  Continue 1] initial)))
  = created
      (log (run [CallOnMessage 7; CallOnStateChange 8; CallConnect config0;
                 SocketOpen 1;
                 SocketMessage 1
                   (Frame (Event (mkEvent "connect.challenge"
                                    (Some (JObj [("nonce", JStr "n1")])))));
                 SocketMessage 1 (Frame (Res (mkResponse "rn-1" true None None)));
                 Continue 1] initial)).
Proof.
  assert (H : _reconnectTimer
                (run [CallOnMessage 7; CallOnStateChange 8; CallConnect config0;
                      SocketOpen 1;
                      SocketMessage 1
                        (Frame (Event (mkEvent "connect.challenge"
                                         (Some (JObj [("nonce", JStr "n1")])))));
                      SocketMessage 1 (Frame (Res (mkResponse "rn-1" true None None)));
                      Continue 1] initial) = None)
    by (vm_compute; reflexivity).
  exact (proj1 (error_alone_never_reconnects _
    [SocketError 1; TimerFires 2; CallSendMessage "hi"; TimerFires 3] H eq_refl)).
Defined.

End GatewayRuns.

(** ** Requests across a disconnect *)

Module GatewayRequests.
Import Gateway GatewayFacts.

(** *** Invariants of the request bookkeeping *)

(** A property [B] of the request counter, the pending map, the armed
    request timeouts, the promise counter and the promises settled holds
    along every step when it survives what the code does to them: timers
    going away, a registration under the next id, a rejection of the next
    promise, the settling of a registered promise and the clearing of the
    map; and when a timeout that finds a registration finds its own. *)
Section RequestInvariant.

Variable B : nat -> gmap string promise -> list (string * promise) ->
             promise -> list promise -> Prop.

Definition holds (s : state) : Prop :=
  B (_reqId s) (_pendingRequests s) (request_timers (timers s))
    (nextPromise s) (settles (log s)).

Hypothesis B_timers : forall r m ts ts' n st,
  B r m ts n st -> (forall x, x ∈ ts' -> x ∈ ts) -> B r m ts' n st.
Hypothesis B_register : forall r m ts n st,
  B r m ts n st ->
  B (S r) (<[rn (S r) := n]> m) (ts ++ [(rn (S r), n)]) (S n) st.
Hypothesis B_reject_new : forall r m ts n st,
  B r m ts n st -> B (S r) m ts (S n) (st ++ [n]).
Hypothesis B_settle : forall r m ts n st id p,
  B r m ts n st -> m !! id = Some p -> B r (delete id m) ts n (st ++ [p]).
Hypothesis B_clear : forall r m ts n st, B r m ts n st -> B r ∅ ts n st.
Hypothesis B_own : forall r m ts n st id p q,
  B r m ts n st -> (id, p) ∈ ts -> m !! id = Some q -> q = p.

Lemma holds_keeps s s' : keeps s s' -> holds s -> holds s'.
Proof.
  intros (K1 & K2 & K3 & K4 & K5) H. unfold holds in *.
  rewrite K1, K2, K4, K5. eapply B_timers; [exact H|exact K3].
Qed.

Lemma holds_send_next method params k s :
  holds s ->
  holds (send (mkRequest (rn (S (_reqId s))) method params) k
           (set_reqId (S (_reqId s)) s)).
Proof.
  intros H. unfold send.
  set (s0 := set_reqId (S (_reqId s)) s).
  set (s1 := set_awaiting _ _).
  change (ws_open s1) with (ws_open s).
  destruct (ws_open s) eqn:Ho; cbn [negb].
  - assert (E : exists sock r, _ws s = Some (sock, r)).
    { unfold ws_open in Ho. destruct (_ws s) as [[sock r]|]; [eauto|discriminate]. }
    destruct E as (sock & r & E).
    unfold holds, ws_send. state_simpl. cbn [req_id req_method]. state_simpl.
    change (_ws s1) with (_ws s). rewrite E. subst s1 s0.
    state_simpl. rewrite request_timers_snoc, settles_snoc, app_nil_r. cbn [cb].
    apply B_register, H.
  - unfold holds. subst s1 s0. state_simpl. rewrite settles_snoc.
    apply B_reject_new, H.
Qed.

Lemma holds_doConnect nonce s : holds s -> holds (doConnect nonce s).
Proof.
  intros H. unfold doConnect. destruct (_config s); [|exact H].
  now apply holds_send_next.
Qed.

Lemma holds_tick s : holds s -> holds (tick s).
Proof.
  intros H. unfold tick. destruct (ws_open s); [|exact H].
  now apply holds_send_next.
Qed.

Lemma holds_settle_registered id p o s :
  holds s -> _pendingRequests s !! id = Some p ->
  holds (emit (Settle p o) (set_pendingRequests (delete id (_pendingRequests s)) s)).
Proof.
  intros H Hp. unfold holds. state_simpl. rewrite settles_snoc.
  now apply B_settle.
Qed.

Lemma holds_if_notifyMessage (b : bool) text messageId s :
  holds s -> holds (if b then notifyMessage text messageId s else s).
Proof.
  intros H. destruct b; [|exact H].
  eapply holds_keeps; [apply keeps_notifyMessage|exact H].
Qed.

Lemma holds_handleFrame raw s : holds s -> holds (handleFrame raw s).
Proof.
  intros H. destruct raw as [|[frame|e]|]; try exact H.
  - destruct (_pendingRequests s !! res_id frame) as [p|] eqn:E.
    + rewrite (handleFrame_registered frame p s E). now apply holds_settle_registered.
    + now rewrite handleFrame_unregistered.
  - cbn [handleFrame]. unfold handleEvent.
    destruct (String.eqb (event e) "connect.challenge"); [now apply holds_doConnect|].
    destruct (String.eqb (event e) "chat").
    + cbv zeta. now do 2 apply holds_if_notifyMessage.
    + destruct (String.eqb (event e) "chat.reply").
      * now apply holds_if_notifyMessage.
      * now destruct (String.eqb (event e) "chat.stream").
Qed.

Lemma holds_disconnect s : holds s -> holds (disconnect s).
Proof.
  intros H. unfold disconnect.
  set (s1 := set_isConnected false (set_config None s)).
  assert (K1 : keeps s s1) by (repeat split; auto).
  set (s2 := match _reconnectTimer s1 with
             | Some t => set_reconnectTimer None (clearTimeout t s1)
             | None => s1
             end).
  assert (K2 : keeps s1 s2).
  { unfold s2. destruct (_reconnectTimer s1) as [t|]; [|apply keeps_refl].
    apply (keeps_trans _ _ _ (keeps_clearTimeout t s1)). repeat split; auto. }
  pose proof (keeps_clear_tick s2) as K3.
  set (s3 := match _tickTimer s2 with
             | Some t => set_tickTimer None (clearTimeout t s2)
             | None => s2
             end) in *.
  pose proof (keeps_ws_close s3) as K4.
  assert (H4 : holds (ws_close s3)).
  { eapply holds_keeps; [|exact H].
    eapply keeps_trans; [exact K1|]. eapply keeps_trans; [exact K2|].
    eapply keeps_trans; [exact K3|exact K4]. }
  unfold holds in *. state_simpl. eapply B_clear, H4.
Qed.

Lemma holds_doConnect_connected o s : holds s -> holds (doConnect_connected o s).
Proof.
  intros H. destruct o as [payload|msg].
  - unfold doConnect_connected.
    set (s1 := notifyState connected (set_isConnected true s)).
    assert (K1 : keeps s s1).
    { apply (keeps_trans _ (set_isConnected true s));
        [repeat split; auto | apply keeps_notifyState]. }
    set (s2 := match _tickTimer s1 with
               | Some t => clearTimeout t s1
               | None => s1
               end).
    assert (K2 : keeps s1 s2).
    { unfold s2. destruct (_tickTimer s1); [apply keeps_clearTimeout|apply keeps_refl]. }
    set (s3 := set_tickTimer _ _).
    assert (K3 : keeps s2 s3).
    { apply (keeps_trans _ (setInterval Tick (delay_of (tickInterval payload)) s2));
        [|repeat split; auto].
      now apply (keeps_setTimer Tick (delay_of (tickInterval payload)) true). }
    apply holds_send_next.
    eapply holds_keeps; [|exact H].
    eapply keeps_trans; [exact K1|]. eapply keeps_trans; [exact K2|exact K3].
  - eapply holds_keeps; [apply keeps_notifyState|exact H].
Qed.

Lemma holds_continue p s : holds s -> holds (continue p s).
Proof.
  intros H. unfold continue.
  destruct (settled p (log s)) as [o|]; [|exact H].
  destruct (find_awaiting p (awaiting s)) as [k|]; [|exact H].
  set (s1 := set_awaiting _ s).
  assert (H1 : holds s1) by (eapply holds_keeps; [|exact H]; repeat split; auto).
  destruct k; cbn [run_continuation]; try exact H1.
  - now apply holds_doConnect_connected.
  - unfold doConnect_subscribed. destruct o; [exact H1|].
    eapply holds_keeps; [apply keeps_notifyState|exact H1].
Qed.

Lemma holds_fire t s : holds s -> holds (fire t s).
Proof.
  intros H. unfold fire.
  destruct (List.find _ (timers s)) as [x|] eqn:E; [|exact H].
  apply List.find_some in E as [Hx _]. apply list_elem_of_In in Hx.
  assert (K : keeps s (if repeating x then s else clearTimeout t s))
    by (destruct (repeating x); [apply keeps_refl|apply keeps_clearTimeout]).
  pose proof (holds_keeps _ _ K H) as H'.
  destruct (cb x) as [id method p| |] eqn:Ec; cbn [run_callback].
  - set (s' := if repeating x then s else clearTimeout t s) in *.
    destruct (_pendingRequests s' !! id) as [q|] eqn:Eq.
    + assert (q = p) as ->.
      { destruct K as (_ & K2 & _). rewrite K2 in Eq.
        apply (B_own _ _ _ _ _ id p q H); [|exact Eq].
        unfold request_timers. apply list_elem_of_omap. exists x. now rewrite Ec. }
      rewrite (requestTimeout_registered id method p p s' Eq).
      now apply holds_settle_registered.
    + now rewrite requestTimeout_unregistered.
  - eapply holds_keeps; [apply keeps_reconnect|exact H'].
  - now apply holds_tick.
Qed.

Lemma holds_step i s : holds s -> holds (step i s).
Proof.
  intros H. destruct i; cbn [step].
  - eapply holds_keeps; [apply keeps_connect|exact H].
  - now apply holds_disconnect.
  - now apply holds_send_next.
  - eapply holds_keeps; [|exact H]. repeat split; auto.
  - eapply holds_keeps; [|exact H]. repeat split; auto.
  - eapply holds_keeps; [apply keeps_set_readyState|exact H].
  - now apply holds_handleFrame.
  - eapply holds_keeps; [apply keeps_notifyState|exact H].
  - eapply holds_keeps; [|exact H].
    eapply keeps_trans; [apply keeps_set_readyState|apply keeps_onclose].
  - now apply holds_fire.
  - now apply holds_continue.
Qed.

Lemma holds_run l s : holds s -> holds (run l s).
Proof.
  revert s. induction l as [|i l IH]; intros s H; [exact H|].
  apply IH, holds_step, H.
Qed.

End RequestInvariant.

(** *** Requests pending at disconnect *)

(** The promise [p] is not settled and nothing is left that could settle
    it: it is registered under no id, and the ids of its armed timeouts are
    not registered. *)
Definition orphaned (p : promise) (r : nat) (m : gmap string promise)
    (ts : list (string * promise)) (n : promise) (st : list promise) : Prop :=
  bookkeeping r m ts n st /\
  (p ∉ st) /\ (p < n)%nat /\
  (forall id, m !! id <> Some p) /\
  (forall id, (id, p) ∈ ts -> m !! id = None).

Section Orphaned.

Local Ltac split5 := split; [|split; [|split; [|split]]].

Variable p : promise.

Lemma orphaned_timers r m ts ts' n st :
  orphaned p r m ts n st -> (forall x, x ∈ ts' -> x ∈ ts) -> orphaned p r m ts' n st.
Proof.
  intros (H0 & H1 & H2 & H3 & H4) Hsub. split5; auto.
  now apply (bookkeeping_timers _ _ _ _ _ H0).
Qed.

Lemma orphaned_register r m ts n st :
  orphaned p r m ts n st ->
  orphaned p (S r) (<[rn (S r) := n]> m) (ts ++ [(rn (S r), n)]) (S n) st.
Proof.
  intros (H0 & H1 & H2 & H3 & H4). split5.
  - now apply bookkeeping_register.
  - exact H1.
  - lia.
  - intros id. rewrite lookup_insert. case_decide; [|apply H3].
    intros [= E]. lia.
  - intros id Hin. apply elem_of_app in Hin as [Hin|Hin].
    + destruct H0 as (_ & _ & T & _). destruct (T _ _ Hin) as (_ & k & Hk & ->).
      rewrite lookup_insert_ne; [now apply H4|].
      intros E. apply rn_inj in E. lia.
    + apply list_elem_of_singleton in Hin. inversion Hin; subst. lia.
Qed.

Lemma orphaned_reject_new r m ts n st :
  orphaned p r m ts n st -> orphaned p (S r) m ts (S n) (st ++ [n]).
Proof.
  intros (H0 & H1 & H2 & H3 & H4). split5; auto.
  - now apply bookkeeping_reject_new.
  - rewrite elem_of_app, list_elem_of_singleton. intros [Hin| ->]; [auto|lia].
Qed.

Lemma orphaned_settle r m ts n st id q :
  orphaned p r m ts n st -> m !! id = Some q ->
  orphaned p r (delete id m) ts n (st ++ [q]).
Proof.
  intros (H0 & H1 & H2 & H3 & H4) Hq. split5; auto.
  - now apply bookkeeping_settle.
  - rewrite elem_of_app, list_elem_of_singleton. intros [Hin| ->]; [auto|].
    now apply (H3 id).
  - intros id'. rewrite lookup_delete. case_decide; [discriminate|apply H3].
  - intros id' Hin. rewrite lookup_delete. case_decide; [reflexivity|now apply H4].
Qed.

Lemma orphaned_clear r m ts n st :
  orphaned p r m ts n st -> orphaned p r ∅ ts n st.
Proof.
  intros (H0 & H1 & H2 & H3 & H4). split5; auto.
  all: try (now apply (bookkeeping_clear _ _ _ _ _ H0)).
  all: try (intros id; rewrite lookup_empty; discriminate).
Qed.

Lemma orphaned_own r m ts n st id q q' :
  orphaned p r m ts n st -> (id, q) ∈ ts -> m !! id = Some q' -> q' = q.
Proof. intros (H0 & _). apply (bookkeeping_timeout_own _ _ _ _ _ H0). Qed.

(** Once nothing can settle [p], nothing does. *)
Lemma orphaned_run l s :
  holds (orphaned p) s -> holds (orphaned p) (run l s).
Proof.
  apply holds_run.
  - apply orphaned_timers.
  - apply orphaned_register.
  - apply orphaned_reject_new.
  - apply orphaned_settle.
  - apply orphaned_clear.
  - apply orphaned_own.
Qed.

(** [disconnect] orphans every request that is pending. *)
Lemma orphaned_disconnect id s :
  inv s -> _pendingRequests s !! id = Some p -> holds (orphaned p) (disconnect s).
Proof.
  intros H Hp. pose proof (inv_disconnect s H) as Hd.
  destruct H as (H1 & _). destruct (H1 _ _ Hp) as (Hlt & Hns & _).
  assert (E : _pendingRequests (disconnect s) = ∅) by reflexivity.
  assert (En : nextPromise (disconnect s) = nextPromise s).
  { unfold disconnect, ws_close. state_simpl.
    repeat match goal with
    | |- context [match ?x with _ => _ end] => destruct x eqn:?; state_simpl
    end; reflexivity. }
  assert (Es : settles (log (disconnect s)) = settles (log s)).
  { unfold disconnect, ws_close. state_simpl.
    repeat match goal with
    | |- context [match ?x with _ => _ end] => destruct x eqn:?; state_simpl
    end; rewrite ?settles_snoc, ?app_nil_r; reflexivity. }
  unfold holds, orphaned. rewrite E, En, Es. split5; auto.
  all: try (unfold inv in Hd; now rewrite E, En, Es in Hd).
  all: try (intros id'; rewrite lookup_empty; discriminate).
Qed.

End Orphaned.

(** X18.  A request that is pending when [disconnect()] is called is never
    settled: [disconnect] clears the registrations without rejecting them,
    and along every run after it, reconnection included, neither a response
    with the request's id nor the request's own timeout reaches the promise,
    since ids are never reused.  The caller of [send] waits forever. *)
Theorem pending_at_disconnect_never_settled (l0 l : list input) (id : string)
    (p : promise) :
  _pendingRequests (run l0 initial) !! id = Some p ->
  settle_count p (log (run l (disconnect (run l0 initial)))) = 0%nat /\
  settled p (log (run l (disconnect (run l0 initial)))) = None.
Proof.
  intros Hp.
  pose proof (orphaned_disconnect p id _ (inv_run l0 initial inv_init) Hp) as H.
  apply (orphaned_run p l) in H. destruct H as (_ & H & _).
  split; [now apply settle_count_absent|].
  revert H. generalize (log (run l (disconnect (run l0 initial)))).
  intros lg. unfold settles. induction lg as [|e lg IH]; [reflexivity|].
  destruct e as [? ? ?|? ?|? ?|? ?|?|q o]; cbn; try exact IH.
  intros Hn. destruct (Nat.eqb_spec p q) as [->|Hne].
  - exfalso. apply Hn. left.
  - apply IH. intros Hin. apply Hn. now right.
Qed.

Lemma pending_at_disconnect_never_settled_witness :
  settle_count 3
    (log (run [TimerFires 4;
               SocketMessage 1 (Frame (Res (mkResponse "rn-3" true None None)));
               CallConnect config0; SocketOpen 2; CallSendMessage "again"]
            (disconnect
               (run [CallOnMessage 7; CallOnStateChange 8; CallConnect config0;
                     SocketOpen 1;
                     SocketMessage 1
                       (Frame (Event (mkEvent "connect.challenge"
                                        (Some (JObj [("nonce", JStr "n1")])))));
                     SocketMessage 1 (Frame (Res (mkResponse "rn-1" true None None)));
                     Continue 1; CallSendMessage "hi"] initial)))) = 0%nat.
Proof.
  assert (H : _pendingRequests
                (run [CallOnMessage 7; CallOnStateChange 8; CallConnect config0;
                      SocketOpen 1;
                      SocketMessage 1
                        (Frame (Event (mkEvent "connect.challenge"
                                         (Some (JObj [("nonce", JStr "n1")])))));
                      SocketMessage 1 (Frame (Res (mkResponse "rn-1" true None None)));
                      Continue 1; CallSendMessage "hi"] initial) !! "rn-3" = Some 3%nat)
    by (vm_compute; reflexivity).
  exact (proj1 (pending_at_disconnect_never_settled _
    [TimerFires 4;
     SocketMessage 1 (Frame (Res (mkResponse "rn-3" true None None)));
     CallConnect config0; SocketOpen 2; CallSendMessage "again"] "rn-3" 3 H)).
Defined.

End GatewayRequests.

(** ** The handshake with the gateway *)

Module GatewayHandshake.
Import Gateway GatewayFacts.

(** *** The handshake *)

(** The server's challenge arrives with the payload [pl]. *)
Definition challenge (pl : option json) (s : state) : state :=
  handleFrame (Frame (Event (mkEvent "connect.challenge" pl))) s.

(** The response [frame] arrives after the challenge and [doConnect]
    resumes. *)
Definition answered (frame : GatewayResponse) (pl : option json) (s : state) : state :=
  continue (nextPromise s) (handleFrame (Frame (Res frame)) (challenge pl s)).

Lemma find_awaiting_snoc p k l :
  find_awaiting p l = None -> find_awaiting p (l ++ [(p, k)]) = Some k.
Proof.
  induction l as [|[q k'] l IH]; cbn.
  - now rewrite Nat.eqb_refl.
  - destruct (Nat.eqb p q); [discriminate|exact IH].
Qed.

(** [send] on an open socket. *)
Lemma send_open frame k sock s :
  _ws s = Some (sock, OPEN) ->
  send frame k s
  = setTimeout (RequestTimeout (req_id frame) (req_method frame) (nextPromise s)) 30000
      (emit (WsSend sock frame)
         (set_pendingRequests (<[req_id frame := nextPromise s]> (_pendingRequests s))
            (set_awaiting (awaiting s ++ [(nextPromise s, k)])
               (set_nextPromise (S (nextPromise s)) s)))).
Proof.
  intros Hw. unfold send, ws_open, ws_send. state_simpl. rewrite Hw.
  cbn [negb]. state_simpl. now rewrite ?Hw.
Qed.

Lemma challenge_open cfg sock pl s :
  _config s = Some cfg -> _ws s = Some (sock, OPEN) ->
  challenge pl s
  = send (mkRequest (rn (S (_reqId s))) "connect" (connectParams cfg (get "nonce" pl)))
      DoConnect_connect (set_reqId (S (_reqId s)) s).
Proof.
  intros Hc Hw. unfold challenge. cbn [handleFrame]. unfold handleEvent.
  cbn [event payload]. rewrite String.eqb_refl.
  unfold doConnect. now rewrite Hc.
Qed.

(** [doConnect] once the connect request is accepted, on an open socket. *)
Lemma doConnect_accepted payload sock s :
  _ws s = Some (sock, OPEN) ->
  _isConnected (doConnect_connected (Resolved payload) s) = true /\
  _tickTimer (doConnect_connected (Resolved payload) s) = Some (nextTimer s) /\
  mkTimer (nextTimer s) Tick (delay_of (tickInterval payload)) true
    ∈ timers (doConnect_connected (Resolved payload) s) /\
  log (doConnect_connected (Resolved payload) s)
    = log s
      ++ match _onStateChange s with
         | Some h => [OnStateChange h connected]
         | None => []
         end
      ++ [WsSend sock (mkRequest (rn (S (_reqId s))) "chat.subscribe"
                         (JObj [("session", JStr "main")]))].
Proof.
  intros Hw. unfold doConnect_connected, notifyState, nextId. state_simpl.
  destruct (_onStateChange s) as [h|] eqn:Eh; state_simpl;
    destruct (_tickTimer s) as [t|] eqn:Et; state_simpl.
  all: erewrite send_open by (state_simpl; exact Hw).
  all: state_simpl; rewrite <- ?app_assoc; cbn [app].
  all: repeat split; auto.
  all: apply elem_of_app; right; left.
Qed.

(** X19.  The handshake on an open socket with a configuration set.  The
    server's challenge makes the client write one connect request, with the
    next id, the configured token and the challenge's nonce.  When the
    response to it is ok and [doConnect] resumes: the client is connected,
    the state handler is told so, a keepalive is armed and held in
    [_tickTimer], and the chat.subscribe request is written with the id
    after.  The value handed to [setInterval] is the policy's
    [tickIntervalMs] when that is truthy and the number 15000 when it is
    absent or falsy; when the value handed over is a number, the keepalive
    is armed with that delay (nothing is said of the delay when it is a
    truthy value that is not a number, which is left to the platform's
    timer).  When the response is not ok: the promise is rejected with the
    response's error message, the state handler is told Error, and neither
    the connected flag nor the keepalive slot changes.  The promise of the
    connect request is taken to be fresh (neither settled nor awaited
    before). *)
Theorem handshake_completes (s : state) (cfg : GatewayConfig) (sock : socket)
    (pl : option json) (frame : GatewayResponse) :
  _config s = Some cfg ->
  _ws s = Some (sock, OPEN) ->
  settled (nextPromise s) (log s) = None ->
  find_awaiting (nextPromise s) (awaiting s) = None ->
  res_id frame = rn (S (_reqId s)) ->
  log (challenge pl s)
    = log s ++ [WsSend sock (mkRequest (rn (S (_reqId s))) "connect"
                               (connectParams cfg (get "nonce" pl)))] /\
  (res_ok frame = true ->
     _isConnected (answered frame pl s) = true /\
     _tickTimer (answered frame pl s) = Some (S (nextTimer s)) /\
     (exists d, mkTimer (S (nextTimer s)) Tick d true ∈ timers (answered frame pl s)) /\
     (forall n, tickInterval (res_payload frame) = JNum n ->
        mkTimer (S (nextTimer s)) Tick n true ∈ timers (answered frame pl s)) /\
     log (answered frame pl s)
       = log (challenge pl s)
         ++ [Settle (nextPromise s) (Resolved (res_payload frame))]
         ++ match _onStateChange s with
            | Some h => [OnStateChange h connected]
            | None => []
            end
         ++ [WsSend sock (mkRequest (rn (S (S (_reqId s)))) "chat.subscribe"
                            (JObj [("session", JStr "main")]))]) /\
  (res_ok frame = false ->
     _isConnected (answered frame pl s) = _isConnected s /\
     _tickTimer (answered frame pl s) = _tickTimer s /\
     log (answered frame pl s)
       = log (challenge pl s)
         ++ [Settle (nextPromise s) (Rejected (error_message frame))]
         ++ match _onStateChange s with
            | Some h => [OnStateChange h error]
            | None => []
            end) /\
  (truthy (get "tickIntervalMs" (get "policy" (res_payload frame))) = false ->
     tickInterval (res_payload frame) = JNum 15000) /\
  (forall v, get "tickIntervalMs" (get "policy" (res_payload frame)) = Some v ->
     truthy (Some v) = true -> tickInterval (res_payload frame) = v).
Proof.
  intros Hc Hw Hs Hf Hid. unfold answered.
  assert (E1 : challenge pl s
    = setTimeout (RequestTimeout (rn (S (_reqId s))) "connect" (nextPromise s)) 30000
        (emit (WsSend sock (mkRequest (rn (S (_reqId s))) "connect"
                              (connectParams cfg (get "nonce" pl))))
           (set_pendingRequests
              (<[rn (S (_reqId s)) := nextPromise s]> (_pendingRequests s))
              (set_awaiting (awaiting s ++ [(nextPromise s, DoConnect_connect)])
                 (set_nextPromise (S (nextPromise s)) (set_reqId (S (_reqId s)) s)))))).
  { rewrite (challenge_open cfg sock pl s Hc Hw).
    rewrite (send_open _ _ sock) by exact Hw. reflexivity. }
  set (s1 := challenge pl s) in *.
  assert (F : _ws s1 = Some (sock, OPEN) /\ _reqId s1 = S (_reqId s) /\
              _pendingRequests s1 !! res_id frame = Some (nextPromise s) /\
              _onStateChange s1 = _onStateChange s /\
              _tickTimer s1 = _tickTimer s /\ _isConnected s1 = _isConnected s /\
              nextTimer s1 = S (nextTimer s) /\
              awaiting s1 = awaiting s ++ [(nextPromise s, DoConnect_connect)] /\
              log s1 = log s ++ [WsSend sock (mkRequest (rn (S (_reqId s))) "connect"
                                            (connectParams cfg (get "nonce" pl)))]).
  { rewrite E1, Hid. cbn. rewrite lookup_insert_eq. auto 10. }
  clearbody s1. clear E1.
  destruct F as (F1 & F2 & F3 & F4 & F5 & F6 & F7 & F8 & F9).
  split; [exact F9|].
  assert (T1 : truthy (get "tickIntervalMs" (get "policy" (res_payload frame))) = false ->
               tickInterval (res_payload frame) = JNum 15000).
  { intros E. unfold tickInterval. now rewrite E. }
  assert (T2 : forall v,
             get "tickIntervalMs" (get "policy" (res_payload frame)) = Some v ->
             truthy (Some v) = true -> tickInterval (res_payload frame) = v).
  { intros v E Ev. unfold tickInterval. now rewrite E, Ev. }
  rewrite (handleFrame_registered _ _ _ F3).
  set (s2 := set_pendingRequests _ s1).
  unfold continue. cbn [log emit set_log awaiting].
  rewrite settled_snoc. change (log s2) with (log s1). change (awaiting s2) with (awaiting s1).
  rewrite F9, settled_snoc_other by exact I. rewrite Hs, F8.
  rewrite (find_awaiting_snoc _ _ _ Hf). cbn [run_continuation].
  set (s3 := set_awaiting _ _).
  assert (G : _ws s3 = Some (sock, OPEN) /\ _reqId s3 = S (_reqId s) /\
              _onStateChange s3 = _onStateChange s /\
              _tickTimer s3 = _tickTimer s /\ _isConnected s3 = _isConnected s /\
              nextTimer s3 = S (nextTimer s) /\
              log s3 = log s1 ++ [Settle (nextPromise s) (outcome_of frame)]).
  { unfold s3, s2. cbn. auto 10. }
  clearbody s3. destruct G as (G1 & G2 & G3 & G4 & G5 & G6 & G7).
  unfold outcome_of in *.
  split; [|split; [|split; [exact T1|exact T2]]]; intros Hok; rewrite Hok in *.
  - destruct (doConnect_accepted (res_payload frame) sock s3 G1) as (A1 & A2 & A3 & A4).
    rewrite A1, A2, A4, G2, G3, G6, G7 in *. rewrite ?F9, <- !app_assoc.
    split; [reflexivity|]. split; [reflexivity|]. split; [eauto|].
    split; [|reflexivity].
    intros n En. rewrite En in A3. exact A3.
  - unfold doConnect_connected.
    destruct (notifyState_fields error s3) as (_ & _ & _ & _ & N5 & N6 & _ & _ & N9).
    rewrite N5, N6, N9, G3, G4, G5, G7. rewrite ?F9, <- !app_assoc.
    repeat split; auto.
Qed.

Lemma handshake_completes_witness :
  _isConnected
    (answered (mkResponse "rn-1" true
                 (Some (JObj [("policy", JObj [("tickIntervalMs", JNum 20000)])]))
                 None)
       (Some (JObj [("nonce", JStr "n1")]))
       (run [CallOnStateChange 8; CallConnect config0; SocketOpen 1] initial))
  = true /\
  mkTimer 2 Tick 20000 true
    ∈ timers
        (answered (mkResponse "rn-1" true
                     (Some (JObj [("policy", JObj [("tickIntervalMs", JNum 20000)])]))
                     None)
           (Some (JObj [("nonce", JStr "n1")]))
           (run [CallOnStateChange 8; CallConnect config0; SocketOpen 1] initial)) /\
  tickInterval (Some (JObj [("policy", JObj [("tickIntervalMs", JStr "5000")])]))
  = JStr "5000" /\
  tickInterval None = JNum 15000.
Proof.
  destruct (handshake_completes
              (run [CallOnStateChange 8; CallConnect config0; SocketOpen 1] initial)
              config0 1 (Some (JObj [("nonce", JStr "n1")]))
              (mkResponse "rn-1" true
                 (Some (JObj [("policy", JObj [("tickIntervalMs", JNum 20000)])]))
                 None)
              eq_refl eq_refl eq_refl eq_refl eq_refl) as (_ & H & _).
  destruct (H eq_refl) as (H1 & _ & _ & H3 & _).
  split; [exact H1|]. split; [exact (H3 20000%Z eq_refl)|].
  split.
  - exact (proj2 (proj2 (proj2 (proj2 (handshake_completes
      (run [CallOnStateChange 8; CallConnect config0; SocketOpen 1] initial)
      config0 1 None
      (mkResponse "rn-1" true
         (Some (JObj [("policy", JObj [("tickIntervalMs", JStr "5000")])])) None)
      eq_refl eq_refl eq_refl eq_refl eq_refl)))) (JStr "5000") eq_refl eq_refl).
  - exact (proj1 (proj2 (proj2 (proj2 (handshake_completes
      (run [CallOnStateChange 8; CallConnect config0; SocketOpen 1] initial)
      config0 1 None (mkResponse "rn-1" true None None)
      eq_refl eq_refl eq_refl eq_refl eq_refl)))) eq_refl).
Defined.

End GatewayHandshake.

(** ** Speech recognition *)

Module WhisperFacts.
Import Whisper.

Ltac state_simpl :=
  cbn [emit await set_ctx set_isRecording set_currentTranscribe set_fullText
       set_awaiting set_nextContext set_nextSession set_log
       _ctx _isRecording _currentTranscribe fullText awaiting nextContext
       nextSession log] in *.

Ltac unfold_whisper :=
  unfold settle, resume, initWhisper, initWhisper_loaded, startListening,
    startListening_started, onEvent, handle_stop, forceStop_stopped,
    releaseWhisper, forceStop, after_forceStopped, releaseWhisper_released
    in *.

Ltac break_ifs :=
  repeat match goal with
  | |- context [match ?x with _ => _ end] =>
      match x with
      | context [match _ with _ => _ end] => fail 1
      | _ => destruct x eqn:?
      end; state_simpl
  end.

(** An invariant of [step] holds along every run. *)
Lemma whisper_run_invariant (P : state -> Prop) :
  (forall i s, P s -> P (step i s)) -> forall l s, P s -> P (run l s).
Proof.
  intros Hstep l. induction l as [|i l IH]; intros s H; [exact H|].
  cbn. apply IH, Hstep, H.
Qed.

(** *** A failed start *)

Definition is_stop (i : input) : bool :=
  match i with CallStop _ => true | _ => false end.

(** Recording, by the flag, with no session to stop and none on its way. *)
Definition wedged (s : state) : Prop :=
  _isRecording s = true /\ _currentTranscribe s = None /\
  AwaitTranscribeRealtime ∉ awaiting s.

Lemma not_elem_of_delete {A} (x : A) (i : nat) (l : list A) :
  x ∉ l -> x ∉ delete i l.
Proof.
  intros H Hin. apply H. now apply list_elem_of_delete_inv in Hin.
Qed.

Lemma wedged_step i s : is_stop i = false -> wedged s -> wedged (step i s).
Proof.
  intros Hi (H1 & H2 & H3). unfold wedged in *.
  destruct i; try discriminate Hi; cbn [step]; unfold_whisper; state_simpl;
    rewrite ?H1, ?H2; state_simpl.
  all: break_ifs; state_simpl; rewrite ?H1, ?H2 in *; try discriminate.
  all: repeat split; auto.
  all: try (rewrite elem_of_app, list_elem_of_singleton; intros [?|?];
            [contradiction|discriminate]).
  all: try (apply not_elem_of_delete; assumption).
  all: try (exfalso; apply H3; eapply list_elem_of_lookup_2; eassumption).
  all: rewrite elem_of_app, list_elem_of_singleton; intros [Hin|?];
    [apply list_elem_of_delete_inv in Hin; contradiction|discriminate].
Qed.

Lemma wedged_run l s :
  forallb (fun i => negb (is_stop i)) l = true -> wedged s -> wedged (run l s).
Proof.
  revert s. induction l as [|i l IH]; intros s Hl Hs; [exact Hs|].
  cbn [forallb] in Hl. apply andb_prop in Hl as [Hi Hl].
  apply negb_true_iff in Hi. cbn [run fold_left].
  apply (IH _ Hl), wedged_step; assumption.
Qed.

(** [startListening] was called and [transcribeRealtime] rejected. *)
Definition start_failed (s : state) : state :=
  match startListening s with
  | inl _ => s
  | inr s' => settle (length (awaiting s)) false s'
  end.

(** X20.  A failed start wedges the recorder.  When [startListening] is
    accepted (initialised, not recording, no session current or on its way)
    and [transcribeRealtime] then rejects, [_isRecording] stays set: along
    every run after it in which no handle's [stop] is called (and the
    failed call returned no handle), [isListening()] is true and every
    [startListening] throws, 'Already recording' or, after a release,
    'Whisper not initialized'; [forceStop] and [releaseWhisper] do not
    clear the flag. *)
Theorem failed_start_wedges_recorder (s : state) (c : context) (l : list input) :
  _ctx s = Some c ->
  _isRecording s = false ->
  _currentTranscribe s = None ->
  AwaitTranscribeRealtime ∉ awaiting s ->
  forallb (fun i => negb (is_stop i)) l = true ->
  isListening (run l (start_failed s)) = true /\
  (startListening (run l (start_failed s)) = inl AlreadyRecording \/
   startListening (run l (start_failed s)) = inl NotInitialized).
Proof.
  intros Hc Hr Ht Ha Hl.
  assert (W : wedged (start_failed s)).
  { unfold start_failed, startListening. rewrite Hc, Hr.
    unfold settle. state_simpl.
    rewrite list_lookup_middle by reflexivity.
    rewrite delete_middle, app_nil_r. cbn [resume]. state_simpl.
    repeat split; auto. }
  apply (wedged_run l _ Hl) in W. destruct W as (W1 & W2 & W3).
  split; [exact W1|]. unfold startListening. rewrite W1.
  destruct (_ctx (run l (start_failed s))); auto.
Qed.

Lemma failed_start_wedges_recorder_witness :
  isListening (run [CallForceStop; CallStartListening; CallReleaseWhisper;
                    Settled 0 true; CallInitWhisper; Settled 0 true;
                    CallStartListening]
                 (start_failed ready)) = true.
Proof.
  refine (proj1 (failed_start_wedges_recorder ready 1
    [CallForceStop; CallStartListening; CallReleaseWhisper;
     Settled 0 true; CallInitWhisper; Settled 0 true; CallStartListening]
    eq_refl eq_refl eq_refl _ eq_refl)).
  intros H. vm_compute in H. inversion H.
Defined.

(** *** The final transcript *)

Definition is_text (e : effect) : Prop :=
  match e with
  | OnPartialResult _ text => JsString.truthy text = true
  | _ => True
  end.

Lemma partials_snoc (k : session) l e :
  partials k (l ++ [e])
  = partials k l ++ match e with
                    | OnPartialResult k' text => if Nat.eqb k k' then [text] else []
                    | _ => []
                    end.
Proof.
  unfold partials. rewrite omap_app. destruct e; try reflexivity.
  cbn. now destruct (Nat.eqb k k0).
Qed.

(** Every session's [fullText] is the partial transcript handed out last
    for it, and is empty when none was. *)
Definition texts_ok (s : state) : Prop :=
  Forall is_text (log s) /\
  forall k : session,
    match fullText s !! k with
    | Some full => (k < nextSession s)%nat /\
                   full = default "" (last (partials k (log s)))
    | None => partials k (log s) = []
    end.

Lemma texts_ok_log e s :
  match e with OnPartialResult _ _ => False | _ => True end ->
  texts_ok s -> texts_ok (emit e s).
Proof.
  intros He [H1 H2]. split.
  - state_simpl. apply Forall_app. split; [exact H1|].
    apply Forall_singleton. destruct e; try exact I. contradiction.
  - intros k. state_simpl. rewrite partials_snoc.
    destruct e; try contradiction; rewrite app_nil_r; apply H2.
Qed.

Lemma texts_ok_same s s' :
  log s' = log s -> fullText s' = fullText s -> nextSession s' = nextSession s ->
  texts_ok s -> texts_ok s'.
Proof. intros E1 E2 E3 H. unfold texts_ok. now rewrite E1, E2, E3. Qed.

Lemma texts_ok_started s : texts_ok s -> texts_ok (startListening_started s).
Proof.
  intros [H1 H2]. split; [exact H1|]. intros k.
  unfold startListening_started. state_simpl. rewrite lookup_insert.
  specialize (H2 k). case_decide as D.
  - subst k. split; [lia|]. revert H2.
    match goal with |- context [match ?x with _ => _ end] => destruct x end.
    + intros [H2 _]. lia.
    + now intros ->.
  - revert H2.
    match goal with |- context [match ?x with _ => _ end] => destruct x end;
      [|auto].
    intros [H2 H3]. split; [lia|exact H3].
Qed.

Lemma texts_ok_onEvent (k : session) isCapturing result s :
  is_Some (fullText s !! k) -> texts_ok s -> texts_ok (onEvent k isCapturing result s).
Proof.
  intros [full0 Hk] [H1 H2]. unfold onEvent.
  destruct isCapturing; [|split; assumption].
  destruct result as [r|]; [|split; assumption].
  destruct (JsString.truthy r) eqn:Hr; [|split; assumption].
  split.
  - state_simpl. apply Forall_app. split; [exact H1|].
    now apply Forall_singleton.
  - intros k'. state_simpl. rewrite partials_snoc, lookup_insert.
    case_decide as D.
    + subst k'. rewrite Nat.eqb_refl, last_snoc. cbn.
      specialize (H2 k). rewrite Hk in H2. split; [apply H2|reflexivity].
    + destruct (Nat.eqb_spec k' k) as [->|_]; [contradiction|].
      rewrite app_nil_r. apply H2.
Qed.

Lemma texts_ok_after k s : texts_ok s -> texts_ok (after_forceStopped k s).
Proof.
  intros H. destruct k; cbn [after_forceStopped]; [exact H|].
  destruct (_ctx s); [|exact H].
  apply (texts_ok_same (emit (Release c) s)); try reflexivity.
  now apply texts_ok_log.
Qed.

Lemma texts_ok_step i s : texts_ok s -> texts_ok (step i s).
Proof.
  intros H. destruct i; cbn [step].
  - unfold initWhisper. destruct (_ctx s); [exact H|].
    now apply (texts_ok_same s).
  - unfold startListening. destruct (_ctx s) as [c|]; [|exact H].
    destruct (_isRecording s); [exact H|].
    apply (texts_ok_same (emit (TranscribeRealtime c) s)); try reflexivity.
    now apply texts_ok_log.
  - destruct (fullText s !! k); [|exact H].
    apply (texts_ok_same (emit (EngineStop k) s)); try reflexivity.
    now apply texts_ok_log.
  - unfold forceStop. destruct (_currentTranscribe s) as [t|].
    + apply (texts_ok_same (emit (EngineStop t) s)); try reflexivity.
      now apply texts_ok_log.
    + now apply texts_ok_after.
  - unfold releaseWhisper, forceStop. destruct (_currentTranscribe s) as [t|].
    + apply (texts_ok_same (emit (EngineStop t) s)); try reflexivity.
      now apply texts_ok_log.
    + now apply texts_ok_after.
  - destruct (fullText s !! k) eqn:E; [|exact H].
    apply texts_ok_onEvent; [now rewrite E|exact H].
  - unfold settle. destruct (awaiting s !! i) as [t|]; [|exact H].
    set (s1 := set_awaiting _ s).
    assert (H1 : texts_ok s1) by now apply (texts_ok_same s).
    unfold resume. destruct ok; [|exact H1].
    destruct t.
    + now apply (texts_ok_same s1).
    + now apply texts_ok_started.
    + unfold forceStop_stopped. apply texts_ok_after.
      now apply (texts_ok_same s1).
    + now apply (texts_ok_same s1).
Qed.

Lemma final_text_empty result : final_text "" result = default "" result.
Proof.
  unfold final_text. cbn. destruct result as [r|]; [|reflexivity].
  cbn. now destruct r.
Qed.

(** X21.  Along every run of the module from its initial state, no empty
    partial transcript is handed to [onPartialResult], and the text a
    handle's [stop] resolves with is the partial transcript handed out last
    for its session, whatever the engine's final result; only when none was
    handed out is it the engine's final result, or the empty string when
    there is none. *)
Theorem final_text_is_last_partial (l : list input) (k : session)
    (result : option string) :
  Forall is_text (log (run l initial)) /\
  handle_stopped k result (run l initial)
  = match last (partials k (log (run l initial))) with
    | Some text => text
    | None => default "" result
    end.
Proof.
  assert (H : texts_ok (run l initial)).
  { apply (whisper_run_invariant texts_ok texts_ok_step). split; [constructor|].
    intros k'. cbn. now rewrite lookup_empty. }
  destruct H as [H1 H2]. split; [exact H1|].
  unfold handle_stopped. specialize (H2 k).
  set (s := run l initial) in *.
  revert H2. destruct (fullText s !! k) as [full|]; cbn [default].
  - intros [_ ->].
    destruct (last (partials k (log s))) as [text|] eqn:E; cbn [default].
    + assert (Ht : JsString.truthy text = true).
      { apply last_Some_elem_of in E. unfold partials in E.
        apply list_elem_of_omap in E as (e & He & Ee).
        rewrite Forall_forall in H1. specialize (H1 e He).
        destruct e; try discriminate.
        destruct (Nat.eqb k k0); [|discriminate]. now injection Ee as <-. }
      unfold final_text, id. now rewrite Ht.
    + apply final_text_empty.
  - intros ->. cbn. apply final_text_empty.
Qed.

End WhisperFacts.
